(** * Parallel cyclic reduction for tridiagonal systems: a verified model

    Shallow embedding of [diagonal.c], [sle.c] and [pcr.c].

    - C [int] and [size_t] values are integers of [Z] with the conversions
      written out ([to_int], [to_size]).
    - [float] and [double] arithmetic is an interface ([CArith]) with one
      operation per C operation; the arithmetic the program runs is the
      instance [binary32]: IEEE-754 binary32 and binary64 on [SpecFloat],
      rounding to nearest, ties to even.
    - Memory is a typed heap: one finite map per object type
      ([triSLE_t], [diagonal_t], [float] buffers), a null pointer, and an
      allocator whose successes and failures are scripted.  A run either
      returns a value and a new state, or is undefined ([Fault]): null or
      dangling dereference, out-of-bounds access, double free.
    - The [#pragma omp parallel for] loops are run in index order: every row
      reads buffers no row writes and writes only its own cell.
    - The two [timer] out-parameters of [pcr] are write-only time stamps and
      are left out.
    - Tolerances are stated on the rationals the binary32 data stand for
      ([SF2Q]); the rounding of [SFmul] and [SFdiv] is analysed from their
      definitions in [SpecFloat]. *)

From Stdlib Require Import ZArith Lia Bool List.
From Stdlib Require Import Floats.FloatClass Floats.SpecFloat.
From Stdlib Require Import QArith Qabs Qpower.
From stdpp Require Import base option list gmap fin_maps.

#[local] Open Scope Z_scope.

(** ** Machine integers *)

Definition INT_MAX : Z := 2 ^ 31 - 1.

(** Conversion to [int] (two's complement, 32 bits). *)
Definition to_int (z : Z) : Z := (z + 2 ^ 31) mod 2 ^ 32 - 2 ^ 31.

(** Conversion to [size_t] (64 bits). *)
Definition to_size (z : Z) : Z := z mod 2 ^ 64.

Definition sizeof_float : Z := 4.

(** ** Floating-point interface

    One field per C operation the sources use, over the two carriers:
    [float], the type of the stored coefficients, and [double], the type C
    promotes to around [fabs], the literals [0.0], [1.0], [100.0] and
    [EPSILON]. *)

Class CArith (float double : Type) := {
  f_of_d : double -> float;          (* conversion double -> float *)
  d_of_f : float -> double;          (* promotion float -> double *)
  f_of_size : Z -> float;            (* (float)n for a size_t n *)
  size_ceil_log2 : float -> Z;       (* (size_t)ceil(log2(x)) *)
  f_0 : float;                       (* 0.0f, also (float)0 *)
  f_1 : float;                       (* 1.f *)
  d_0 : double;                      (* 0.0 *)
  d_1 : double;                      (* 1.0 *)
  d_100 : double;                    (* 100.0 *)
  EPSILON : double;                  (* 1e-30 *)
  fneg : float -> float;
  fadd : float -> float -> float;
  fsub : float -> float -> float;
  fmul : float -> float -> float;
  fdiv : float -> float -> float;
  f_abs : float -> float;            (* |.| on float, for specifications *)
  dadd : double -> double -> double;
  dmul : double -> double -> double;
  ddiv : double -> double -> double;
  dabs : double -> double;           (* fabs *)
  feqb : float -> float -> bool;     (* == on float *)
  fgtb : float -> float -> bool;     (* > on float *)
  deqb : double -> double -> bool    (* == on double *)
}.

(** ** Memory *)

Inductive ptr := NULL | Ptr (l : positive).

Definition is_null (p : ptr) : bool :=
  match p with NULL => true | Ptr _ => false end.

(** [struct diagonal_s { size_t n; float *data; }] *)
Record diagonal_s := Diagonal { dg_n : Z; dg_data : ptr }.

(** [struct triSLE_s { diagonal_t *a, *b, *c, *d, *x; }] *)
Record triSLE_s := TriSLE {
  sle_a : ptr; sle_b : ptr; sle_c : ptr; sle_d : ptr; sle_x : ptr
}.

Inductive field := Fa | Fb | Fc | Fd | Fx.

Definition get_field (f : field) : triSLE_s -> ptr :=
  match f with
  | Fa => sle_a | Fb => sle_b | Fc => sle_c | Fd => sle_d | Fx => sle_x
  end.

(** The next unused address of a heap component. *)
Definition fresh_addr {X} (m : gmap positive X) : positive :=
  Pos.succ (map_fold (fun k _ acc => Pos.max k acc) 1%positive m).

Section Model.
Context {float double : Type} {AR : CArith float double}.

(** An allocation either fails or succeeds with indeterminate contents. *)
Definition malloc_result : Type := option (nat -> float).

Record state := State {
  sles : gmap positive triSLE_s;
  diags : gmap positive diagonal_s;
  floats : gmap positive (list float);
  allocator : list malloc_result
}.

Definition set_diags (f : gmap positive diagonal_s -> gmap positive diagonal_s)
    (s : state) : state :=
  State (sles s) (f (diags s)) (floats s) (allocator s).

Definition set_floats (f : gmap positive (list float) -> gmap positive (list float))
    (s : state) : state :=
  State (sles s) (diags s) (f (floats s)) (allocator s).

Definition set_allocator (al : list malloc_result) (s : state) : state :=
  State (sles s) (diags s) (floats s) al.

Inductive outcome (A : Type) :=
| Ok (a : A) (s : state)
| Fault.
Arguments Ok {A} a s.
Arguments Fault {A}.

Definition M (A : Type) : Type := state -> outcome A.

Definition ret {A} (a : A) : M A := fun s => Ok a s.

Definition bind {A B} (m : M A) (k : A -> M B) : M B :=
  fun s => match m s with Ok a s' => k a s' | Fault => Fault end.

#[local] Notation "x <- c1 ;; c2" := (bind c1 (fun x => c2))
  (at level 100, c1 at next level, right associativity).
#[local] Notation "c1 ;;; c2" := (bind c1 (fun _ => c2))
  (at level 100, right associativity).

(** [p->a], ... for [triSLE_t *p] *)
Definition sle_field (f : field) (p : ptr) : M ptr := fun s =>
  match p with
  | NULL => Fault
  | Ptr l => match sles s !! l with Some r => Ok (get_field f r) s | None => Fault end
  end.

(** [p->n] and [p->data] for [diagonal_t *p] *)
Definition diag_n (p : ptr) : M Z := fun s =>
  match p with
  | NULL => Fault
  | Ptr l => match diags s !! l with Some r => Ok (dg_n r) s | None => Fault end
  end.

Definition diag_data (p : ptr) : M ptr := fun s =>
  match p with
  | NULL => Fault
  | Ptr l => match diags s !! l with Some r => Ok (dg_data r) s | None => Fault end
  end.

(** [p->data = q] *)
Definition set_diag_data (p q : ptr) : M unit := fun s =>
  match p with
  | NULL => Fault
  | Ptr l =>
      match diags s !! l with
      | Some r => Ok tt (set_diags (insert l (Diagonal (dg_n r) q)) s)
      | None => Fault
      end
  end.

Definition in_bounds (v : list float) (i : Z) : bool :=
  (0 <=? i) && (i <? Z.of_nat (length v)).

(** [p[i]] as an rvalue *)
Definition load_float (p : ptr) (i : Z) : M float := fun s =>
  match p with
  | NULL => Fault
  | Ptr l =>
      match floats s !! l with
      | Some v =>
          match v !! Z.to_nat i with
          | Some y => if in_bounds v i then Ok y s else Fault
          | None => Fault
          end
      | None => Fault
      end
  end.

(** [p[i] = y] *)
Definition store_float (p : ptr) (i : Z) (y : float) : M unit := fun s =>
  match p with
  | NULL => Fault
  | Ptr l =>
      match floats s !! l with
      | Some v =>
          if in_bounds v i
          then Ok tt (set_floats (insert l (<[Z.to_nat i := y]> v)) s)
          else Fault
      | None => Fault
      end
  end.

(** [(float * )malloc(bytes)]: the next scripted result decides; an
    exhausted script fails. *)
Definition malloc_floats (bytes : Z) : M ptr := fun s =>
  match allocator s with
  | [] => Ok NULL s
  | None :: rest => Ok NULL (set_allocator rest s)
  | Some junk :: rest =>
      let l := fresh_addr (floats s) in
      let v := map junk (seq 0 (Z.to_nat (bytes / sizeof_float))) in
      Ok (Ptr l) (set_allocator rest (set_floats (insert l v) s))
  end.

(** [free(p)] for a [float *p]: nothing on null, undefined on a pointer
    that is not live. *)
Definition free_floats (p : ptr) : M unit := fun s =>
  match p with
  | NULL => Ok tt s
  | Ptr l =>
      match floats s !! l with
      | Some _ => Ok tt (set_floats (delete l) s)
      | None => Fault
      end
  end.

(** [free(p)] for a [diagonal_t *p] *)
Definition free_diag (p : ptr) : M unit := fun s =>
  match p with
  | NULL => Ok tt s
  | Ptr l =>
      match diags s !! l with
      | Some _ => Ok tt (set_diags (delete l) s)
      | None => Fault
      end
  end.

(** [memcpy(dst, src, bytes)] between two [float] buffers: undefined when
    a pointer is not live, when a buffer is shorter than the copied range,
    or when source and destination are the same buffer. *)
Definition memcpy_floats (dst src : ptr) (bytes : Z) : M unit := fun s =>
  match dst, src with
  | Ptr ld, Ptr ls =>
      match floats s !! ld, floats s !! ls with
      | Some vd, Some vs =>
          let k := Z.to_nat (bytes / sizeof_float) in
          if bool_decide (ld <> ls) && (k <=? length vs)%nat && (k <=? length vd)%nat
          then Ok tt (set_floats (insert ld (take k vs ++ drop k vd)) s)
          else Fault
      | _, _ => Fault
      end
  | _, _ => Fault
  end.

(** [for (i = lo; i < hi; i++) body(i)], for [int] and for [size_t]
    counters; no body below writes its bounds. *)
Fixpoint for_count (count : nat) (i : Z) (body : Z -> M unit) : M unit :=
  match count with
  | O => ret tt
  | S k => body i ;;; for_count k (i + 1) body
  end.

Definition for_range (lo hi : Z) (body : Z -> M unit) : M unit :=
  for_count (Z.to_nat (hi - lo)) lo body.

(** ** Reading a system out of memory *)

(** What a [diagonal_t *] denotes: the address of the struct, its [n]
    field, the address of its buffer (the handle) and the buffer's
    contents. *)
Record vec_view := VecView {
  vv_diag : positive;
  vv_n : Z;
  vv_buf : positive;
  vv_vals : list float
}.

Record sle_view := SleView {
  view_a : vec_view;
  view_b : vec_view;
  view_c : vec_view;
  view_d : vec_view;
  view_x : vec_view
}.

Definition view_of (f : field) : sle_view -> vec_view :=
  match f with
  | Fa => view_a | Fb => view_b | Fc => view_c | Fd => view_d | Fx => view_x
  end.

Definition read_vec (s : state) (p : ptr) : option vec_view :=
  match p with
  | NULL => None
  | Ptr l =>
      match diags s !! l with
      | Some (Diagonal n (Ptr b)) =>
          match floats s !! b with
          | Some v => Some (VecView l n b v)
          | None => None
          end
      | _ => None
      end
  end.

Definition read_sle (s : state) (p : ptr) : option sle_view :=
  match p with
  | NULL => None
  | Ptr l =>
      match sles s !! l with
      | Some r =>
          match read_vec s (sle_a r), read_vec s (sle_b r), read_vec s (sle_c r),
                read_vec s (sle_d r), read_vec s (sle_x r) with
          | Some a, Some b, Some c, Some d, Some x => Some (SleView a b c d x)
          | _, _, _, _, _ => None
          end
      | None => None
      end
  end.

Definition len (v : list float) : Z := Z.of_nat (length v).

(** [v[i]], with [0.0f] outside the list. *)
Definition idx (v : list float) (i : Z) : float := nth (Z.to_nat i) v f_0.

Definition vals (f : field) (V : sle_view) : list float := vv_vals (view_of f V).
Definition buf (f : field) (V : sle_view) : positive := vv_buf (view_of f V).

(** A system of [n] equations: five vectors of [n] values, and the length
    field the code reads ([b->n]) is [n]. *)
Definition sized (n : Z) (V : sle_view) : Prop :=
  vv_n (view_b V) = n /\
  len (vals Fa V) = n /\ len (vals Fb V) = n /\ len (vals Fc V) = n /\
  len (vals Fd V) = n /\ len (vals Fx V) = n.

Definition bufs_of (V : sle_view) : list positive :=
  [buf Fa V; buf Fb V; buf Fc V; buf Fd V; buf Fx V].

Definition diags_of (V : sle_view) : list positive :=
  [vv_diag (view_a V); vv_diag (view_b V); vv_diag (view_c V);
   vv_diag (view_d V); vv_diag (view_x V)].

(** The same vector with other contents. *)
Definition with_vals (v : vec_view) (l : list float) : vec_view :=
  VecView (vv_diag v) (vv_n v) (vv_buf v) l.

(** ** diagonal.c *)

(** [FREE_IF_NOT_NULL(diag->data); FREE_IF_NOT_NULL(diag); return 0;]
    The first macro reads [diag->data] before [diag] is tested. *)
Definition diagonal_destroy (diag : ptr) : M Z :=
  data <- diag_data diag ;;
  (if is_null data then ret tt
   else (free_floats data ;;; set_diag_data diag NULL)) ;;;
  (if is_null diag then ret tt else free_diag diag) ;;;
  ret 0.

(** ** sle.c *)

(** [p->f->data] *)
Definition sle_data (f : field) (p : ptr) : M ptr :=
  dg <- sle_field f p ;; diag_data dg.

(** [p->f->data[i]] *)
Definition sle_elem (f : field) (p : ptr) (i : Z) : M float :=
  data <- sle_data f p ;; load_float data i.

(** [p->b->n] *)
Definition sle_n (p : ptr) : M Z :=
  dg <- sle_field Fb p ;; diag_n dg.

(** [memcpy(dest->f->data, src->f->data, src->b->n * sizeof(float));] *)
Definition copy_field (f : field) (dest src : ptr) : M unit :=
  dd <- sle_data f dest ;;
  sd <- sle_data f src ;;
  n <- sle_n src ;;
  memcpy_floats dd sd (to_size (n * sizeof_float)).

Definition triSLE_copy (dest src : ptr) : M Z :=
  if is_null dest || is_null src then ret (-1)
  else
    copy_field Fa dest src ;;;
    copy_field Fb dest src ;;;
    copy_field Fc dest src ;;;
    copy_field Fd dest src ;;;
    ret 0.

(** The row residual both validators recompute:
    [result = b[i] * x[i]; if (i > 0) result += a[i] * x[i - 1];
     if (i < n - 1) result += c[i] * x[i + 1];] *)
Definition row_result (result_system initial_system : ptr) (i : Z) : M float :=
  bi <- sle_elem Fb initial_system i ;;
  xi <- sle_elem Fx result_system i ;;
  let result := fmul bi xi in
  result <-
    (if 0 <? i then
       ai <- sle_elem Fa initial_system i ;;
       xl <- sle_elem Fx result_system (to_size (i - 1)) ;;
       ret (fadd result (fmul ai xl))
     else ret result) ;;
  n <- sle_n initial_system ;;
  (if i <? to_size (n - 1) then
     ci <- sle_elem Fc initial_system i ;;
     xr <- sle_elem Fx result_system (to_size (i + 1)) ;;
     ret (fadd result (fmul ci xr))
   else ret result).

(** [relative_error = fabs(result - expected) / (fabs(expected))] *)
Definition relative_error (result expected : float) : float :=
  f_of_d (ddiv (dabs (d_of_f (fsub result expected))) (dabs (d_of_f expected))).

(** The loop of [triSLE_validate_maxrel] from row [i] on; [break] leaves
    the loop with the NaN stored. *)
Fixpoint maxrel_rows (count : nat) (i : Z) (result_system initial_system : ptr)
    (max_relative_error : float) : M float :=
  match count with
  | O => ret max_relative_error
  | S k =>
      result <- row_result result_system initial_system i ;;
      if negb (feqb result result) then ret result
      else
        expected <- sle_elem Fd initial_system i ;;
        let max_relative_error :=
          if negb (deqb (d_of_f expected) d_0) then
            if fgtb (relative_error result expected) max_relative_error
            then relative_error result expected
            else max_relative_error
          else max_relative_error in
        maxrel_rows k (i + 1) result_system initial_system max_relative_error
  end.

Definition triSLE_validate_maxrel (result_system initial_system : ptr) : M float :=
  if is_null result_system || is_null initial_system then ret (f_of_d (ddiv d_0 d_0))
  else
    n <- sle_n initial_system ;;
    maxrel_rows (Z.to_nat n) 0 result_system initial_system (f_of_d d_0).

(** [absolute_percentage_error = fabs((result - expected) / expected) * 100.0] *)
Definition absolute_percentage_error (result expected : float) : float :=
  f_of_d (dmul (dabs (d_of_f (fdiv (fsub result expected) expected))) d_100).

Fixpoint mape_rows (count : nat) (i : Z) (result_system initial_system : ptr)
    (total_absolute_percentage_error : float) : M float :=
  match count with
  | O => ret total_absolute_percentage_error
  | S k =>
      result <- row_result result_system initial_system i ;;
      expected <- sle_elem Fd initial_system i ;;
      let total_absolute_percentage_error :=
        if negb (deqb (d_of_f expected) d_0) then
          fadd total_absolute_percentage_error
               (absolute_percentage_error result expected)
        else if deqb (d_of_f expected) d_0 && negb (deqb (d_of_f result) d_0) then
          f_of_d (dadd (d_of_f total_absolute_percentage_error) d_1)
        else total_absolute_percentage_error in
      mape_rows k (i + 1) result_system initial_system total_absolute_percentage_error
  end.

Definition triSLE_validate_mape (result_system initial_system : ptr) : M float :=
  if is_null result_system || is_null initial_system then ret (f_of_d (ddiv d_0 d_0))
  else
    n <- sle_n initial_system ;;
    total <- mape_rows (Z.to_nat n) 0 result_system initial_system (f_of_d d_0) ;;
    n <- sle_n initial_system ;;
    ret (fdiv total (f_of_size n)).

(** ** pcr.c *)

(** [-into_value / (decoupling_value == 0 ? EPSILON : decoupling_value)]:
    [EPSILON] is a [double], so the quotient is taken in [double] and
    converted by the [return]. *)
Definition compute_decoupling_coeffs (decoupling_value into_value : float) : float :=
  f_of_d (ddiv (d_of_f (fneg into_value))
               (if feqb decoupling_value f_0 then EPSILON
                else d_of_f decoupling_value)).

(** One iteration of the loop of [update_step]. *)
Definition update_row (sa sb sc sd tmp_a tmp_b tmp_c tmp_d : ptr)
    (n stride i : Z) : M unit :=
  let iRight := to_int (i + to_int stride) in
  let iLeft := to_int (i - to_int stride) in
  b_left <- (if iLeft <? 0 then ret f_1 else load_float sb iLeft) ;;
  a_i <- load_float sa i ;;
  let alpha := compute_decoupling_coeffs b_left a_i in
  b_right <- (if iRight <? to_int n then load_float sb iRight else ret f_1) ;;
  c_i <- load_float sc i ;;
  let gamma := compute_decoupling_coeffs b_right c_i in
  sa_iLeft <- (if iLeft <? 0 then ret f_0 else load_float sa iLeft) ;;
  sc_iLeft <- (if iLeft <? 0 then ret f_0 else load_float sc iLeft) ;;
  sd_iLeft <- (if iLeft <? 0 then ret f_0 else load_float sd iLeft) ;;
  sa_iRight <- (if to_int n <=? iRight then ret f_0 else load_float sa iRight) ;;
  sc_iRight <- (if to_int n <=? iRight then ret f_0 else load_float sc iRight) ;;
  sd_iRight <- (if to_int n <=? iRight then ret f_0 else load_float sd iRight) ;;
  store_float tmp_a i (fmul alpha sa_iLeft) ;;;
  store_float tmp_c i (fmul gamma sc_iRight) ;;;
  b_i <- load_float sb i ;;
  store_float tmp_b i (fadd (fadd b_i (fmul alpha sc_iLeft)) (fmul gamma sa_iRight)) ;;;
  d_i <- load_float sd i ;;
  store_float tmp_d i (fadd (fadd d_i (fmul alpha sd_iLeft)) (fmul gamma sd_iRight)).

Definition update_step (inout_sle tmp_a tmp_b tmp_c tmp_d : ptr) (level : Z) : M Z :=
  n <- sle_n inout_sle ;;
  let stride := to_size (to_int (Z.shiftl 1 level)) in
  sa <- sle_data Fa inout_sle ;;
  sb <- sle_data Fb inout_sle ;;
  sc <- sle_data Fc inout_sle ;;
  sd <- sle_data Fd inout_sle ;;
  for_range 0 (to_int n)
    (update_row sa sb sc sd tmp_a tmp_b tmp_c tmp_d n stride) ;;;
  ret 0.

(** [swap = sle->f->data; sle->f->data = tmp; tmp = swap;]
    The value is the new [tmp]. *)
Definition swap_data (f : field) (sle tmp : ptr) : M ptr :=
  dg <- sle_field f sle ;;
  swap <- diag_data dg ;;
  set_diag_data dg tmp ;;;
  ret swap.

Definition swap_all (sle ta tb tc td : ptr) : M (ptr * ptr * ptr * ptr) :=
  ta <- swap_data Fa sle ta ;;
  tb <- swap_data Fb sle tb ;;
  tc <- swap_data Fc sle tc ;;
  td <- swap_data Fd sle td ;;
  ret (ta, tb, tc, td).

(** The level loop, with [count] levels left to run from [level]. *)
Fixpoint pcr_levels (count : nat) (level : Z) (sle ta tb tc td : ptr)
    : M (ptr * ptr * ptr * ptr) :=
  match count with
  | O => ret (ta, tb, tc, td)
  | S k =>
      update_step sle ta tb tc td level ;;;
      t <- swap_all sle ta tb tc td ;;
      let '(ta, tb, tc, td) := t in
      pcr_levels k (level + 1) sle ta tb tc td
  end.

(** [sle->x->data[i] = sle->d->data[i] / sle->b->data[i];] *)
Definition solve_row (sle : ptr) (i : Z) : M unit :=
  d_i <- sle_elem Fd sle i ;;
  b_i <- sle_elem Fb sle i ;;
  xs <- sle_data Fx sle ;;
  store_float xs i (fdiv d_i b_i).

(** [memcpy(f_data_tmp, sle->f->data, n * sizeof(float));] *)
Definition copy_back (f : field) (sle tmp : ptr) (n : Z) : M unit :=
  data <- sle_data f sle ;;
  memcpy_floats tmp data (to_size (n * sizeof_float)).

Definition total_levels_of (n : Z) : Z := size_ceil_log2 (f_of_size n).

Definition pcr (sle : ptr) : M Z :=
  if is_null sle then ret (-1)
  else
    n <- sle_n sle ;;
    if n =? 0 then ret 0
    else
      let total_levels := total_levels_of n in
      a_data_tmp <- malloc_floats (to_size (n * sizeof_float)) ;;
      b_data_tmp <- malloc_floats (to_size (n * sizeof_float)) ;;
      c_data_tmp <- malloc_floats (to_size (n * sizeof_float)) ;;
      d_data_tmp <- malloc_floats (to_size (n * sizeof_float)) ;;
      if is_null a_data_tmp || is_null b_data_tmp || is_null c_data_tmp
         || is_null d_data_tmp
      then
        free_floats a_data_tmp ;;;
        free_floats b_data_tmp ;;;
        free_floats c_data_tmp ;;;
        free_floats d_data_tmp ;;;
        ret (-1)
      else
        t <- pcr_levels (Z.to_nat total_levels) 0 sle
               a_data_tmp b_data_tmp c_data_tmp d_data_tmp ;;
        let '(ta, tb, tc, td) := t in
        for_range 0 n (solve_row sle) ;;;
        t <-
          (if negb (total_levels mod 2 =? 0) then
             copy_back Fa sle ta n ;;;
             copy_back Fb sle tb n ;;;
             copy_back Fc sle tc n ;;;
             copy_back Fd sle td n ;;;
             swap_all sle ta tb tc td
           else ret (ta, tb, tc, td)) ;;
        let '(ta, tb, tc, td) := t in
        free_floats ta ;;;
        free_floats tb ;;;
        free_floats tc ;;;
        free_floats td ;;;
        ret 0.

(** ** What the specification says, as functions on the coefficient lists *)

Definition in_rows (n j : Z) : bool := (0 <=? j) && (j <? n).

(** Virtual boundary convention: a neighbour outside [[0, n)] has main
    diagonal 1 and sub-diagonal, super-diagonal and right-hand side 0. *)
Definition main_at (b : list float) (n j : Z) : float :=
  if in_rows n j then idx b j else f_1.

Definition off_at (v : list float) (n j : Z) : float :=
  if in_rows n j then idx v j else f_0.

(** Division guard: [num / den], with 1e-30 for a divisor that is zero. *)
Definition guarded_div (num den : float) : float :=
  f_of_d (ddiv (d_of_f num) (if feqb den f_0 then EPSILON else d_of_f den)).

Record coeffs := Coeffs {
  co_a : list float; co_b : list float; co_c : list float; co_d : list float
}.

Definition alpha_at (k : coeffs) (n S i : Z) : float :=
  guarded_div (fneg (idx (co_a k) i)) (main_at (co_b k) n (i - S)).

Definition gamma_at (k : coeffs) (n S i : Z) : float :=
  guarded_div (fneg (idx (co_c k) i)) (main_at (co_b k) n (i + S)).

Definition next_a (k : coeffs) (n S i : Z) : float :=
  fmul (alpha_at k n S i) (off_at (co_a k) n (i - S)).

Definition next_c (k : coeffs) (n S i : Z) : float :=
  fmul (gamma_at k n S i) (off_at (co_c k) n (i + S)).

Definition next_b (k : coeffs) (n S i : Z) : float :=
  fadd (fadd (idx (co_b k) i) (fmul (alpha_at k n S i) (off_at (co_c k) n (i - S))))
       (fmul (gamma_at k n S i) (off_at (co_a k) n (i + S))).

Definition next_d (k : coeffs) (n S i : Z) : float :=
  fadd (fadd (idx (co_d k) i) (fmul (alpha_at k n S i) (off_at (co_d k) n (i - S))))
       (fmul (gamma_at k n S i) (off_at (co_d k) n (i + S))).

(** One reduction level at stride [S], all rows at once. *)
Definition reduce (k : coeffs) (n S : Z) : coeffs :=
  Coeffs (map (next_a k n S) (seqZ 0 n)) (map (next_b k n S) (seqZ 0 n))
         (map (next_c k n S) (seqZ 0 n)) (map (next_d k n S) (seqZ 0 n)).

(** [count] levels from [level] on, the stride doubling. *)
Fixpoint reduce_from (count : nat) (level : Z) (k : coeffs) (n : Z) : coeffs :=
  match count with
  | O => k
  | S c => reduce_from c (level + 1) (reduce k n (2 ^ level)) n
  end.

(** [x[i] = d[i] / b[i]] *)
Definition solution (k : coeffs) (n : Z) : list float :=
  map (fun i => fdiv (idx (co_d k) i) (idx (co_b k) i)) (seqZ 0 n).

Definition coeffs_of (V : sle_view) : coeffs :=
  Coeffs (vals Fa V) (vals Fb V) (vals Fc V) (vals Fd V).

(** The system [V] with its coefficient buffers holding [k] and its
    solution buffer holding [x]: same structs, same buffers. *)
Definition with_contents (V : sle_view) (k : coeffs) (x : list float) : sle_view :=
  SleView (with_vals (view_a V) (co_a k)) (with_vals (view_b V) (co_b k))
          (with_vals (view_c V) (co_c k)) (with_vals (view_d V) (co_d k))
          (with_vals (view_x V) x).

(** Residual of row [i]: [b0[i] x[i] + a0[i] x[i-1] (if i > 0)
    + c0[i] x[i+1] (if i < n-1)]. *)
Definition residual (a0 b0 c0 x : list float) (n i : Z) : float :=
  let r := fmul (idx b0 i) (idx x i) in
  let r := if 0 <? i then fadd r (fmul (idx a0 i) (idx x (i - 1))) else r in
  if i <? n - 1 then fadd r (fmul (idx c0 i) (idx x (i + 1))) else r.

Definition is_nan (r : float) : bool := negb (feqb r r).

Definition nonzero (d : float) : bool := negb (deqb (d_of_f d) d_0).

(** [|r - d| / |d|] *)
Definition rel_error (r d : float) : float :=
  f_of_d (ddiv (dabs (d_of_f (fsub r d))) (dabs (d_of_f d))).

Definition float_max (m v : float) : float := if fgtb v m then v else m.

(** Maximum relative error over the rows [rows], from the running maximum
    [m0]: the first NaN residual if there is one, else the maximum of the
    relative errors of the rows with [d0[i] <> 0]. *)
Definition maxrel_over (r : Z -> float) (d0 : list float) (rows : list Z)
    (m0 : float) : float :=
  match List.find (fun i => is_nan (r i)) rows with
  | Some i => r i
  | None =>
      fold_left float_max
        (map (fun i => rel_error (r i) (idx d0 i))
             (List.filter (fun i => nonzero (idx d0 i)) rows))
        m0
  end.

Definition spec_maxrel (a0 b0 c0 d0 x : list float) (n : Z) : float :=
  maxrel_over (residual a0 b0 c0 x n) d0 (seqZ 0 n) (f_of_d d_0).

(** [|r - d| / |d| * 100] *)
Definition percentage_error (r d : float) : float :=
  f_of_d (dmul (d_of_f (fdiv (f_abs (fsub r d)) (f_abs d))) d_100).

(** The contribution of one row to the accumulator. *)
Definition mape_add (acc r d : float) : float :=
  if nonzero d then fadd acc (percentage_error r d)
  else if nonzero r then f_of_d (dadd (d_of_f acc) d_1)
  else acc.

Definition mape_over (r : Z -> float) (d0 : list float) (rows : list Z)
    (acc : float) : float :=
  fold_left (fun acc i => mape_add acc (r i) (idx d0 i)) rows acc.

Definition spec_mape (a0 b0 c0 d0 x : list float) (n : Z) : float :=
  fdiv (mape_over (residual a0 b0 c0 x n) d0 (seqZ 0 n) (f_of_d d_0)) (f_of_size n).

(** The absolute value of a quotient is the quotient of the absolute
    values: the one law of the arithmetic the validators' specification
    relies on. *)
Definition abs_quotient_law : Prop :=
  forall u v : float, dabs (d_of_f (fdiv u v)) = d_of_f (fdiv (f_abs u) (f_abs v)).

(** ** Auxiliary definitions for the proofs and concrete systems *)

(** The effect of overwriting buffer [l] with [w] on a vector's view. *)
Definition poke (l : positive) (w : list float) (v : vec_view) : vec_view :=
  if decide (vv_buf v = l) then with_vals v w else v.

Definition view_map (g : vec_view -> vec_view) (V : sle_view) : sle_view :=
  SleView (g (view_a V)) (g (view_b V)) (g (view_c V)) (g (view_d V)) (g (view_x V)).

Definition empty_state (al : list malloc_result) : state := State ∅ ∅ ∅ al.

(** A system of [n] equations at address [p]: structs and buffers of the
    five vectors at [p], [p+1], ..., [p+4] of their heaps. *)
Definition install (p : positive) (n : Z) (a b c d x : list float) (s : state) : state :=
  State
    (<[p := TriSLE (Ptr p) (Ptr (p + 1)) (Ptr (p + 2)) (Ptr (p + 3)) (Ptr (p + 4))]>
       (sles s))
    (<[p := Diagonal n (Ptr p)]>
       (<[(p + 1)%positive := Diagonal n (Ptr (p + 1))]>
          (<[(p + 2)%positive := Diagonal n (Ptr (p + 2))]>
             (<[(p + 3)%positive := Diagonal n (Ptr (p + 3))]>
                (<[(p + 4)%positive := Diagonal n (Ptr (p + 4))]> (diags s))))))
    (<[p := a]>
       (<[(p + 1)%positive := b]>
          (<[(p + 2)%positive := c]>
             (<[(p + 3)%positive := d]>
                (<[(p + 4)%positive := x]> (floats s))))))
    (allocator s).

Definition with_floats (s : state) (fl : gmap positive (list float)) : state :=
  State (sles s) (diags s) fl (allocator s).

(** Four buffer addresses, one per coefficient array. *)
Record quad := Quad { qa : positive; qb : positive; qc : positive; qd : positive }.

Definition quad_list (q : quad) : list positive := [qa q; qb q; qc q; qd q].

Definition bufs4 (V : sle_view) : quad :=
  Quad (buf Fa V) (buf Fb V) (buf Fc V) (buf Fd V).

(** The buffers at [q] holding [k]. *)
Definition put4 (q : quad) (k : coeffs) (fl : gmap positive (list float))
    : gmap positive (list float) :=
  <[qa q := co_a k]> (<[qb q := co_b k]> (<[qc q := co_c k]> (<[qd q := co_d k]> fl))).

(** The [data] fields of the coefficient vectors of [V] pointing to [q]. *)
Definition point_to (V : sle_view) (q : quad) (dg : gmap positive diagonal_s)
    : gmap positive diagonal_s :=
  <[vv_diag (view_a V) := Diagonal (vv_n (view_a V)) (Ptr (qa q))]>
    (<[vv_diag (view_b V) := Diagonal (vv_n (view_b V)) (Ptr (qb q))]>
       (<[vv_diag (view_c V) := Diagonal (vv_n (view_c V)) (Ptr (qc q))]>
          (<[vv_diag (view_d V) := Diagonal (vv_n (view_d V)) (Ptr (qd q))]> dg))).

(** The state inside [pcr]: the system's vectors point to the buffers
    [cur], which hold [kc]; the other four buffers [scr] hold [ks]; the
    solution buffer holds [xs]. *)
Definition pcr_conf (s : state) (V : sle_view) (cur scr : quad) (kc ks : coeffs)
    (xs : list float) : state :=
  State (sles s) (point_to V cur (diags s))
        (<[buf Fx V := xs]> (put4 cur kc (put4 scr ks (floats s))))
        (allocator s).

Definition conf_view (V : sle_view) (cur : quad) (kc : coeffs) (xs : list float)
    : sle_view :=
  SleView (VecView (vv_diag (view_a V)) (vv_n (view_a V)) (qa cur) (co_a kc))
          (VecView (vv_diag (view_b V)) (vv_n (view_b V)) (qb cur) (co_b kc))
          (VecView (vv_diag (view_c V)) (vv_n (view_c V)) (qc cur) (co_c kc))
          (VecView (vv_diag (view_d V)) (vv_n (view_d V)) (qd cur) (co_d kc))
          (with_vals (view_x V) xs).

(** What [pcr_conf] needs: the system is live in [s], its structs are
    apart, and the nine buffers are apart. *)
Definition conf_ok (s : state) (sle : ptr) (V : sle_view) (cur scr : quad) : Prop :=
  read_sle s sle = Some V /\ NoDup (diags_of V) /\
  NoDup (buf Fx V :: quad_list cur ++ quad_list scr).

(** [v] after a loop wrote [g i] at [i] for [count] indices from [i0]. *)
Definition splice (g : Z -> float) (i0 : Z) (count : nat) (v : list float)
    : list float :=
  take (Z.to_nat i0) v ++ map g (seqZ i0 (Z.of_nat count))
    ++ drop (Z.to_nat i0 + count) v.

(** Four coefficient lists of [n] values each. *)
Definition lens (n : Z) (w : coeffs) : Prop :=
  len (co_a w) = n /\ len (co_b w) = n /\ len (co_c w) = n /\ len (co_d w) = n.

(** The level loop on buffer roles and contents. *)
Fixpoint levels_abs (count : nat) (level n : Z) (cur scr : quad) (kc ks : coeffs)
    : quad * quad * coeffs * coeffs :=
  match count with
  | O => (cur, scr, kc, ks)
  | S c => levels_abs c (level + 1) n scr cur (reduce kc n (2 ^ level)) kc
  end.

End Model.

Arguments Ok {float A} a s.
Arguments Fault {float A}.

Notation "x <- c1 ;; c2" := (bind c1 (fun x => c2))
  (at level 100, c1 at next level, right associativity).
Notation "c1 ;;; c2" := (bind c1 (fun _ => c2))
  (at level 100, right associativity).

(** ** IEEE-754 arithmetic: [float] is binary32, [double] is binary64 *)

Module IEEE.

Definition round_to (prec emax : Z) (x : spec_float) : spec_float :=
  match x with
  | S754_finite s m e => binary_round prec emax s m e
  | _ => x
  end.

(** Conversion of an integer, to nearest, ties to even. *)
Definition f32_of_Z (z : Z) : spec_float := binary_normalize 24 128 z 0 false.

(** [ceil(log2(x))] for [x >= 1], the arguments [pcr] passes: a binary32
    value is converted to [double] without error, [log2] is exact at the
    powers of two and lies strictly between consecutive integers
    elsewhere. *)
Definition ceil_log2 (x : spec_float) : Z :=
  match x with
  | S754_finite false m e => Z.log2_up (Zpos m) + e
  | _ => 0
  end.

(** The binary64 number nearest to 1e-30. *)
Definition epsilon64 : spec_float := S754_finite false 5708990770823840 (-152).

Definition binary32 : CArith spec_float spec_float := {|
  f_of_d := round_to 24 128;
  d_of_f := round_to 53 1024;
  f_of_size := f32_of_Z;
  size_ceil_log2 := ceil_log2;
  f_0 := S754_zero false;
  f_1 := f32_of_Z 1;
  d_0 := S754_zero false;
  d_1 := binary_normalize 53 1024 1 0 false;
  d_100 := binary_normalize 53 1024 100 0 false;
  EPSILON := epsilon64;
  fneg := SFopp;
  fadd := SFadd 24 128;
  fsub := SFsub 24 128;
  fmul := SFmul 24 128;
  fdiv := SFdiv 24 128;
  f_abs := SFabs;
  dadd := SFadd 53 1024;
  dmul := SFmul 53 1024;
  ddiv := SFdiv 53 1024;
  dabs := SFabs;
  feqb := SFeqb;
  fgtb := fun x y => SFltb y x;
  deqb := SFeqb
|}.

(** *** The numbers behind the data *)

Definition is_zero (x : spec_float) : bool :=
  match x with S754_zero _ => true | _ => false end.








(** [mrs], a mantissa with its round and sticky bits, locates the rational
    [num / den]: the mantissa is its integer part and the two bits tell
    whether the rest is 0, below 1/2, 1/2, or above 1/2. *)
Definition located (mrs : shr_record) (num den : Z) : Prop :=
  0 < den /\ 0 <= shr_m mrs /\
  match shr_r mrs, shr_s mrs with
  | false, false => num = shr_m mrs * den
  | false, true => shr_m mrs * den < num /\ 2 * num < (2 * shr_m mrs + 1) * den
  | true, false => 2 * num = (2 * shr_m mrs + 1) * den
  | true, true => (2 * shr_m mrs + 1) * den < 2 * num /\ num < (shr_m mrs + 1) * den
  end.

End IEEE.

(** ** Concrete systems *)

Module Examples.
Import IEEE.

Definition fl (z : Z) : spec_float := f32_of_Z z.

Definition junk0 : nat -> spec_float := fun _ => S754_zero false.

(** [4 x0 + x1 = 6], [x0 + 4 x1 = 9]: the solution is [x0 = 1], [x1 = 2]. *)
Definition system2 : @state spec_float -> @state spec_float :=
  install 1 2 [fl 0; fl 1] [fl 4; fl 4] [fl 1; fl 0] [fl 6; fl 9] [fl 0; fl 0].

Definition view2 : @sle_view spec_float :=
  SleView (VecView 1 2 1 [fl 0; fl 1]) (VecView 2 2 2 [fl 4; fl 4])
          (VecView 3 2 3 [fl 1; fl 0]) (VecView 4 2 4 [fl 6; fl 9])
          (VecView 5 2 5 [fl 0; fl 0]).

(** [4 x0 = 8]; [a[0]] and [c[0]] are the unused entries. *)
Definition system1 : @state spec_float -> @state spec_float :=
  install 11 1 [fl 7] [fl 4] [fl 5] [fl 8] [fl 0].

Definition view1 : @sle_view spec_float :=
  SleView (VecView 11 1 11 [fl 7]) (VecView 12 1 12 [fl 4])
          (VecView 13 1 13 [fl 5]) (VecView 14 1 14 [fl 8])
          (VecView 15 1 15 [fl 0]).

(** No equation. *)
Definition system0 : @state spec_float -> @state spec_float :=
  install 31 0 [] [] [] [] [].

Definition view0 : @sle_view spec_float :=
  SleView (VecView 31 0 31 []) (VecView 32 0 32 []) (VecView 33 0 33 [])
          (VecView 34 0 34 []) (VecView 35 0 35 []).

(** The three systems, at 1, 11 and 31, and an allocator script. *)
Definition world (al : list (@malloc_result spec_float)) : @state spec_float :=
  system2 (system1 (system0 (empty_state al))).

Definition four_ok : list (@malloc_result spec_float) :=
  [Some junk0; Some junk0; Some junk0; Some junk0].

(** Four scratch buffers of two values next to the systems. *)
Definition step_scratch : quad := Quad 21 22 23 24.

Definition step_state : @state spec_float :=
  set_floats (put4 step_scratch
                (Coeffs [fl 0; fl 0] [fl 0; fl 0] [fl 0; fl 0] [fl 0; fl 0]))
             (world []).

(** [2 x0 = 6], [4 x1 = 12] in binary32: decoupled, [d = 3 b]. *)
Definition decoupled32 : @state spec_float :=
  install 1 2 [fl 0; fl 0] [fl 2; fl 4] [fl 0; fl 0] [fl 6; fl 12] [fl 0; fl 0]
    (empty_state four_ok).

(** 0.1f, the binary32 number nearest to 1/10. *)
Definition tenth : spec_float := S754_finite false 13421773 (-27).

(** [13 x0 = 0.1f * 13], [2 x1 = 0.1f * 2], [3 x2 = 0.1f * 3] in binary32:
    decoupled, with [d = k b] rounded (the middle product is exact), and a
    negative zero in [a]. *)
Definition decoupled_tenth : @state spec_float :=
  install 1 3 [fl 0; S754_zero true; fl 0] [fl 13; fl 2; fl 3] [fl 0; fl 0; fl 0]
    [SFmul 24 128 tenth (fl 13); SFmul 24 128 tenth (fl 2); SFmul 24 128 tenth (fl 3)]
    [fl 0; fl 0; fl 0]
    (empty_state four_ok).


End Examples.

(** ** Creation and destruction: [diagonal_create], [triSLE_destroy],
    [triSLE_create]

    [calloc] answers like [malloc], from the allocator's script, and hands
    out zeroed memory: a struct of null pointers and a zero length, a buffer
    of [0.0f].  An out-parameter ([diagonal_t **diag], [triSLE_t **soe]) is
    returned beside the status: [Some p] when the function stores [p]
    through it, [None] when it leaves it alone. *)

Section Lifecycle.
Context {float double : Type} {AR : CArith float double}.

Definition set_sles (f : gmap positive triSLE_s -> gmap positive triSLE_s)
    (s : @state float) : @state float :=
  State (f (sles s)) (diags s) (floats s) (allocator s).

(** [(triSLE_t * )calloc(1, sizeof(triSLE_t))] *)
Definition calloc_sle : @M float ptr := fun s =>
  match allocator s with
  | [] => Ok NULL s
  | None :: rest => Ok NULL (set_allocator rest s)
  | Some _ :: rest =>
      let l := fresh_addr (sles s) in
      Ok (Ptr l)
         (set_allocator rest
            (set_sles (insert l (TriSLE NULL NULL NULL NULL NULL)) s))
  end.

(** [(diagonal_t * )calloc(1, sizeof(diagonal_t))] *)
Definition calloc_diag : @M float ptr := fun s =>
  match allocator s with
  | [] => Ok NULL s
  | None :: rest => Ok NULL (set_allocator rest s)
  | Some _ :: rest =>
      let l := fresh_addr (diags s) in
      Ok (Ptr l) (set_allocator rest (set_diags (insert l (Diagonal 0 NULL)) s))
  end.

(** [(float * )calloc(nmemb, size)] with [size = sizeof(float)]: a request
    whose byte count does not fit a [size_t] fails without asking the
    allocator. *)
Definition calloc_floats (nmemb size : Z) : @M float ptr := fun s =>
  if 2 ^ 64 <=? nmemb * size then Ok NULL s
  else
    match allocator s with
    | [] => Ok NULL s
    | None :: rest => Ok NULL (set_allocator rest s)
    | Some _ :: rest =>
        let l := fresh_addr (floats s) in
        Ok (Ptr l)
           (set_allocator rest
              (set_floats (insert l (replicate (Z.to_nat nmemb) f_0)) s))
    end.

(** [p->n = n] *)
Definition set_diag_n (p : ptr) (n : Z) : @M float unit := fun s =>
  match p with
  | NULL => Fault
  | Ptr l =>
      match diags s !! l with
      | Some r => Ok tt (set_diags (insert l (Diagonal n (dg_data r))) s)
      | None => Fault
      end
  end.

Definition put_field (f : field) (r : triSLE_s) (q : ptr) : triSLE_s :=
  match f with
  | Fa => TriSLE q (sle_b r) (sle_c r) (sle_d r) (sle_x r)
  | Fb => TriSLE (sle_a r) q (sle_c r) (sle_d r) (sle_x r)
  | Fc => TriSLE (sle_a r) (sle_b r) q (sle_d r) (sle_x r)
  | Fd => TriSLE (sle_a r) (sle_b r) (sle_c r) q (sle_x r)
  | Fx => TriSLE (sle_a r) (sle_b r) (sle_c r) (sle_d r) q
  end.

(** [p->f = q] for [triSLE_t *p] *)
Definition set_sle_field (f : field) (p q : ptr) : @M float unit := fun s =>
  match p with
  | NULL => Fault
  | Ptr l =>
      match sles s !! l with
      | Some r => Ok tt (set_sles (insert l (put_field f r q)) s)
      | None => Fault
      end
  end.

(** [free(p)] for a [triSLE_t *p] *)
Definition free_sle (p : ptr) : @M float unit := fun s =>
  match p with
  | NULL => Ok tt s
  | Ptr l =>
      match sles s !! l with
      | Some _ => Ok tt (set_sles (delete l) s)
      | None => Fault
      end
  end.

(** *** diagonal.c *)

(** The [error:] label of [diagonal_create]:
    [FREE_IF_NOT_NULL(d->data); FREE_IF_NOT_NULL(d); return -1;] *)
Definition diagonal_create_error (d : ptr) : @M float (Z * option ptr) :=
  data <- diag_data d ;;
  (if is_null data then ret tt
   else (free_floats data ;;; set_diag_data d NULL)) ;;;
  (if is_null d then ret tt else free_diag d) ;;;
  ret (-1, None).

(** [int diagonal_create(diagonal_t **diag, int n)] *)
Definition diagonal_create (n : Z) : @M float (Z * option ptr) :=
  d <- calloc_diag ;;
  if is_null d then diagonal_create_error d
  else
    set_diag_n d (to_size n) ;;;
    data <- calloc_floats (to_size n) sizeof_float ;;
    set_diag_data d data ;;;
    data <- diag_data d ;;
    if is_null data then diagonal_create_error d
    else ret (0, Some d).

(** *** sle.c *)

(** [int triSLE_destroy(triSLE_t *soe)]; the values of the five
    [diagonal_destroy] calls are dropped. *)
Definition triSLE_destroy (soe : ptr) : @M float Z :=
  if is_null soe then ret (-1)
  else
    a <- sle_field Fa soe ;; diagonal_destroy a ;;;
    b <- sle_field Fb soe ;; diagonal_destroy b ;;;
    c <- sle_field Fc soe ;; diagonal_destroy c ;;;
    d <- sle_field Fd soe ;; diagonal_destroy d ;;;
    x <- sle_field Fx soe ;; diagonal_destroy x ;;;
    (if is_null soe then ret tt else free_sle soe) ;;;
    ret 0.

(** [diagonal_create(&p->f, n)] *)
Definition create_field (f : field) (p : ptr) (n : Z) : @M float Z :=
  r <- diagonal_create n ;;
  match snd r with
  | Some d => set_sle_field f p d
  | None => ret tt
  end ;;;
  ret (fst r).

(** [int triSLE_create(triSLE_t **soe, int n)]; [||] stops at the first
    [diagonal_create] that fails. *)
Definition triSLE_create (n : Z) : @M float (Z * option ptr) :=
  p <- calloc_sle ;;
  if is_null p then ret (-1, None)
  else
    failed <-
      (ra <- create_field Fa p n ;;
       if negb (ra =? 0) then ret true else
       rb <- create_field Fb p n ;;
       if negb (rb =? 0) then ret true else
       rc <- create_field Fc p n ;;
       if negb (rc =? 0) then ret true else
       rd <- create_field Fd p n ;;
       if negb (rd =? 0) then ret true else
       rx <- create_field Fx p n ;;
       ret (negb (rx =? 0))) ;;
    if failed then triSLE_destroy p ;;; ret (-1, None)
    else ret (0, Some p).

(** *** main.c

    [main] from the verification copy on (lines 48 to 78), for the
    [system] of [n] equations it has created and filled.  [func] is [pcr]
    ([PCR_MAIN]); the two numbers [main] prints are returned beside its
    exit status, the solve time it prints is not modelled. *)
Definition main_solve_and_validate (system : ptr) (n : Z)
    : @M float (Z * option (float * float)) :=
  r <- triSLE_create n ;;
  let system_copy := match snd r with Some p => p | None => NULL end in
  if negb (fst r =? 0) then
    triSLE_destroy system ;;; ret (-1, None)
  else
    rc <- triSLE_copy system_copy system ;;
    if negb (rc =? 0) then
      triSLE_destroy system ;;; triSLE_destroy system_copy ;;; ret (-1, None)
    else
      rp <- pcr system ;;
      if negb (rp =? 0) then
        triSLE_destroy system ;;; triSLE_destroy system_copy ;;; ret (-1, None)
      else
        maxrel <- triSLE_validate_maxrel system system_copy ;;
        mape <- triSLE_validate_mape system system_copy ;;
        triSLE_destroy system ;;;
        triSLE_destroy system_copy ;;;
        ret (0, Some (maxrel, mape)).

End Lifecycle.

(** *** Auxiliary definitions for the proofs about creation and destruction *)

Section LifecycleStates.
Context {float : Type}.

(** Memory without the struct and the buffer of a vector. *)
Definition without_vec (v : @vec_view float) (s : @state float) : @state float :=
  set_diags (delete (vv_diag v)) (set_floats (delete (vv_buf v)) s).

(** Memory without a system: its struct at [l] and its five vectors. *)
Definition without_sle (l : positive) (V : @sle_view float) (s : @state float)
    : @state float :=
  set_sles (delete l)
    (without_vec (view_x V)
       (without_vec (view_d V)
          (without_vec (view_c V)
             (without_vec (view_b V)
                (without_vec (view_a V) s))))).

End LifecycleStates.

Section CreatedStates.
Context {float double : Type} {AR : CArith float double}.

(** Memory with the struct and the buffer of the vector [v] put in. *)
Definition place_vec (v : @vec_view float) (s : @state float) : @state float :=
  set_floats (insert (vv_buf v) (vv_vals v))
    (set_diags (insert (vv_diag v) (Diagonal (vv_n v) (Ptr (vv_buf v)))) s).

Definition handles (V : @sle_view float) : triSLE_s :=
  TriSLE (Ptr (vv_diag (view_a V))) (Ptr (vv_diag (view_b V)))
         (Ptr (vv_diag (view_c V))) (Ptr (vv_diag (view_d V)))
         (Ptr (vv_diag (view_x V))).

(** Memory with the system [V] put in at [l]. *)
Definition place_sle (l : positive) (V : @sle_view float) (s : @state float)
    : @state float :=
  set_sles (insert l (handles V))
    (place_vec (view_x V)
       (place_vec (view_d V)
          (place_vec (view_c V)
             (place_vec (view_b V)
                (place_vec (view_a V) s))))).

(** Nothing of the system [V] at [l] is in use in [s]. *)
Definition unused (l : positive) (V : @sle_view float) (s : @state float) : Prop :=
  sles s !! l = None /\
  (forall d, d ∈ diags_of V -> diags s !! d = None) /\
  (forall b, b ∈ bufs_of V -> floats s !! b = None).

(** [n] values [0.0f]. *)
Definition zeros (n : Z) : list float := replicate (Z.to_nat n) f_0.

(** Five vectors of length field [n] holding [n] zeros each. *)
Definition zeroed (n : Z) (V : @sle_view float) : Prop :=
  forall f, vv_n (view_of f V) = n /\ vals f V = zeros n.

(** Two pairs of systems that agree on what the residuals read. *)
Definition same_inputs (n : Z) (Vr Vi Vr' Vi' : @sle_view float) : Prop :=
  forall i, 0 <= i < n ->
    idx (vals Fx Vr') i = idx (vals Fx Vr) i /\
    idx (vals Fb Vi') i = idx (vals Fb Vi) i /\
    idx (vals Fd Vi') i = idx (vals Fd Vi) i /\
    (0 < i -> idx (vals Fa Vi') i = idx (vals Fa Vi) i) /\
    (i < n - 1 -> idx (vals Fc Vi') i = idx (vals Fc Vi) i).

End CreatedStates.

(** ** More concrete systems *)

Module Cases.
Import IEEE Examples.

(** Allocator scripts that grant everything [triSLE_create] (eleven
    requests) and the second half of [main] (fifteen) ask for. *)
Definition eleven_ok : list (@malloc_result spec_float) := replicate 11 (Some junk0).
Definition fifteen_ok : list (@malloc_result spec_float) := replicate 15 (Some junk0).

(** [system2] with other values in the two unused entries [a[0]] and
    [c[1]], and another [x] in the initial system. *)
Definition variant2 : @state spec_float :=
  install 1 2 [fl 5; fl 1] [fl 4; fl 4] [fl 1; fl 9] [fl 6; fl 9] [fl 0; fl 0]
    (empty_state []).

Definition variant_view2 : @sle_view spec_float :=
  SleView (VecView 1 2 1 [fl 5; fl 1]) (VecView 2 2 2 [fl 4; fl 4])
          (VecView 3 2 3 [fl 1; fl 9]) (VecView 4 2 4 [fl 6; fl 9])
          (VecView 5 2 5 [fl 0; fl 0]).

(** A system struct whose vectors were never created. *)
Definition partial_state : @state spec_float :=
  State (<[7%positive := TriSLE NULL NULL NULL NULL NULL]> ∅) ∅ ∅ [].

End Cases.

(** * Proofs *)

Lemma to_int_small z : - 2 ^ 31 <= z <= INT_MAX -> to_int z = z.
Proof.
  unfold to_int, INT_MAX. intros Hz.
  rewrite Z.mod_small by lia. lia.
Qed.

Lemma to_size_small z : 0 <= z < 2 ^ 64 -> to_size z = z.
Proof. unfold to_size. intros Hz. now rewrite Z.mod_small. Qed.

Lemma fresh_addr_bound {X} (m : gmap positive X) k v :
  m !! k = Some v -> (k < fresh_addr m)%positive.
Proof.
  unfold fresh_addr. revert k v.
  induction m as [|i y m Hi Hfold IH] using map_first_key_ind; intros k v Hk.
  - rewrite lookup_empty in Hk. discriminate.
  - rewrite map_fold_insert_first_key by assumption.
    destruct (decide (i = k)) as [->|Hne].
    + lia.
    + rewrite lookup_insert_ne in Hk by assumption.
      specialize (IH k v Hk). lia.
Qed.

Lemma fresh_addr_fresh {X} (m : gmap positive X) : m !! fresh_addr m = None.
Proof.
  destruct (m !! fresh_addr m) as [v|] eqn:E; [|reflexivity].
  apply fresh_addr_bound in E. lia.
Qed.

Section Access.
Context {float double : Type} {AR : CArith float double}.
#[local] Abbreviation state := (@state float).
#[local] Abbreviation sle_view := (@sle_view float).
#[local] Abbreviation vec_view := (@vec_view float).
#[local] Abbreviation M := (@M float).
Implicit Types (s : state) (V : sle_view).

Lemma bind_ok {A B} (m : M A) (k : A -> M B) s a s' :
  m s = Ok a s' -> bind m k s = k a s'.
Proof. unfold bind. now intros ->. Qed.

Lemma read_vec_Some s p (v : vec_view) :
  read_vec s p = Some v ->
  p = Ptr (vv_diag v) /\
  diags s !! vv_diag v = Some (Diagonal (vv_n v) (Ptr (vv_buf v))) /\
  floats s !! vv_buf v = Some (vv_vals v).
Proof.
  destruct p as [|l]; simpl; [discriminate|].
  destruct (diags s !! l) as [[n [|b]]|] eqn:Ed; try discriminate.
  destruct (floats s !! b) as [w|] eqn:Ef; try discriminate.
  intros [= <-]. simpl. auto.
Qed.

Lemma read_sle_Some s p V :
  read_sle s p = Some V ->
  exists l r, p = Ptr l /\ sles s !! l = Some r /\
              forall f, read_vec s (get_field f r) = Some (view_of f V).
Proof.
  destruct p as [|l]; simpl; [discriminate|].
  destruct (sles s !! l) as [r|] eqn:Er; [|discriminate].
  destruct (read_vec s (sle_a r)) as [a|] eqn:Ea; [|discriminate].
  destruct (read_vec s (sle_b r)) as [b|] eqn:Eb; [|discriminate].
  destruct (read_vec s (sle_c r)) as [c|] eqn:Ec; [|discriminate].
  destruct (read_vec s (sle_d r)) as [d|] eqn:Edd; [|discriminate].
  destruct (read_vec s (sle_x r)) as [x|] eqn:Ex; [|discriminate].
  intros [= <-]. exists l, r. split; [reflexivity|]. split; [assumption|].
  intros []; assumption.
Qed.

Lemma read_sle_not_null s p V : read_sle s p = Some V -> is_null p = false.
Proof. destruct p; [discriminate | reflexivity]. Qed.

Lemma sle_field_ok s p V f :
  read_sle s p = Some V -> sle_field f p s = Ok (Ptr (vv_diag (view_of f V))) s.
Proof.
  intros (l & r & -> & Hr & Hf)%read_sle_Some.
  destruct (read_vec_Some _ _ _ (Hf f)) as (Hp & _).
  unfold sle_field. now rewrite Hr, Hp.
Qed.

Lemma read_sle_diag s p V f :
  read_sle s p = Some V ->
  diags s !! vv_diag (view_of f V)
    = Some (Diagonal (vv_n (view_of f V)) (Ptr (buf f V))).
Proof.
  intros (l & r & -> & Hr & Hf)%read_sle_Some.
  now destruct (read_vec_Some _ _ _ (Hf f)) as (_ & Hd & _).
Qed.

Lemma read_sle_buf s p V f :
  read_sle s p = Some V -> floats s !! buf f V = Some (vals f V).
Proof.
  intros (l & r & -> & Hr & Hf)%read_sle_Some.
  now destruct (read_vec_Some _ _ _ (Hf f)) as (_ & _ & Hb).
Qed.

Lemma sle_data_ok s p V f :
  read_sle s p = Some V -> sle_data f p s = Ok (Ptr (buf f V)) s.
Proof.
  intros HV. unfold sle_data.
  rewrite (bind_ok _ _ _ _ _ (sle_field_ok _ _ _ f HV)).
  unfold diag_data. now rewrite (read_sle_diag _ _ _ f HV).
Qed.

Lemma sle_n_ok s p V :
  read_sle s p = Some V -> sle_n p s = Ok (vv_n (view_b V)) s.
Proof.
  intros HV. unfold sle_n.
  rewrite (bind_ok _ _ _ _ _ (sle_field_ok _ _ _ Fb HV)).
  unfold diag_n. now rewrite (read_sle_diag _ _ _ Fb HV).
Qed.

Lemma lookup_idx (v : list float) i :
  0 <= i < len v -> v !! Z.to_nat i = Some (idx v i).
Proof.
  unfold len, idx. intros Hi.
  destruct (v !! Z.to_nat i) as [y|] eqn:E.
  - f_equal. symmetry. now apply nth_lookup_Some with (d := f_0) in E.
  - apply lookup_ge_None in E. lia.
Qed.

Lemma in_bounds_true (v : list float) i : 0 <= i < len v -> in_bounds v i = true.
Proof.
  unfold in_bounds, len. intros Hi.
  apply andb_true_iff. split; [apply Z.leb_le | apply Z.ltb_lt]; lia.
Qed.

Lemma load_float_ok s l v i :
  floats s !! l = Some v -> 0 <= i < len v ->
  load_float (Ptr l) i s = Ok (idx v i) s.
Proof.
  intros Hl Hi. unfold load_float.
  now rewrite Hl, (lookup_idx _ _ Hi), (in_bounds_true _ _ Hi).
Qed.

Lemma store_float_ok s l v i y :
  floats s !! l = Some v -> 0 <= i < len v ->
  store_float (Ptr l) i y s = Ok tt (set_floats (insert l (<[Z.to_nat i := y]> v)) s).
Proof.
  intros Hl Hi. unfold store_float.
  now rewrite Hl, (in_bounds_true _ _ Hi).
Qed.

Lemma sle_elem_ok s p V f i :
  read_sle s p = Some V -> 0 <= i < len (vals f V) ->
  sle_elem f p i s = Ok (idx (vals f V) i) s.
Proof.
  intros HV Hi. unfold sle_elem.
  rewrite (bind_ok _ _ _ _ _ (sle_data_ok _ _ _ f HV)).
  apply load_float_ok; [apply (read_sle_buf _ _ _ f HV) | assumption].
Qed.

Lemma read_vec_poke s p (v : vec_view) l w :
  read_vec s p = Some v ->
  read_vec (set_floats (insert l w) s) p = Some (poke l w v).
Proof.
  destruct p as [|q]; simpl; [discriminate|].
  destruct (diags s !! q) as [[n [|b]]|] eqn:Ed; try discriminate.
  destruct (floats s !! b) as [u|] eqn:Ef; try discriminate.
  intros [= <-]. unfold poke. simpl.
  rewrite lookup_insert. destruct (decide (b = l)) as [->|Hne].
  - rewrite decide_True by reflexivity. reflexivity.
  - rewrite decide_False by congruence. now rewrite Ef.
Qed.

Lemma read_sle_poke s p V l w :
  read_sle s p = Some V ->
  read_sle (set_floats (insert l w) s) p = Some (view_map (poke l w) V).
Proof.
  intros (q & r & -> & Hr & Hf)%read_sle_Some.
  unfold read_sle. change (sles (set_floats (insert l w) s)) with (sles s).
  rewrite Hr.
  pose proof (read_vec_poke _ _ _ l w (Hf Fa)) as Ha.
  pose proof (read_vec_poke _ _ _ l w (Hf Fb)) as Hb.
  pose proof (read_vec_poke _ _ _ l w (Hf Fc)) as Hc.
  pose proof (read_vec_poke _ _ _ l w (Hf Fd)) as Hd.
  pose proof (read_vec_poke _ _ _ l w (Hf Fx)) as Hx.
  cbn [get_field view_of] in Ha, Hb, Hc, Hd, Hx.
  rewrite Ha, Hb, Hc, Hd, Hx. reflexivity.
Qed.

Lemma poke_other l w (v : vec_view) : vv_buf v <> l -> poke l w v = v.
Proof. intros Hne. unfold poke. now rewrite decide_False. Qed.

Lemma poke_same w (v : vec_view) : poke (vv_buf v) w v = with_vals v w.
Proof. unfold poke. now rewrite decide_True. Qed.

End Access.

(** ** diagonal.c *)

Section DiagonalProofs.
Context {float double : Type} {AR : CArith float double}.
#[local] Abbreviation state := (@state float).
#[local] Abbreviation sle_view := (@sle_view float).
#[local] Abbreviation vec_view := (@vec_view float).
#[local] Abbreviation M := (@M float).
Implicit Types (s : state) (V : sle_view).

(** C2. On a null handle [diagonal_destroy] is undefined, not a no-op:
    [diag->data] is read before [diag] is compared with [NULL]. *)
Theorem diagonal_destroy_null_undefined (s : state) :
  diagonal_destroy NULL s = Fault.
Proof. reflexivity. Qed.

(** On a live vector [diagonal_destroy] releases the buffer and the struct. *)
Lemma diagonal_destroy_live s p (v : vec_view) :
  read_vec s p = Some v ->
  diagonal_destroy p s
    = Ok 0 (set_diags (delete (vv_diag v)) (set_floats (delete (vv_buf v)) s)).
Proof.
  intros (-> & Hd & Hb)%read_vec_Some.
  unfold diagonal_destroy, bind, diag_data. rewrite Hd. cbn [dg_data is_null].
  unfold free_floats. rewrite Hb.
  unfold set_diag_data. cbn [set_floats diags]. rewrite Hd.
  unfold free_diag. cbn [set_diags set_floats diags]. rewrite lookup_insert_eq.
  unfold ret, set_diags, set_floats. cbn. now rewrite delete_insert_eq.
Qed.

(** A handle that was destroyed is dangling: a second call is undefined. *)
Lemma diagonal_destroy_twice_undefined s p (v : vec_view) s' :
  read_vec s p = Some v ->
  diagonal_destroy p s = Ok 0 s' -> diagonal_destroy p s' = Fault.
Proof.
  intros Hv. rewrite (diagonal_destroy_live _ _ _ Hv). intros [= <-].
  apply read_vec_Some in Hv as (-> & _ & _).
  unfold diagonal_destroy, bind, diag_data. cbn [set_diags set_floats diags].
  now rewrite lookup_delete_eq.
Qed.

End DiagonalProofs.

(** ** sle.c: copy *)

(** All consequences of a [NoDup] hypothesis on an explicit list. *)
Ltac nodup_facts H :=
  repeat (apply NoDup_cons in H as [? H]);
  repeat match goal with
         | N : _ ∉ _ :: _ |- _ => apply not_elem_of_cons in N as [? N]
         | N : _ ∉ [] |- _ => clear N
         end.

Ltac decide_in H :=
  repeat match type of H with
         | context [decide (?x = ?x)] =>
             rewrite (decide_True (P := x = x)) in H by reflexivity
         | context [decide (?x = ?y)] =>
             rewrite (decide_False (P := x = y)) in H by congruence
         end.

(** Normalise the view of a system after a buffer was overwritten. *)
Ltac settle_view H :=
  unfold view_map, poke, with_vals, buf, vals in H;
  cbn [view_of view_a view_b view_c view_d view_x vv_buf vv_vals vv_n vv_diag] in H;
  decide_in H.

Section CopyProofs.
Context {float double : Type} {AR : CArith float double}.
#[local] Abbreviation state := (@state float).
#[local] Abbreviation sle_view := (@sle_view float).
#[local] Abbreviation vec_view := (@vec_view float).
#[local] Abbreviation M := (@M float).
Implicit Types (s : state) (V : sle_view).

Lemma memcpy_floats_ok s ld ls vd vs n :
  floats s !! ld = Some vd -> floats s !! ls = Some vs -> ld <> ls ->
  0 <= n < 2 ^ 62 -> n <= len vs -> n <= len vd ->
  memcpy_floats (Ptr ld) (Ptr ls) (to_size (n * sizeof_float)) s
    = Ok tt (set_floats (insert ld (take (Z.to_nat n) vs ++ drop (Z.to_nat n) vd)) s).
Proof.
  intros Hd Hs Hne Hn Hvs Hvd. unfold memcpy_floats. rewrite Hd, Hs.
  rewrite to_size_small by (unfold sizeof_float; lia).
  unfold sizeof_float. rewrite Z.div_mul by lia.
  rewrite bool_decide_true by assumption.
  unfold len in *.
  replace (Z.to_nat n <=? length vs)%nat with true
    by (symmetry; apply Nat.leb_le; lia).
  replace (Z.to_nat n <=? length vd)%nat with true
    by (symmetry; apply Nat.leb_le; lia).
  reflexivity.
Qed.

Lemma copy_field_ok s dest src Vd Vs f n :
  read_sle s dest = Some Vd -> read_sle s src = Some Vs ->
  vv_n (view_b Vs) = n -> 0 <= n < 2 ^ 62 ->
  n <= len (vals f Vs) -> n <= len (vals f Vd) -> buf f Vd <> buf f Vs ->
  copy_field f dest src s
    = Ok tt (set_floats
               (insert (buf f Vd)
                  (take (Z.to_nat n) (vals f Vs) ++ drop (Z.to_nat n) (vals f Vd))) s).
Proof.
  intros Hd Hs Hn Hr Hls Hld Hne. unfold copy_field.
  rewrite (bind_ok _ _ _ _ _ (sle_data_ok _ _ _ f Hd)).
  rewrite (bind_ok _ _ _ _ _ (sle_data_ok _ _ _ f Hs)).
  rewrite (bind_ok _ _ _ _ _ (sle_n_ok _ _ _ Hs)). rewrite Hn.
  apply memcpy_floats_ok; try assumption.
  - apply (read_sle_buf _ _ _ f Hd).
  - apply (read_sle_buf _ _ _ f Hs).
Qed.

(** Between two live systems whose source is not longer than the
    destination, [triSLE_copy] returns 0 and overwrites the first [n] values
    of the destination's [a], [b], [c], [d] ([n] the source's length). *)
Lemma triSLE_copy_prefix s dest src Vd Vs m n :
  read_sle s dest = Some Vd -> read_sle s src = Some Vs ->
  sized m Vd -> sized n Vs -> 0 <= n <= m -> m < 2 ^ 62 ->
  NoDup (bufs_of Vd ++ bufs_of Vs) ->
  exists s',
    triSLE_copy dest src s = Ok 0 s' /\
    read_sle s' src = Some Vs /\
    read_sle s' dest
      = Some (with_contents Vd
                (Coeffs (vals Fa Vs ++ drop (Z.to_nat n) (vals Fa Vd))
                        (vals Fb Vs ++ drop (Z.to_nat n) (vals Fb Vd))
                        (vals Fc Vs ++ drop (Z.to_nat n) (vals Fc Vd))
                        (vals Fd Vs ++ drop (Z.to_nat n) (vals Fd Vd)))
                (vals Fx Vd)).
Proof.
  intros Hd Hs (_ & Hda & Hdb & Hdc & Hdd & Hdx) (Hn & Hsa & Hsb & Hsc & Hsd & Hsx)
    Hnm Hm Hnd.
  unfold triSLE_copy.
  rewrite (read_sle_not_null _ _ _ Hd), (read_sle_not_null _ _ _ Hs). cbn [orb].
  assert (Htake : forall v : list float, len v = n -> take (Z.to_nat n) v = v).
  { intros v Hv. apply take_ge. unfold len in Hv. lia. }
  destruct Vd as [[pa na la va] [pb nb lb vb] [pc nc lc vc] [pd nd ld vd] [px nx lx vx]].
  destruct Vs as [[qa ma ka wa] [qb mb kb wb] [qc mc kc wc] [qd md kd wd] [qx mx kx wx]].
  unfold bufs_of, buf, vals, with_contents, with_vals in *.
  cbn [view_of view_a view_b view_c view_d view_x vv_buf vv_vals vv_n vv_diag
       co_a co_b co_c co_d app] in *.
  nodup_facts Hnd.
  erewrite (bind_ok _ _ _ _ _ (copy_field_ok _ _ _ _ _ Fa n Hd Hs _ _ _ _ _)).
  apply (read_sle_poke _ _ _ la (take (Z.to_nat n) wa ++ drop (Z.to_nat n) va)) in Hd, Hs.
  settle_view Hd. settle_view Hs.
  erewrite (bind_ok _ _ _ _ _ (copy_field_ok _ _ _ _ _ Fb n Hd Hs _ _ _ _ _)).
  apply (read_sle_poke _ _ _ lb (take (Z.to_nat n) wb ++ drop (Z.to_nat n) vb)) in Hd, Hs.
  settle_view Hd. settle_view Hs.
  erewrite (bind_ok _ _ _ _ _ (copy_field_ok _ _ _ _ _ Fc n Hd Hs _ _ _ _ _)).
  apply (read_sle_poke _ _ _ lc (take (Z.to_nat n) wc ++ drop (Z.to_nat n) vc)) in Hd, Hs.
  settle_view Hd. settle_view Hs.
  erewrite (bind_ok _ _ _ _ _ (copy_field_ok _ _ _ _ _ Fd n Hd Hs _ _ _ _ _)).
  apply (read_sle_poke _ _ _ ld (take (Z.to_nat n) wd ++ drop (Z.to_nat n) vd)) in Hd, Hs.
  settle_view Hd. settle_view Hs.
  eexists. split; [reflexivity|].
  unfold buf, vals.
  cbn [view_of view_a view_b view_c view_d view_x vv_buf vv_vals vv_n vv_diag].
  rewrite (Htake wa Hsa), (Htake wb Hsb), (Htake wc Hsc), (Htake wd Hsd) in Hd, Hs |- *.
  split; assumption.
  Unshelve.
  all: unfold buf, vals; cbn [view_of view_a view_b view_c view_d view_x vv_buf vv_vals vv_n];
    try assumption; try congruence;
    clear - Hnm Hm Hda Hdb Hdc Hdd Hsa Hsb Hsc Hsd; lia.
Qed.

(** A null argument is the one error [triSLE_copy] reports. *)
Lemma triSLE_copy_null s dest src :
  dest = NULL \/ src = NULL -> triSLE_copy dest src s = Ok (-1) s.
Proof.
  intros [-> | ->]; unfold triSLE_copy; [reflexivity|].
  now destruct dest.
Qed.

Lemma triSLE_copy_status s dest src s' :
  triSLE_copy dest src s = Ok (-1) s' -> dest = NULL \/ src = NULL.
Proof.
  destruct dest as [|ld]; [now left|]. destruct src as [|ls]; [now right|].
  unfold triSLE_copy. cbn [is_null orb]. unfold bind at 1.
  destruct (copy_field Fa (Ptr ld) (Ptr ls) s) as [[] s1|]; [|discriminate].
  unfold bind at 1.
  destruct (copy_field Fb (Ptr ld) (Ptr ls) s1) as [[] s2|]; [|discriminate].
  unfold bind at 1.
  destruct (copy_field Fc (Ptr ld) (Ptr ls) s2) as [[] s3|]; [|discriminate].
  unfold bind at 1.
  destruct (copy_field Fd (Ptr ld) (Ptr ls) s3) as [[] s4|]; [|discriminate].
  unfold ret. discriminate.
Qed.

(** C1, as the code has it.  [triSLE_copy] compares no lengths.  It returns
    -1 exactly when [dest] or [src] is null, and then writes nothing.
    Between two live systems with ten distinct buffers whose source is not
    longer than the destination it returns 0 and overwrites the first [n]
    values of the destination's [a], [b], [c], [d] ([n] the source's
    length), leaving the rest of them and [x] as they were; the source is
    not changed. *)
Theorem triSLE_copy_checks_no_length s dest src :
  (dest = NULL \/ src = NULL -> triSLE_copy dest src s = Ok (-1) s) /\
  (forall s', triSLE_copy dest src s = Ok (-1) s' -> dest = NULL \/ src = NULL) /\
  (forall Vd Vs m n,
     read_sle s dest = Some Vd -> read_sle s src = Some Vs ->
     sized m Vd -> sized n Vs -> 0 <= n <= m -> m < 2 ^ 62 ->
     NoDup (bufs_of Vd ++ bufs_of Vs) ->
     exists s',
       triSLE_copy dest src s = Ok 0 s' /\
       read_sle s' src = Some Vs /\
       read_sle s' dest
       = Some (with_contents Vd
                 (Coeffs (vals Fa Vs ++ drop (Z.to_nat n) (vals Fa Vd))
                         (vals Fb Vs ++ drop (Z.to_nat n) (vals Fb Vd))
                         (vals Fc Vs ++ drop (Z.to_nat n) (vals Fc Vd))
                         (vals Fd Vs ++ drop (Z.to_nat n) (vals Fd Vd)))
                 (vals Fx Vd))).
Proof.
  split; [apply triSLE_copy_null|]. split; [apply triSLE_copy_status|].
  intros Vd Vs m n. apply triSLE_copy_prefix.
Qed.

End CopyProofs.

(** *** Copy between systems of different lengths *)

Section CopyExample.
Import IEEE Examples.
#[local] Existing Instance binary32.

(** C1 fails as stated: a destination of 2 equations and a source of 1 are
    both live and differ in length, and [triSLE_copy] returns 0, not -1,
    after overwriting [a[0]], [b[0]], [c[0]] and [d[0]] of the
    destination. *)
Lemma triSLE_copy_length_mismatch_not_rejected :
  read_sle (world []) (Ptr 1) = Some view2 /\
  read_sle (world []) (Ptr 11) = Some view1 /\
  sized 2 view2 /\ sized 1 view1 /\
  exists s',
    triSLE_copy (Ptr 1) (Ptr 11) (world []) = Ok 0 s' /\
    floats (world []) !! 1%positive = Some [fl 0; fl 1] /\
    floats s' !! 1%positive = Some [fl 7; fl 1] /\
    read_sle s' (Ptr 1) <> read_sle (world []) (Ptr 1).
Proof.
  split; [reflexivity|]. split; [reflexivity|].
  split; [repeat split|]. split; [repeat split|].
  eexists. split; [vm_compute; reflexivity|].
  split; [reflexivity|]. split; [reflexivity|].
  vm_compute. discriminate.
Qed.

Lemma triSLE_copy_checks_no_length_witness :
  triSLE_copy NULL (Ptr 11) (world []) = Ok (-1) (world []) /\
  (NULL = NULL \/ Ptr 11 = NULL) /\
  exists s',
    triSLE_copy (Ptr 1) (Ptr 11) (world []) = Ok 0 s' /\
    read_sle s' (Ptr 11) = Some view1 /\
    read_sle s' (Ptr 1)
      = Some (with_contents view2
                (Coeffs [fl 7; fl 1] [fl 4; fl 4] [fl 5; fl 0] [fl 8; fl 9])
                [fl 0; fl 0]).
Proof.
  split; [|split].
  - apply (proj1 (triSLE_copy_checks_no_length (world []) NULL (Ptr 11))).
    left. reflexivity.
  - apply (proj1 (proj2 (triSLE_copy_checks_no_length (world []) NULL (Ptr 11)))
             (world [])).
    reflexivity.
  - apply (proj2 (proj2 (triSLE_copy_checks_no_length (world []) (Ptr 1) (Ptr 11)))
             view2 view1 2 1).
    + reflexivity.
    + reflexivity.
    + repeat split.
    + repeat split.
    + lia.
    + lia.
    + apply (bool_decide_unpack _). vm_compute. exact I.
Defined.

End CopyExample.

(** ** pcr.c *)

Section ListFacts.
Context {float : Type}.
Implicit Types (v : list float) (g : Z -> float).

Lemma seqZ_S (i : Z) (k : nat) :
  seqZ i (Z.of_nat (S k)) = i :: seqZ (i + 1) (Z.of_nat k).
Proof.
  rewrite seqZ_cons by lia. f_equal. f_equal; lia.
Qed.

Lemma splice_nil g i0 v : splice g i0 0 v = v.
Proof.
  unfold splice. cbn [Z.of_nat seqZ]. change (seqZ i0 0) with (@nil Z).
  cbn [map app]. rewrite Nat.add_0_r. apply take_drop.
Qed.

Lemma splice_step g i0 k v :
  0 <= i0 -> (Z.to_nat i0 < length v)%nat ->
  splice g (i0 + 1) k (<[Z.to_nat i0 := g i0]> v) = splice g i0 (S k) v.
Proof.
  intros Hi Hlt. unfold splice.
  replace (Z.to_nat (i0 + 1)) with (S (Z.to_nat i0)) by lia.
  rewrite (take_S_r _ _ (g i0)) by (now apply list_lookup_insert_eq).
  rewrite take_insert_ge by lia.
  rewrite drop_insert_lt by lia.
  replace (S (Z.to_nat i0) + k)%nat with (Z.to_nat i0 + S k)%nat by lia.
  rewrite seqZ_S. cbn [map]. rewrite <- app_assoc. reflexivity.
Qed.

Lemma splice_all g (n : nat) v :
  length v = n -> splice g 0 n v = map g (seqZ 0 (Z.of_nat n)).
Proof.
  intros Hn. unfold splice. cbn [Z.to_nat take app].
  rewrite drop_ge by (cbn; lia). apply app_nil_r.
Qed.

Lemma length_splice g i0 k v :
  (Z.to_nat i0 + k <= length v)%nat -> length (splice g i0 k v) = length v.
Proof.
  intros Hle. unfold splice.
  rewrite !length_app, length_take, length_map, length_seqZ, length_drop. lia.
Qed.

End ListFacts.

Ltac decide_goal :=
  repeat match goal with
         | |- context [decide (?x = ?x)] =>
             rewrite (decide_True (P := x = x)) by reflexivity
         | |- context [decide (?x = ?y)] =>
             rewrite (decide_False (P := x = y)) by congruence
         end.

Ltac lookup_goal :=
  repeat first [rewrite lookup_insert | rewrite lookup_delete];
  decide_goal; try reflexivity; try congruence.

(** Equality of two heaps built by inserts, by cases on the address. *)
Ltac map_cases j keys :=
  lazymatch keys with
  | @nil _ => lookup_goal
  | ?k :: ?rest =>
      destruct (decide (j = k)) as [->|?]; [lookup_goal | map_cases j rest]
  end.

Section Put4.
Context {float : Type}.
#[local] Abbreviation coeffs := (@coeffs float).
Implicit Types (k : coeffs) (fl : gmap positive (list float)) (q : quad).

Lemma put4_lookup_a q k fl : put4 q k fl !! qa q = Some (co_a k).
Proof. unfold put4. now rewrite lookup_insert_eq. Qed.

Lemma put4_lookup_b q k fl :
  NoDup (quad_list q) -> put4 q k fl !! qb q = Some (co_b k).
Proof.
  intros Hq. unfold quad_list in Hq. nodup_facts Hq.
  unfold put4. now simplify_map_eq.
Qed.

Lemma put4_lookup_c q k fl :
  NoDup (quad_list q) -> put4 q k fl !! qc q = Some (co_c k).
Proof.
  intros Hq. unfold quad_list in Hq. nodup_facts Hq.
  unfold put4. now simplify_map_eq.
Qed.

Lemma put4_lookup_d q k fl :
  NoDup (quad_list q) -> put4 q k fl !! qd q = Some (co_d k).
Proof.
  intros Hq. unfold quad_list in Hq. nodup_facts Hq.
  unfold put4. now simplify_map_eq.
Qed.

Lemma put4_lookup_other q k fl l :
  l ∉ quad_list q -> put4 q k fl !! l = fl !! l.
Proof.
  intros Hl. unfold quad_list in Hl.
  repeat (apply not_elem_of_cons in Hl as [? Hl]).
  unfold put4. now simplify_map_eq.
Qed.

Lemma put4_insert_a q k fl w :
  <[qa q := w]> (put4 q k fl) = put4 q (Coeffs w (co_b k) (co_c k) (co_d k)) fl.
Proof. unfold put4. cbn [co_a co_b co_c co_d]. apply insert_insert_eq. Qed.

Lemma put4_insert_b q k fl w :
  NoDup (quad_list q) ->
  <[qb q := w]> (put4 q k fl) = put4 q (Coeffs (co_a k) w (co_c k) (co_d k)) fl.
Proof.
  intros Hq. unfold quad_list in Hq. nodup_facts Hq.
  unfold put4. cbn [co_a co_b co_c co_d].
  apply map_eq. intros j. map_cases j [qa q; qb q; qc q; qd q].
Qed.

Lemma put4_insert_c q k fl w :
  NoDup (quad_list q) ->
  <[qc q := w]> (put4 q k fl) = put4 q (Coeffs (co_a k) (co_b k) w (co_d k)) fl.
Proof.
  intros Hq. unfold quad_list in Hq. nodup_facts Hq.
  unfold put4. cbn [co_a co_b co_c co_d].
  apply map_eq. intros j. map_cases j [qa q; qb q; qc q; qd q].
Qed.

Lemma put4_insert_d q k fl w :
  NoDup (quad_list q) ->
  <[qd q := w]> (put4 q k fl) = put4 q (Coeffs (co_a k) (co_b k) (co_c k) w) fl.
Proof.
  intros Hq. unfold quad_list in Hq. nodup_facts Hq.
  unfold put4. cbn [co_a co_b co_c co_d].
  apply map_eq. intros j. map_cases j [qa q; qb q; qc q; qd q].
Qed.

Lemma put4_id q k fl :
  fl !! qa q = Some (co_a k) -> fl !! qb q = Some (co_b k) ->
  fl !! qc q = Some (co_c k) -> fl !! qd q = Some (co_d k) ->
  put4 q k fl = fl.
Proof.
  intros Ha Hb Hc Hd. unfold put4.
  rewrite (insert_id _ _ _ Hd), (insert_id _ _ _ Hc), (insert_id _ _ _ Hb).
  now apply insert_id.
Qed.

End Put4.

Section UpdateRow.
Context {float double : Type} {AR : CArith float double}.
#[local] Abbreviation state := (@state float).
#[local] Abbreviation coeffs := (@coeffs float).

Variables (s : state) (fl0 : gmap positive (list float)).
Variables (src tgt : quad) (k : coeffs) (n S : Z).

Hypothesis src_a : fl0 !! qa src = Some (co_a k).
Hypothesis src_b : fl0 !! qb src = Some (co_b k).
Hypothesis src_c : fl0 !! qc src = Some (co_c k).
Hypothesis src_d : fl0 !! qd src = Some (co_d k).
Hypothesis len_a : len (co_a k) = n.
Hypothesis len_b : len (co_b k) = n.
Hypothesis len_c : len (co_c k) = n.
Hypothesis len_d : len (co_d k) = n.
Hypothesis tgt_nodup : NoDup (quad_list tgt).
Hypothesis src_tgt : forall l, l ∈ quad_list src -> l ∉ quad_list tgt.
Hypothesis stride_pos : 1 <= S.
Hypothesis fits_int : n + S <= 2 ^ 31.

Lemma load_src (w : coeffs) l v j :
  l ∈ quad_list src -> fl0 !! l = Some v -> len v = n -> 0 <= j < n ->
  load_float (Ptr l) j (with_floats s (put4 tgt w fl0))
    = Ok (idx v j) (with_floats s (put4 tgt w fl0)).
Proof.
  intros Hl Hv Hlen Hj. apply load_float_ok; [|lia].
  cbn [floats with_floats]. rewrite put4_lookup_other by auto. assumption.
Qed.

Lemma load_left (w : coeffs) l v i dflt :
  l ∈ quad_list src -> fl0 !! l = Some v -> len v = n -> 0 <= i < n ->
  (if i - S <? 0 then ret dflt else load_float (Ptr l) (i - S))
    (with_floats s (put4 tgt w fl0))
  = Ok (if in_rows n (i - S) then idx v (i - S) else dflt)
       (with_floats s (put4 tgt w fl0)).
Proof.
  intros Hl Hv Hlen Hi. unfold in_rows.
  destruct (i - S <? 0) eqn:E.
  - apply Z.ltb_lt in E.
    replace (0 <=? i - S) with false by (symmetry; apply Z.leb_gt; lia).
    reflexivity.
  - apply Z.ltb_ge in E.
    replace (0 <=? i - S) with true by (symmetry; apply Z.leb_le; lia).
    replace (i - S <? n) with true by (symmetry; apply Z.ltb_lt; lia).
    cbn [andb]. apply load_src; auto. lia.
Qed.

Lemma load_right (w : coeffs) l v i dflt :
  l ∈ quad_list src -> fl0 !! l = Some v -> len v = n -> 0 <= i < n ->
  (if i + S <? n then load_float (Ptr l) (i + S) else ret dflt)
    (with_floats s (put4 tgt w fl0))
  = Ok (if in_rows n (i + S) then idx v (i + S) else dflt)
       (with_floats s (put4 tgt w fl0)).
Proof.
  intros Hl Hv Hlen Hi. unfold in_rows.
  replace (0 <=? i + S) with true by (symmetry; apply Z.leb_le; lia).
  cbn [andb]. destruct (i + S <? n) eqn:E; [|reflexivity].
  apply Z.ltb_lt in E. apply load_src; auto. lia.
Qed.

Lemma load_right' (w : coeffs) l v i dflt :
  l ∈ quad_list src -> fl0 !! l = Some v -> len v = n -> 0 <= i < n ->
  (if n <=? i + S then ret dflt else load_float (Ptr l) (i + S))
    (with_floats s (put4 tgt w fl0))
  = Ok (if in_rows n (i + S) then idx v (i + S) else dflt)
       (with_floats s (put4 tgt w fl0)).
Proof.
  intros Hl Hv Hlen Hi. rewrite <- (load_right w l v i dflt) by assumption.
  rewrite Z.leb_antisym. destruct (i + S <? n); reflexivity.
Qed.

Lemma store_tgt_a (w : coeffs) i y :
  0 <= i < len (co_a w) ->
  store_float (Ptr (qa tgt)) i y (with_floats s (put4 tgt w fl0))
  = Ok tt (with_floats s
             (put4 tgt (Coeffs (<[Z.to_nat i := y]> (co_a w)) (co_b w) (co_c w) (co_d w))
                fl0)).
Proof.
  intros Hi. rewrite (store_float_ok _ _ (co_a w)); [|apply put4_lookup_a|assumption].
  unfold set_floats, with_floats. cbn [sles diags floats allocator].
  now rewrite put4_insert_a.
Qed.

Lemma store_tgt_b (w : coeffs) i y :
  0 <= i < len (co_b w) ->
  store_float (Ptr (qb tgt)) i y (with_floats s (put4 tgt w fl0))
  = Ok tt (with_floats s
             (put4 tgt (Coeffs (co_a w) (<[Z.to_nat i := y]> (co_b w)) (co_c w) (co_d w))
                fl0)).
Proof.
  intros Hi.
  rewrite (store_float_ok _ _ (co_b w)); [|now apply put4_lookup_b|assumption].
  unfold set_floats, with_floats. cbn [sles diags floats allocator].
  now rewrite put4_insert_b.
Qed.

Lemma store_tgt_c (w : coeffs) i y :
  0 <= i < len (co_c w) ->
  store_float (Ptr (qc tgt)) i y (with_floats s (put4 tgt w fl0))
  = Ok tt (with_floats s
             (put4 tgt (Coeffs (co_a w) (co_b w) (<[Z.to_nat i := y]> (co_c w)) (co_d w))
                fl0)).
Proof.
  intros Hi.
  rewrite (store_float_ok _ _ (co_c w)); [|now apply put4_lookup_c|assumption].
  unfold set_floats, with_floats. cbn [sles diags floats allocator].
  now rewrite put4_insert_c.
Qed.

Lemma store_tgt_d (w : coeffs) i y :
  0 <= i < len (co_d w) ->
  store_float (Ptr (qd tgt)) i y (with_floats s (put4 tgt w fl0))
  = Ok tt (with_floats s
             (put4 tgt (Coeffs (co_a w) (co_b w) (co_c w) (<[Z.to_nat i := y]> (co_d w)))
                fl0)).
Proof.
  intros Hi.
  rewrite (store_float_ok _ _ (co_d w)); [|now apply put4_lookup_d|assumption].
  unfold set_floats, with_floats. cbn [sles diags floats allocator].
  now rewrite put4_insert_d.
Qed.

Lemma in_src_a : qa src ∈ quad_list src.
Proof. unfold quad_list. set_solver. Qed.
Lemma in_src_b : qb src ∈ quad_list src.
Proof. unfold quad_list. set_solver. Qed.
Lemma in_src_c : qc src ∈ quad_list src.
Proof. unfold quad_list. set_solver. Qed.
Lemma in_src_d : qd src ∈ quad_list src.
Proof. unfold quad_list. set_solver. Qed.

Lemma update_row_ok (w : coeffs) i :
  lens n w -> 0 <= i < n ->
  update_row (Ptr (qa src)) (Ptr (qb src)) (Ptr (qc src)) (Ptr (qd src))
             (Ptr (qa tgt)) (Ptr (qb tgt)) (Ptr (qc tgt)) (Ptr (qd tgt)) n S i
             (with_floats s (put4 tgt w fl0))
  = Ok tt (with_floats s
             (put4 tgt
                (Coeffs (<[Z.to_nat i := next_a k n S i]> (co_a w))
                        (<[Z.to_nat i := next_b k n S i]> (co_b w))
                        (<[Z.to_nat i := next_c k n S i]> (co_c w))
                        (<[Z.to_nat i := next_d k n S i]> (co_d w)))
                fl0)).
Proof.
  intros (Hwa & Hwb & Hwc & Hwd) Hi. unfold update_row.
  assert (HS : to_int S = S) by (apply to_int_small; unfold INT_MAX; lia).
  rewrite HS.
  rewrite (to_int_small (i + S)) by (unfold INT_MAX; lia).
  rewrite (to_int_small (i - S)) by (unfold INT_MAX; lia).
  rewrite (to_int_small n) by (unfold INT_MAX; lia).
  unfold bind.
  rewrite (load_left w _ _ i f_1 in_src_b src_b len_b Hi).
  rewrite (load_src w _ _ i in_src_a src_a len_a Hi).
  rewrite (load_right w _ _ i f_1 in_src_b src_b len_b Hi).
  rewrite (load_src w _ _ i in_src_c src_c len_c Hi).
  rewrite (load_left w _ _ i f_0 in_src_a src_a len_a Hi).
  rewrite (load_left w _ _ i f_0 in_src_c src_c len_c Hi).
  rewrite (load_left w _ _ i f_0 in_src_d src_d len_d Hi).
  rewrite (load_right' w _ _ i f_0 in_src_a src_a len_a Hi).
  rewrite (load_right' w _ _ i f_0 in_src_c src_c len_c Hi).
  rewrite (load_right' w _ _ i f_0 in_src_d src_d len_d Hi).
  rewrite store_tgt_a by lia.
  rewrite store_tgt_c by (cbn [co_c]; lia).
  rewrite (load_src _ _ _ i in_src_b src_b len_b Hi).
  rewrite store_tgt_b by (cbn [co_b]; lia).
  rewrite (load_src _ _ _ i in_src_d src_d len_d Hi).
  rewrite store_tgt_d by (cbn [co_d]; lia).
  reflexivity.
Qed.

Lemma update_loop_ok (count : nat) :
  forall (i0 : Z) (w : coeffs),
    lens n w -> 0 <= i0 -> i0 + Z.of_nat count = n ->
    for_count count i0
      (update_row (Ptr (qa src)) (Ptr (qb src)) (Ptr (qc src)) (Ptr (qd src))
                  (Ptr (qa tgt)) (Ptr (qb tgt)) (Ptr (qc tgt)) (Ptr (qd tgt)) n S)
      (with_floats s (put4 tgt w fl0))
    = Ok tt (with_floats s
               (put4 tgt
                  (Coeffs (splice (next_a k n S) i0 count (co_a w))
                          (splice (next_b k n S) i0 count (co_b w))
                          (splice (next_c k n S) i0 count (co_c w))
                          (splice (next_d k n S) i0 count (co_d w)))
                  fl0)).
Proof.
  induction count as [|c IH]; intros i0 w Hw Hi0 Hn.
  - cbn [for_count]. rewrite !splice_nil. now destruct w.
  - cbn [for_count]. unfold bind.
    rewrite (update_row_ok w i0 Hw) by lia.
    destruct Hw as (Hwa & Hwb & Hwc & Hwd). unfold len in Hwa, Hwb, Hwc, Hwd.
    rewrite IH; [|unfold lens, len; cbn [co_a co_b co_c co_d];
                   rewrite !length_insert; auto|lia|lia].
    cbn [co_a co_b co_c co_d].
    rewrite !splice_step by lia. reflexivity.
Qed.

Lemma update_rows_all (w : coeffs) :
  lens n w ->
  for_range 0 n
    (update_row (Ptr (qa src)) (Ptr (qb src)) (Ptr (qc src)) (Ptr (qd src))
                (Ptr (qa tgt)) (Ptr (qb tgt)) (Ptr (qc tgt)) (Ptr (qd tgt)) n S)
    (with_floats s (put4 tgt w fl0))
  = Ok tt (with_floats s (put4 tgt (reduce k n S) fl0)).
Proof.
  intros Hw. unfold for_range.
  assert (Hn0 : 0 <= n) by (unfold len in len_a; lia).
  rewrite (update_loop_ok _ 0 w Hw) by lia.
  destruct Hw as (Hwa & Hwb & Hwc & Hwd). unfold len in Hwa, Hwb, Hwc, Hwd.
  rewrite !splice_all by lia.
  unfold reduce. replace (Z.of_nat (Z.to_nat (n - 0))) with n by lia.
  reflexivity.
Qed.

End UpdateRow.

Section UpdateStep.
Context {float double : Type} {AR : CArith float double}.
#[local] Abbreviation state := (@state float).
#[local] Abbreviation sle_view := (@sle_view float).
#[local] Abbreviation coeffs := (@coeffs float).
Implicit Types (s : state) (V : sle_view) (w : coeffs).

Lemma with_floats_id s : with_floats s (floats s) = s.
Proof. now destruct s. Qed.

Lemma idx_map_seqZ (g : Z -> float) n i :
  0 <= i < n -> idx (map g (seqZ 0 n)) i = g i.
Proof.
  intros Hi. unfold idx. apply nth_lookup_Some with (d := f_0).
  rewrite list_lookup_fmap, lookup_seqZ_lt by lia.
  cbn. f_equal. f_equal. lia.
Qed.

Lemma update_step_ok s sle V n level tgt w :
  read_sle s sle = Some V -> vv_n (view_b V) = n -> lens n (coeffs_of V) ->
  floats s !! qa tgt = Some (co_a w) -> floats s !! qb tgt = Some (co_b w) ->
  floats s !! qc tgt = Some (co_c w) -> floats s !! qd tgt = Some (co_d w) ->
  lens n w -> NoDup (quad_list tgt) ->
  (forall l, l ∈ quad_list (bufs4 V) -> l ∉ quad_list tgt) ->
  1 <= n -> 0 <= level -> n + 2 ^ level <= 2 ^ 31 ->
  update_step sle (Ptr (qa tgt)) (Ptr (qb tgt)) (Ptr (qc tgt)) (Ptr (qd tgt)) level s
    = Ok 0 (set_floats (put4 tgt (reduce (coeffs_of V) n (2 ^ level))) s).
Proof.
  intros HV Hn HlV Hta Htb Htc Htd Hw Hnd Hdisj Hn0 Hlev Hfit.
  pose proof HlV as (Hla & Hlb & Hlc & Hld).
  assert (Hpow : 1 <= 2 ^ level) by (pose proof (Z.pow_pos_nonneg 2 level); lia).
  unfold update_step, bind.
  rewrite (sle_n_ok _ _ _ HV), Hn.
  rewrite (sle_data_ok _ _ _ Fa HV), (sle_data_ok _ _ _ Fb HV),
    (sle_data_ok _ _ _ Fc HV), (sle_data_ok _ _ _ Fd HV).
  rewrite Z.shiftl_1_l.
  rewrite (to_int_small (2 ^ level)) by (unfold INT_MAX; lia).
  rewrite (to_size_small (2 ^ level)) by lia.
  rewrite (to_int_small n) by (unfold INT_MAX; lia).
  rewrite <- (with_floats_id s) at 1.
  rewrite <- (put4_id tgt w (floats s) Hta Htb Htc Htd) at 1.
  rewrite (update_rows_all s (floats s) (bufs4 V) tgt (coeffs_of V) n (2 ^ level));
    try assumption; try reflexivity.
  - apply (read_sle_buf _ _ _ Fa HV).
  - apply (read_sle_buf _ _ _ Fb HV).
  - apply (read_sle_buf _ _ _ Fc HV).
  - apply (read_sle_buf _ _ _ Fd HV).
Qed.

Lemma view_map_poke_other V l (w : list float) :
  l ∉ bufs_of V -> view_map (poke l w) V = V.
Proof.
  intros Hl. unfold bufs_of, buf in Hl.
  repeat (apply not_elem_of_cons in Hl as [? Hl]).
  destruct V as [a b c d x]. unfold view_map.
  cbn [view_a view_b view_c view_d view_x view_of] in *.
  rewrite !poke_other by congruence. reflexivity.
Qed.

Lemma read_sle_put4_other s p V q w :
  read_sle s p = Some V -> (forall l, l ∈ quad_list q -> l ∉ bufs_of V) ->
  read_sle (set_floats (put4 q w) s) p = Some V.
Proof.
  intros HV Hq.
  change (set_floats (put4 q w) s) with
    (set_floats (insert (qa q) (co_a w))
       (set_floats (insert (qb q) (co_b w))
          (set_floats (insert (qc q) (co_c w))
             (set_floats (insert (qd q) (co_d w)) s)))).
  assert (Ha : qa q ∉ bufs_of V) by (apply Hq; unfold quad_list; set_solver).
  assert (Hb : qb q ∉ bufs_of V) by (apply Hq; unfold quad_list; set_solver).
  assert (Hc : qc q ∉ bufs_of V) by (apply Hq; unfold quad_list; set_solver).
  assert (Hd : qd q ∉ bufs_of V) by (apply Hq; unfold quad_list; set_solver).
  apply (read_sle_poke _ _ _ (qd q) (co_d w)) in HV.
  rewrite view_map_poke_other in HV by assumption.
  apply (read_sle_poke _ _ _ (qc q) (co_c w)) in HV.
  rewrite view_map_poke_other in HV by assumption.
  apply (read_sle_poke _ _ _ (qb q) (co_b w)) in HV.
  rewrite view_map_poke_other in HV by assumption.
  apply (read_sle_poke _ _ _ (qa q) (co_a w)) in HV.
  rewrite view_map_poke_other in HV by assumption.
  exact HV.
Qed.

Lemma bufs4_sub V l : l ∈ quad_list (bufs4 V) -> l ∈ bufs_of V.
Proof.
  unfold quad_list, bufs4, bufs_of. cbn [qa qb qc qd].
  rewrite !elem_of_cons. tauto.
Qed.

Lemma sized_lens n V : sized n V -> lens n (coeffs_of V).
Proof. intros (_ & Ha & Hb & Hc & Hd & _). repeat split; assumption. Qed.

(** C3. One call of [update_step] at level [level], stride [S = 2^level],
    on a live system of [n] rows and four scratch buffers apart from the
    system's: it returns 0, leaves the system as it was, and leaves in the
    scratch buffers, for every row [i] in [[0, n)],
    [a'[i] = alpha * a[i-S]], [c'[i] = gamma * c[i+S]],
    [b'[i] = b[i] + alpha * c[i-S] + gamma * a[i+S]] and
    [d'[i] = d[i] + alpha * d[i-S] + gamma * d[i+S]], where
    [alpha = -a[i] / b[i-S]] and [gamma = -c[i] / b[i+S]], a neighbour out
    of [[0, n)] counts as 1 for [b] and as 0 for [a], [c], [d], and a
    divisor that is zero is replaced by 1e-30. *)
Theorem update_step_rows s sle V n level tgt w :
  read_sle s sle = Some V -> sized n V ->
  floats s !! qa tgt = Some (co_a w) -> floats s !! qb tgt = Some (co_b w) ->
  floats s !! qc tgt = Some (co_c w) -> floats s !! qd tgt = Some (co_d w) ->
  lens n w -> NoDup (quad_list tgt ++ bufs_of V) ->
  1 <= n -> 0 <= level -> n + 2 ^ level <= 2 ^ 31 ->
  let a := vals Fa V in let b := vals Fb V in
  let c := vals Fc V in let d := vals Fd V in
  let S := 2 ^ level in
  exists s' a' b' c' d',
    update_step sle (Ptr (qa tgt)) (Ptr (qb tgt)) (Ptr (qc tgt)) (Ptr (qd tgt)) level s
      = Ok 0 s' /\
    read_sle s' sle = Some V /\
    floats s' !! qa tgt = Some a' /\ floats s' !! qb tgt = Some b' /\
    floats s' !! qc tgt = Some c' /\ floats s' !! qd tgt = Some d' /\
    forall i, 0 <= i < n ->
      let alpha := guarded_div (fneg (idx a i)) (main_at b n (i - S)) in
      let gamma := guarded_div (fneg (idx c i)) (main_at b n (i + S)) in
      idx a' i = fmul alpha (off_at a n (i - S)) /\
      idx c' i = fmul gamma (off_at c n (i + S)) /\
      idx b' i = fadd (fadd (idx b i) (fmul alpha (off_at c n (i - S))))
                      (fmul gamma (off_at a n (i + S))) /\
      idx d' i = fadd (fadd (idx d i) (fmul alpha (off_at d n (i - S))))
                      (fmul gamma (off_at d n (i + S))).
Proof.
  intros HV Hsz Hta Htb Htc Htd Hw Hnd Hn Hlev Hfit a b c d S.
  apply NoDup_app in Hnd as (Hndt & Hdisj & _).
  assert (Hdisj4 : forall l, l ∈ quad_list (bufs4 V) -> l ∉ quad_list tgt).
  { intros l Hl Hlt. apply (Hdisj l Hlt). now apply bufs4_sub. }
  pose proof Hsz as (Hnb & _).
  exists (set_floats (put4 tgt (reduce (coeffs_of V) n S)) s).
  exists (map (next_a (coeffs_of V) n S) (seqZ 0 n)),
         (map (next_b (coeffs_of V) n S) (seqZ 0 n)),
         (map (next_c (coeffs_of V) n S) (seqZ 0 n)),
         (map (next_d (coeffs_of V) n S) (seqZ 0 n)).
  split.
  { apply (update_step_ok s sle V n level tgt w); auto using sized_lens. }
  split; [now apply read_sle_put4_other|].
  cbn [set_floats floats].
  split; [apply put4_lookup_a|].
  split; [now apply put4_lookup_b|].
  split; [now apply put4_lookup_c|].
  split; [now apply put4_lookup_d|].
  intros i Hi. rewrite !idx_map_seqZ by assumption.
  repeat split; reflexivity.
Qed.

End UpdateStep.

(** The keys of a configuration as pairwise different addresses. *)
Ltac conf_facts Hok :=
  let Hb := fresh "Hb" in
  pose proof Hok as (_ & _ & Hb);
  unfold quad_list in Hb; cbn [app] in Hb; nodup_facts Hb.

Ltac simpl_view :=
  unfold buf, vals, conf_view, with_vals;
  cbn [view_of view_a view_b view_c view_d view_x vv_buf vv_vals vv_n vv_diag];
  repeat match goal with
         | |- context [vv_buf (view_x ?V)] =>
             change (vv_buf (view_x V)) with (buf Fx V)
         end.

Section Conf.
Context {float double : Type} {AR : CArith float double}.
#[local] Abbreviation state := (@state float).
#[local] Abbreviation sle_view := (@sle_view float).
#[local] Abbreviation coeffs := (@coeffs float).
Implicit Types (s : state) (V : sle_view) (kc ks w : coeffs) (cur scr : quad).

Lemma conf_ok_swap s sle V cur scr :
  conf_ok s sle V cur scr -> conf_ok s sle V scr cur.
Proof.
  intros (HV & Hd & Hb). repeat split; try assumption.
  revert Hb. apply NoDup_Permutation_proper. constructor. apply Permutation_app_comm.
Qed.

Lemma conf_keys s sle V cur scr :
  conf_ok s sle V cur scr ->
  NoDup (quad_list cur) /\ NoDup (quad_list scr) /\
  (forall l, l ∈ quad_list cur -> l ∉ quad_list scr) /\
  (buf Fx V ∉ quad_list cur) /\ (buf Fx V ∉ quad_list scr).
Proof.
  intros (_ & _ & Hb). apply NoDup_cons in Hb as (Hx & Hb).
  apply NoDup_app in Hb as (Hc & Hcs & Hs).
  rewrite elem_of_app in Hx. tauto.
Qed.

Lemma conf_floats_cur s V cur scr kc ks xs l :
  buf Fx V ∉ quad_list cur -> l ∈ quad_list cur ->
  floats (pcr_conf s V cur scr kc ks xs) !! l = put4 cur kc (put4 scr ks (floats s)) !! l.
Proof.
  intros Hx Hl. cbn [pcr_conf floats]. apply lookup_insert_ne. congruence.
Qed.

Lemma conf_floats_scr s V cur scr kc ks xs l :
  buf Fx V ∉ quad_list scr -> (forall l, l ∈ quad_list cur -> l ∉ quad_list scr) ->
  l ∈ quad_list scr ->
  floats (pcr_conf s V cur scr kc ks xs) !! l = put4 scr ks (floats s) !! l.
Proof.
  intros Hx Hcs Hl. cbn [pcr_conf floats].
  rewrite lookup_insert_ne by congruence.
  apply put4_lookup_other. intros Hc. exact (Hcs l Hc Hl).
Qed.

Lemma point_to_lookup_a V q dg :
  point_to V q dg !! vv_diag (view_a V) = Some (Diagonal (vv_n (view_a V)) (Ptr (qa q))).
Proof. unfold point_to. now rewrite lookup_insert_eq. Qed.

Lemma point_to_lookup_b V q dg :
  NoDup (diags_of V) ->
  point_to V q dg !! vv_diag (view_b V) = Some (Diagonal (vv_n (view_b V)) (Ptr (qb q))).
Proof.
  intros Hd. unfold diags_of in Hd. nodup_facts Hd.
  unfold point_to. now simplify_map_eq.
Qed.

Lemma point_to_lookup_c V q dg :
  NoDup (diags_of V) ->
  point_to V q dg !! vv_diag (view_c V) = Some (Diagonal (vv_n (view_c V)) (Ptr (qc q))).
Proof.
  intros Hd. unfold diags_of in Hd. nodup_facts Hd.
  unfold point_to. now simplify_map_eq.
Qed.

Lemma point_to_lookup_d V q dg :
  NoDup (diags_of V) ->
  point_to V q dg !! vv_diag (view_d V) = Some (Diagonal (vv_n (view_d V)) (Ptr (qd q))).
Proof.
  intros Hd. unfold diags_of in Hd. nodup_facts Hd.
  unfold point_to. now simplify_map_eq.
Qed.

Lemma point_to_lookup_x V q dg :
  NoDup (diags_of V) ->
  point_to V q dg !! vv_diag (view_x V) = dg !! vv_diag (view_x V).
Proof.
  intros Hd. unfold diags_of in Hd. nodup_facts Hd.
  unfold point_to. now simplify_map_eq.
Qed.

Lemma in_quad_a q : qa q ∈ quad_list q.
Proof. unfold quad_list. rewrite !elem_of_cons. tauto. Qed.
Lemma in_quad_b q : qb q ∈ quad_list q.
Proof. unfold quad_list. rewrite !elem_of_cons. tauto. Qed.
Lemma in_quad_c q : qc q ∈ quad_list q.
Proof. unfold quad_list. rewrite !elem_of_cons. tauto. Qed.
Lemma in_quad_d q : qd q ∈ quad_list q.
Proof. unfold quad_list. rewrite !elem_of_cons. tauto. Qed.

Lemma read_conf s sle V cur scr kc ks xs :
  conf_ok s sle V cur scr ->
  read_sle (pcr_conf s V cur scr kc ks xs) sle = Some (conf_view V cur kc xs).
Proof.
  intros Hok. destruct (conf_keys _ _ _ _ _ Hok) as (Hc & Hs & Hcs & Hxc & Hxs).
  destruct Hok as (HV & Hd & Hb).
  pose proof (read_sle_diag _ _ _ Fx HV) as Hdx.
  apply read_sle_Some in HV as (l & r & -> & Hr & Hf).
  unfold read_sle. change (sles (pcr_conf s V cur scr kc ks xs)) with (sles s).
  rewrite Hr.
  pose proof (read_vec_Some _ _ _ (Hf Fa)) as (Ea & _).
  pose proof (read_vec_Some _ _ _ (Hf Fb)) as (Eb & _).
  pose proof (read_vec_Some _ _ _ (Hf Fc)) as (Ec & _).
  pose proof (read_vec_Some _ _ _ (Hf Fd)) as (Ed & _).
  pose proof (read_vec_Some _ _ _ (Hf Fx)) as (Ex & _).
  cbn [get_field view_of] in Ea, Eb, Ec, Ed, Ex. rewrite Ea, Eb, Ec, Ed, Ex.
  unfold read_vec. change (diags (pcr_conf s V cur scr kc ks xs)) with (point_to V cur (diags s)).
  rewrite point_to_lookup_a, point_to_lookup_b, point_to_lookup_c,
    point_to_lookup_d, point_to_lookup_x by assumption.
  cbn [view_of] in Hdx. rewrite Hdx.
  rewrite !conf_floats_cur
    by (try assumption; auto using in_quad_a, in_quad_b, in_quad_c, in_quad_d).
  rewrite put4_lookup_a, put4_lookup_b, put4_lookup_c, put4_lookup_d by assumption.
  cbn [pcr_conf floats]. unfold buf. cbn [view_of]. rewrite lookup_insert_eq.
  reflexivity.
Qed.

Lemma conf_view_sized n V cur kc xs :
  vv_n (view_b V) = n -> lens n kc -> len xs = n -> sized n (conf_view V cur kc xs).
Proof.
  intros Hn (Ha & Hb & Hc & Hd) Hx. unfold sized, vals, conf_view.
  cbn [view_of view_a view_b view_c view_d view_x vv_n vv_vals with_vals].
  tauto.
Qed.

Lemma lens_reduce kc n S : 0 <= n -> lens n (reduce kc n S).
Proof.
  intros Hn. unfold lens, len, reduce. cbn [co_a co_b co_c co_d].
  rewrite !length_map, !length_seqZ. lia.
Qed.

Lemma conf_update s sle V cur scr kc ks xs n level :
  conf_ok s sle V cur scr -> vv_n (view_b V) = n -> lens n kc -> lens n ks ->
  1 <= n -> 0 <= level -> n + 2 ^ level <= 2 ^ 31 ->
  update_step sle (Ptr (qa scr)) (Ptr (qb scr)) (Ptr (qc scr)) (Ptr (qd scr)) level
    (pcr_conf s V cur scr kc ks xs)
  = Ok 0 (pcr_conf s V cur scr kc (reduce kc n (2 ^ level)) xs).
Proof.
  intros Hok Hn Hkc Hks Hn1 Hlev Hfit.
  destruct (conf_keys _ _ _ _ _ Hok) as (Hc & Hs & Hcs & Hxc & Hxs).
  rewrite (update_step_ok _ sle (conf_view V cur kc xs) n level scr ks);
    try assumption.
  - f_equal. unfold set_floats, pcr_conf. cbn [sles diags floats allocator].
    f_equal. conf_facts Hok. unfold put4.
    apply map_eq. intros j.
    map_cases j [buf Fx V; qa cur; qb cur; qc cur; qd cur;
                 qa scr; qb scr; qc scr; qd scr].
  - now apply read_conf.
  - rewrite conf_floats_scr by auto using in_quad_a. apply put4_lookup_a.
  - rewrite conf_floats_scr by auto using in_quad_b. now apply put4_lookup_b.
  - rewrite conf_floats_scr by auto using in_quad_c. now apply put4_lookup_c.
  - rewrite conf_floats_scr by auto using in_quad_d. now apply put4_lookup_d.
Qed.

Lemma swap_data_ok (st : state) l r f p m old tmp :
  sles st !! l = Some r -> get_field f r = Ptr p ->
  diags st !! p = Some (Diagonal m old) ->
  swap_data f (Ptr l) tmp st = Ok old (set_diags (insert p (Diagonal m tmp)) st).
Proof.
  intros Hl Hf Hp. unfold swap_data, bind, sle_field, diag_data, set_diag_data, ret.
  rewrite Hl, Hf, Hp. cbv beta iota. rewrite Hp. reflexivity.
Qed.

Lemma conf_swap s sle V cur scr kc ks xs :
  conf_ok s sle V cur scr ->
  swap_all sle (Ptr (qa scr)) (Ptr (qb scr)) (Ptr (qc scr)) (Ptr (qd scr))
    (pcr_conf s V cur scr kc ks xs)
  = Ok (Ptr (qa cur), Ptr (qb cur), Ptr (qc cur), Ptr (qd cur))
       (pcr_conf s V scr cur ks kc xs).
Proof.
  intros Hok. conf_facts Hok. destruct Hok as (HV & Hd & _).
  apply read_sle_Some in HV as (l & r & -> & Hr & Hf).
  pose proof (read_vec_Some _ _ _ (Hf Fa)) as (Ea & _).
  pose proof (read_vec_Some _ _ _ (Hf Fb)) as (Eb & _).
  pose proof (read_vec_Some _ _ _ (Hf Fc)) as (Ec & _).
  pose proof (read_vec_Some _ _ _ (Hf Fd)) as (Ed & _).
  unfold diags_of in Hd. nodup_facts Hd.
  unfold swap_all, bind.
  repeat lazymatch goal with
    | |- context [swap_data ?f (Ptr l) ?tmp ?st] =>
        let E := lazymatch f with Fa => Ea | Fb => Eb | Fc => Ec | Fd => Ed end in
        erewrite (swap_data_ok st l r f _ _ _ tmp Hr E);
        [|cbn [pcr_conf set_diags diags view_of]; unfold point_to; lookup_goal]
    end.
  unfold ret. f_equal.
  unfold pcr_conf, set_diags. cbn [sles diags floats allocator]. f_equal.
  - unfold point_to. cbn [view_of]. apply map_eq. intros j.
    map_cases j [vv_diag (view_a V); vv_diag (view_b V); vv_diag (view_c V);
                 vv_diag (view_d V)].
  - unfold put4. apply map_eq. intros j.
    map_cases j [buf Fx V; qa cur; qb cur; qc cur; qd cur;
                 qa scr; qb scr; qc scr; qd scr].
Qed.

End Conf.

Section Levels.
Context {float double : Type} {AR : CArith float double}.
#[local] Abbreviation state := (@state float).
#[local] Abbreviation sle_view := (@sle_view float).
#[local] Abbreviation coeffs := (@coeffs float).
#[local] Abbreviation M := (@M float).
Implicit Types (s : state) (V : sle_view) (kc ks w : coeffs) (cur scr : quad).

Lemma pcr_levels_ok (count : nat) :
  forall level s sle V cur scr kc ks xs n,
    conf_ok s sle V cur scr -> vv_n (view_b V) = n -> lens n kc -> lens n ks ->
    1 <= n -> 0 <= level ->
    (forall j, level <= j < level + Z.of_nat count -> n + 2 ^ j <= 2 ^ 31) ->
    pcr_levels count level sle (Ptr (qa scr)) (Ptr (qb scr)) (Ptr (qc scr)) (Ptr (qd scr))
      (pcr_conf s V cur scr kc ks xs)
    = let '(cur', scr', kc', ks') := levels_abs count level n cur scr kc ks in
      Ok (Ptr (qa scr'), Ptr (qb scr'), Ptr (qc scr'), Ptr (qd scr'))
         (pcr_conf s V cur' scr' kc' ks' xs).
Proof.
  induction count as [|c IH]; intros level s sle V cur scr kc ks xs n
    Hok Hn Hkc Hks Hn1 Hlev Hfit.
  - reflexivity.
  - cbn [pcr_levels levels_abs]. unfold bind.
    rewrite (conf_update _ _ _ _ _ _ _ _ n) by (try assumption; apply Hfit; lia).
    rewrite conf_swap by assumption. cbv beta iota.
    apply IH; try assumption.
    + now apply conf_ok_swap.
    + apply lens_reduce. lia.
    + lia.
    + intros j Hj. apply Hfit. lia.
Qed.

Lemma levels_abs_spec (count : nat) :
  forall level n cur scr kc ks,
    0 <= n -> lens n kc -> lens n ks ->
    exists ks',
      levels_abs count level n cur scr kc ks
        = (if Nat.even count then cur else scr, if Nat.even count then scr else cur,
           reduce_from count level kc n, ks') /\
      lens n ks' /\ lens n (reduce_from count level kc n).
Proof.
  induction count as [|c IH]; intros level n cur scr kc ks Hn Hkc Hks.
  - exists ks. cbn. auto.
  - cbn [levels_abs reduce_from].
    destruct (IH (level + 1) n scr cur (reduce kc n (2 ^ level)) kc Hn
                (lens_reduce _ _ _ Hn) Hkc) as (ks' & E & Hl & Hr).
    exists ks'. rewrite E. rewrite Nat.even_succ, <- Nat.negb_even.
    destruct (Nat.even c); cbn [negb]; auto.
Qed.

Lemma poke_x V (w : list float) :
  NoDup (bufs_of V) ->
  view_map (poke (buf Fx V) w) V
    = SleView (view_a V) (view_b V) (view_c V) (view_d V) (with_vals (view_x V) w).
Proof.
  intros Hnd. unfold bufs_of, buf in *. cbn [view_of] in *. nodup_facts Hnd.
  unfold view_map. rewrite !poke_other by congruence. now rewrite poke_same.
Qed.

Lemma set_floats_insert_twice s l (v w : list float) :
  set_floats (insert l v) (set_floats (insert l w) s) = set_floats (insert l v) s.
Proof.
  unfold set_floats. cbn [sles diags floats allocator]. now rewrite insert_insert_eq.
Qed.

Lemma solve_rows_ok (count : nat) :
  forall i0 s sle V n,
    read_sle s sle = Some V -> sized n V -> NoDup (bufs_of V) ->
    0 <= i0 -> i0 + Z.of_nat count = n ->
    for_count count i0 (solve_row sle) s
    = Ok tt (set_floats
               (insert (buf Fx V)
                  (splice (fun i => fdiv (idx (vals Fd V) i) (idx (vals Fb V) i))
                          i0 count (vals Fx V))) s).
Proof.
  induction count as [|c IH]; intros i0 s sle V n HV Hsz Hnd Hi0 Hn.
  - cbn [for_count]. rewrite splice_nil. unfold ret. f_equal.
    unfold set_floats. rewrite insert_id by apply (read_sle_buf _ _ _ Fx HV).
    now destruct s.
  - pose proof Hsz as (Hnb & Ha & Hb & Hc & Hd & Hx).
    cbn [for_count]. unfold bind, solve_row at 1, bind.
    rewrite (sle_elem_ok _ _ _ Fd i0 HV) by lia.
    rewrite (sle_elem_ok _ _ _ Fb i0 HV) by lia.
    rewrite (sle_data_ok _ _ _ Fx HV).
    rewrite (store_float_ok _ _ (vals Fx V)) by (try apply (read_sle_buf _ _ _ Fx HV); lia).
    apply (read_sle_poke _ _ _ (buf Fx V)
             (<[Z.to_nat i0 := fdiv (idx (vals Fd V) i0) (idx (vals Fb V) i0)]> (vals Fx V)))
      in HV.
    rewrite poke_x in HV by assumption.
    rewrite (IH (i0 + 1) _ sle _ n HV); try assumption; try lia.
    + unfold buf, vals. cbn [view_of view_x view_d view_b with_vals vv_buf vv_vals].
      rewrite set_floats_insert_twice.
      rewrite <- (splice_step
                    (fun i => fdiv (idx (vv_vals (view_d V)) i) (idx (vv_vals (view_b V)) i))
                    i0 c (vv_vals (view_x V)));
        [reflexivity|lia|]. unfold len, vals in Hx. cbn [view_of] in Hx. lia.
    + unfold sized, vals in *.
      cbn [view_of view_a view_b view_c view_d view_x with_vals vv_vals vv_n] in *.
      unfold len in *. rewrite length_insert. tauto.
Qed.

Lemma conf_bufs_nodup s sle V cur scr kc xs :
  conf_ok s sle V cur scr -> NoDup (bufs_of (conf_view V cur kc xs)).
Proof.
  intros (_ & _ & Hb).
  apply NoDup_cons in Hb as (Hx & Hb). apply NoDup_app in Hb as (Hc & _ & _).
  rewrite elem_of_app in Hx.
  change (bufs_of (conf_view V cur kc xs)) with (quad_list cur ++ [buf Fx V]).
  apply NoDup_app. split; [assumption|]. split.
  - intros l Hl Hlx. apply list_elem_of_singleton in Hlx as ->. tauto.
  - apply NoDup_singleton.
Qed.

Lemma conf_solve s sle V cur scr kc ks xs n :
  conf_ok s sle V cur scr -> vv_n (view_b V) = n -> lens n kc -> len xs = n ->
  for_range 0 n (solve_row sle) (pcr_conf s V cur scr kc ks xs)
  = Ok tt (pcr_conf s V cur scr kc ks (solution kc n)).
Proof.
  intros Hok Hn Hkc Hxs.
  assert (Hn0 : 0 <= n) by (unfold len in Hxs; lia).
  unfold for_range.
  rewrite (solve_rows_ok _ 0 _ sle (conf_view V cur kc xs) n);
    [|now apply read_conf|now apply conf_view_sized
     |now apply (conf_bufs_nodup s sle V cur scr)|lia|lia].
  f_equal. unfold vals, buf, conf_view.
  cbn [view_of view_x view_d view_b with_vals vv_buf vv_vals].
  rewrite splice_all by (unfold len in Hxs; lia).
  replace (Z.of_nat (Z.to_nat (n - 0))) with n by lia.
  unfold set_floats, pcr_conf. cbn [sles diags floats allocator].
  rewrite insert_insert_eq. reflexivity.
Qed.

Lemma take_drop_full (n : Z) (v w : list float) :
  len v = n -> len w = n -> take (Z.to_nat n) v ++ drop (Z.to_nat n) w = v.
Proof.
  unfold len. intros Hv Hw.
  rewrite take_ge, drop_ge by lia. apply app_nil_r.
Qed.

Lemma memcpy_full s ld ls (vd vs : list float) n :
  floats s !! ld = Some vd -> floats s !! ls = Some vs -> ld <> ls ->
  0 <= n < 2 ^ 62 -> len vs = n -> len vd = n ->
  memcpy_floats (Ptr ld) (Ptr ls) (to_size (n * sizeof_float)) s
    = Ok tt (set_floats (insert ld vs) s).
Proof.
  intros Hd Hs Hne Hn Hvs Hvd.
  rewrite (memcpy_floats_ok _ _ _ vd vs) by (try assumption; lia).
  now rewrite take_drop_full.
Qed.

Lemma conf_copy_back {A} (k : M A) s sle V cur scr kc ks xs n :
  conf_ok s sle V cur scr -> lens n kc -> lens n ks -> 0 <= n < 2 ^ 62 ->
  (copy_back Fa sle (Ptr (qa scr)) n ;;;
   copy_back Fb sle (Ptr (qb scr)) n ;;;
   copy_back Fc sle (Ptr (qc scr)) n ;;;
   copy_back Fd sle (Ptr (qd scr)) n ;;; k) (pcr_conf s V cur scr kc ks xs)
  = k (pcr_conf s V cur scr kc kc xs).
Proof.
  intros Hok (Hca & Hcb & Hcc & Hcd) (Hsa & Hsb & Hsc & Hsd) Hn.
  destruct (conf_keys _ _ _ _ _ Hok) as (Hc & Hs & Hcs & Hxc & Hxs).
  conf_facts Hok.
  assert (Hstep : forall f w,
    copy_back f sle (Ptr (match f with Fa => qa scr | Fb => qb scr | Fc => qc scr
                                  | _ => qd scr end)) n
      (pcr_conf s V cur scr kc w xs)
    = memcpy_floats (Ptr (match f with Fa => qa scr | Fb => qb scr | Fc => qc scr
                                  | _ => qd scr end))
        (Ptr (buf f (conf_view V cur kc xs))) (to_size (n * sizeof_float))
        (pcr_conf s V cur scr kc w xs)).
  { intros f w. unfold copy_back, bind.
    now rewrite (sle_data_ok _ _ _ f (read_conf s sle V cur scr kc w xs Hok)). }
  unfold bind.
  rewrite (Hstep Fa ks).
  rewrite (memcpy_full _ _ _ (co_a ks) (co_a kc) n);
    [|cbn [pcr_conf floats]; unfold put4; cbn [co_a co_b co_c co_d]; lookup_goal
     |cbn [pcr_conf floats]; simpl_view; unfold put4; lookup_goal
     |simpl_view; congruence|assumption|assumption|assumption].
  replace (set_floats (insert (qa scr) (co_a kc)) (pcr_conf s V cur scr kc ks xs))
    with (pcr_conf s V cur scr kc (Coeffs (co_a kc) (co_b ks) (co_c ks) (co_d ks)) xs).
  2:{ unfold set_floats, pcr_conf. cbn [sles diags floats allocator]. f_equal.
      unfold put4. cbn [co_a co_b co_c co_d]. apply map_eq. intros j.
      map_cases j [buf Fx V; qa cur; qb cur; qc cur; qd cur;
                   qa scr; qb scr; qc scr; qd scr]. }
  rewrite (Hstep Fb).
  rewrite (memcpy_full _ _ _ (co_b ks) (co_b kc) n);
    [|cbn [pcr_conf floats]; unfold put4; cbn [co_a co_b co_c co_d]; lookup_goal
     |cbn [pcr_conf floats]; simpl_view; unfold put4; lookup_goal
     |simpl_view; congruence|assumption|assumption|assumption].
  replace (set_floats (insert (qb scr) (co_b kc))
             (pcr_conf s V cur scr kc (Coeffs (co_a kc) (co_b ks) (co_c ks) (co_d ks)) xs))
    with (pcr_conf s V cur scr kc (Coeffs (co_a kc) (co_b kc) (co_c ks) (co_d ks)) xs).
  2:{ unfold set_floats, pcr_conf. cbn [sles diags floats allocator]. f_equal.
      unfold put4. cbn [co_a co_b co_c co_d]. apply map_eq. intros j.
      map_cases j [buf Fx V; qa cur; qb cur; qc cur; qd cur;
                   qa scr; qb scr; qc scr; qd scr]. }
  rewrite (Hstep Fc).
  rewrite (memcpy_full _ _ _ (co_c ks) (co_c kc) n);
    [|cbn [pcr_conf floats]; unfold put4; cbn [co_a co_b co_c co_d]; lookup_goal
     |cbn [pcr_conf floats]; simpl_view; unfold put4; lookup_goal
     |simpl_view; congruence|assumption|assumption|assumption].
  replace (set_floats (insert (qc scr) (co_c kc))
             (pcr_conf s V cur scr kc (Coeffs (co_a kc) (co_b kc) (co_c ks) (co_d ks)) xs))
    with (pcr_conf s V cur scr kc (Coeffs (co_a kc) (co_b kc) (co_c kc) (co_d ks)) xs).
  2:{ unfold set_floats, pcr_conf. cbn [sles diags floats allocator]. f_equal.
      unfold put4. cbn [co_a co_b co_c co_d]. apply map_eq. intros j.
      map_cases j [buf Fx V; qa cur; qb cur; qc cur; qd cur;
                   qa scr; qb scr; qc scr; qd scr]. }
  rewrite (Hstep Fd).
  rewrite (memcpy_full _ _ _ (co_d ks) (co_d kc) n);
    [|cbn [pcr_conf floats]; unfold put4; cbn [co_a co_b co_c co_d]; lookup_goal
     |cbn [pcr_conf floats]; simpl_view; unfold put4; lookup_goal
     |simpl_view; congruence|assumption|assumption|assumption].
  f_equal.
  unfold set_floats, pcr_conf. cbn [sles diags floats allocator]. f_equal.
  unfold put4. cbn [co_a co_b co_c co_d]. apply map_eq. intros j.
  map_cases j [buf Fx V; qa cur; qb cur; qc cur; qd cur;
               qa scr; qb scr; qc scr; qd scr].
Qed.

End Levels.

Section PcrProofs.
Context {float double : Type} {AR : CArith float double}.
#[local] Abbreviation state := (@state float).
#[local] Abbreviation sle_view := (@sle_view float).
#[local] Abbreviation coeffs := (@coeffs float).
Implicit Types (s : state) (V : sle_view) (kc ks w : coeffs) (cur scr : quad).

Lemma free_floats_ok s l (v : list float) :
  floats s !! l = Some v -> free_floats (Ptr l) s = Ok tt (set_floats (delete l) s).
Proof. intros Hl. unfold free_floats. now rewrite Hl. Qed.

Lemma conf_free s sle V cur scr kc ks xs :
  conf_ok s sle V cur scr -> (forall l, l ∈ quad_list scr -> floats s !! l = None) ->
  (free_floats (Ptr (qa scr)) ;;;
   free_floats (Ptr (qb scr)) ;;;
   free_floats (Ptr (qc scr)) ;;;
   free_floats (Ptr (qd scr)) ;;;
   ret 0) (pcr_conf s V cur scr kc ks xs)
  = Ok 0 (State (sles s) (point_to V cur (diags s))
                (<[buf Fx V := xs]> (put4 cur kc (floats s))) (allocator s)).
Proof.
  intros Hok Hfresh. conf_facts Hok.
  pose proof (Hfresh _ (in_quad_a scr)) as Hfa.
  pose proof (Hfresh _ (in_quad_b scr)) as Hfb.
  pose proof (Hfresh _ (in_quad_c scr)) as Hfc.
  pose proof (Hfresh _ (in_quad_d scr)) as Hfd.
  unfold bind.
  erewrite (free_floats_ok _ (qa scr));
    [|cbn [pcr_conf floats]; unfold put4; lookup_goal].
  erewrite (free_floats_ok _ (qb scr));
    [|cbn [pcr_conf set_floats floats]; unfold put4; lookup_goal].
  erewrite (free_floats_ok _ (qc scr));
    [|cbn [pcr_conf set_floats floats]; unfold put4; lookup_goal].
  erewrite (free_floats_ok _ (qd scr));
    [|cbn [pcr_conf set_floats floats]; unfold put4; lookup_goal].
  unfold ret. f_equal.
  unfold pcr_conf, set_floats. cbn [sles diags floats allocator]. f_equal.
  unfold put4. apply map_eq. intros j.
  map_cases j [buf Fx V; qa cur; qb cur; qc cur; qd cur;
               qa scr; qb scr; qc scr; qd scr].
Qed.

Lemma malloc_floats_ok s j rest n :
  allocator s = Some j :: rest -> 0 <= n < 2 ^ 62 ->
  malloc_floats (to_size (n * sizeof_float)) s
  = Ok (Ptr (fresh_addr (floats s)))
       (set_allocator rest
          (set_floats (insert (fresh_addr (floats s)) (map j (seq 0 (Z.to_nat n)))) s)).
Proof.
  intros Hal Hn. unfold malloc_floats. rewrite Hal.
  rewrite to_size_small by (unfold sizeof_float; lia).
  unfold sizeof_float. rewrite Z.div_mul by lia. reflexivity.
Qed.

Lemma point_to_id s sle V :
  read_sle s sle = Some V -> point_to V (bufs4 V) (diags s) = diags s.
Proof.
  intros HV. unfold point_to, bufs4. cbn [qa qb qc qd].
  rewrite (insert_id _ _ _ (read_sle_diag _ _ _ Fd HV)).
  rewrite (insert_id _ _ _ (read_sle_diag _ _ _ Fc HV)).
  rewrite (insert_id _ _ _ (read_sle_diag _ _ _ Fb HV)).
  apply (insert_id _ _ _ (read_sle_diag _ _ _ Fa HV)).
Qed.

Lemma even_of_nat (k : nat) : Z.even (Z.of_nat k) = Nat.even k.
Proof.
  induction k as [|k IH]; [reflexivity|].
  rewrite Nat2Z.inj_succ, Z.even_succ, Nat.even_succ.
  rewrite <- Z.negb_even, <- Nat.negb_even. now rewrite IH.
Qed.

Lemma mod2_even (k : nat) : (Z.of_nat k mod 2 =? 0) = Nat.even k.
Proof.
  rewrite Zmod_even, <- even_of_nat. now destruct (Z.even (Z.of_nat k)).
Qed.

(** [pcr] on a live system of [n >= 1] equations, when the four
    allocations succeed: it returns 0; the scratch buffers are gone; the
    structs are as they were, so every vector still points to the buffer it
    pointed to; the coefficient buffers hold the coefficients after
    [total_levels_of n] reduction levels and the solution buffer their
    quotients [d[i] / b[i]]; nothing else in memory has changed. *)
Lemma pcr_succeeds s sle V n j1 j2 j3 j4 rest :
  read_sle s sle = Some V -> sized n V ->
  NoDup (diags_of V) -> NoDup (bufs_of V) ->
  1 <= n < 2 ^ 62 -> 0 <= total_levels_of n ->
  (forall j, 0 <= j < total_levels_of n -> n + 2 ^ j <= 2 ^ 31) ->
  allocator s = Some j1 :: Some j2 :: Some j3 :: Some j4 :: rest ->
  let kf := reduce_from (Z.to_nat (total_levels_of n)) 0 (coeffs_of V) n in
  pcr sle s
  = Ok 0 (State (sles s) (diags s)
                (<[buf Fx V := solution kf n]> (put4 (bufs4 V) kf (floats s))) rest).
Proof.
  intros HV Hsz Hdd Hbd Hn HL Hfit Hal kf.
  pose proof Hsz as (Hnb & Ha & Hb & Hc & Hd & Hx).
  pose proof (read_sle_buf _ _ _ Fa HV) as Hba.
  pose proof (read_sle_buf _ _ _ Fb HV) as Hbb.
  pose proof (read_sle_buf _ _ _ Fc HV) as Hbc.
  pose proof (read_sle_buf _ _ _ Fd HV) as Hbdd.
  pose proof (read_sle_buf _ _ _ Fx HV) as Hbx.
  unfold pcr. rewrite (read_sle_not_null _ _ _ HV). unfold bind.
  rewrite (sle_n_ok _ _ _ HV), Hnb.
  replace (n =? 0) with false by (symmetry; apply Z.eqb_neq; lia).
  (* the four allocations *)
  rewrite (malloc_floats_ok s j1 _ n Hal) by lia.
  pose proof (fresh_addr_fresh (floats s)) as F1.
  set (t1 := fresh_addr (floats s)) in *. set (v1 := map j1 (seq 0 (Z.to_nat n))).
  erewrite (malloc_floats_ok _ j2 _ n); [|reflexivity|lia].
  cbn [set_allocator set_floats floats sles diags allocator].
  pose proof (fresh_addr_fresh (<[t1 := v1]> (floats s))) as F2.
  set (t2 := fresh_addr (<[t1 := v1]> (floats s))) in *.
  set (v2 := map j2 (seq 0 (Z.to_nat n))).
  erewrite (malloc_floats_ok _ j3 _ n); [|reflexivity|lia].
  cbn [set_allocator set_floats floats sles diags allocator].
  pose proof (fresh_addr_fresh (<[t2 := v2]> (<[t1 := v1]> (floats s)))) as F3.
  set (t3 := fresh_addr (<[t2 := v2]> (<[t1 := v1]> (floats s)))) in *.
  set (v3 := map j3 (seq 0 (Z.to_nat n))).
  erewrite (malloc_floats_ok _ j4 _ n); [|reflexivity|lia].
  cbn [set_allocator set_floats floats sles diags allocator].
  pose proof (fresh_addr_fresh
                (<[t3 := v3]> (<[t2 := v2]> (<[t1 := v1]> (floats s))))) as F4.
  set (t4 := fresh_addr (<[t3 := v3]> (<[t2 := v2]> (<[t1 := v1]> (floats s))))) in *.
  set (v4 := map j4 (seq 0 (Z.to_nat n))).
  cbn [is_null orb].
  clearbody t1 t2 t3 t4.
  apply lookup_insert_None in F2 as (F2 & N12).
  apply lookup_insert_None in F3 as (F3 & N23).
  apply lookup_insert_None in F3 as (F3 & N13).
  apply lookup_insert_None in F4 as (F4 & N34).
  apply lookup_insert_None in F4 as (F4 & N24).
  apply lookup_insert_None in F4 as (F4 & N14).
  set (T := Quad t1 t2 t3 t4).
  set (junk := Coeffs v1 v2 v3 v4).
  set (s0 := set_allocator rest s).
  assert (Hjunk : lens n junk).
  { unfold lens, len, junk, v1, v2, v3, v4. cbn [co_a co_b co_c co_d].
    rewrite !length_map, !length_seq. lia. }
  assert (Hok : conf_ok s0 sle V (bufs4 V) T).
  { split; [exact HV|]. split; [exact Hdd|].
    unfold bufs_of in Hbd. nodup_facts Hbd.
    unfold quad_list, bufs4, T. cbn [qa qb qc qd app].
    repeat (apply NoDup_cons; split;
            [rewrite ?not_elem_of_cons; repeat split;
             try congruence; apply not_elem_of_nil|]).
    apply NoDup_nil_2. }
  assert (Hfresh : forall l, l ∈ quad_list T -> floats s0 !! l = None).
  { intros l Hl. unfold quad_list, T in Hl. cbn [qa qb qc qd] in Hl.
    rewrite !elem_of_cons in Hl. rewrite elem_of_nil in Hl.
    destruct Hl as [->|[->|[->|[->|[]]]]]; assumption. }
  match goal with
  | |- context [pcr_levels _ _ _ _ _ _ _ ?st] =>
      replace st with (pcr_conf s0 V (bufs4 V) T (coeffs_of V) junk (vals Fx V))
  end.
  2:{ unfold s0, pcr_conf, set_allocator, set_floats.
      cbn [sles diags floats allocator].
      rewrite (point_to_id _ _ _ HV). f_equal.
      unfold bufs_of in Hbd. nodup_facts Hbd.
      unfold put4, bufs4, T, junk, coeffs_of.
      cbn [qa qb qc qd co_a co_b co_c co_d].
      apply map_eq. intros j.
      map_cases j [buf Fx V; buf Fa V; buf Fb V; buf Fc V; buf Fd V; t1; t2; t3; t4]. }
  (* the levels *)
  change (Ptr t1) with (Ptr (qa T)). change (Ptr t2) with (Ptr (qb T)).
  change (Ptr t3) with (Ptr (qc T)). change (Ptr t4) with (Ptr (qd T)).
  rewrite (pcr_levels_ok _ 0 s0 sle V (bufs4 V) T (coeffs_of V) junk (vals Fx V) n);
    [|assumption|assumption|now apply sized_lens|assumption|lia|lia
     |intros j Hj; apply Hfit; lia].
  destruct (levels_abs_spec (Z.to_nat (total_levels_of n)) 0 n (bufs4 V) T
              (coeffs_of V) junk ltac:(lia) (sized_lens _ _ Hsz) Hjunk)
    as (ks' & E & Hks' & Hkf).
  rewrite E. fold kf in Hkf |- *. cbv beta iota zeta.
  replace (total_levels_of n mod 2 =? 0)
    with (Nat.even (Z.to_nat (total_levels_of n)))
    by (rewrite <- mod2_even, Z2Nat.id by lia; reflexivity).
  destruct (Nat.even (Z.to_nat (total_levels_of n))) eqn:Ev; cbn [negb].
  - (* even: the system's buffers hold the result *)
    rewrite (conf_solve _ sle V _ _ _ _ _ n) by assumption.
    unfold ret. cbv beta iota zeta.
    pose proof (conf_free s0 sle V (bufs4 V) T kf ks' (solution kf n) Hok Hfresh) as Hfree.
    unfold bind, ret in Hfree. unfold ret. rewrite Hfree.
    cbn [s0 set_allocator sles diags floats allocator].
    now rewrite (point_to_id _ _ _ HV).
  - (* odd: copy back and swap once more *)
    pose proof (conf_ok_swap _ _ _ _ _ Hok) as Hok'.
    rewrite (conf_solve _ sle V _ _ _ _ _ n) by assumption.
    pose proof (conf_copy_back
                  (swap_all sle (Ptr (qa (bufs4 V))) (Ptr (qb (bufs4 V)))
                     (Ptr (qc (bufs4 V))) (Ptr (qd (bufs4 V))))
                  s0 sle V T (bufs4 V) kf ks' (solution kf n) n Hok' Hkf Hks'
                  ltac:(lia)) as Hcopy.
    unfold bind in Hcopy. rewrite Hcopy.
    rewrite conf_swap by assumption. cbv beta iota zeta.
    pose proof (conf_free s0 sle V (bufs4 V) T kf kf (solution kf n) Hok Hfresh) as Hfree.
    unfold bind, ret in Hfree. unfold ret. rewrite Hfree.
    cbn [s0 set_allocator sles diags floats allocator].
    now rewrite (point_to_id _ _ _ HV).
Qed.

End PcrProofs.

(** ** pcr.c: allocation failure *)

Ltac name_fresh :=
  repeat match goal with
         | |- context [fresh_addr ?m] =>
             let F := fresh "F" in
             let t := fresh "t" in
             pose proof (fresh_addr_fresh m) as F;
             set (t := fresh_addr m) in *; clearbody t
         end;
  repeat match goal with
         | F : <[_ := _]> _ !! _ = None |- _ =>
             let N := fresh "N" in apply lookup_insert_None in F as (F & N)
         end.

Ltac run_frees :=
  repeat (repeat first [rewrite lookup_insert | rewrite lookup_delete];
          decide_goal; cbv beta iota;
          cbv beta iota delta [set_floats set_allocator floats sles diags allocator]).

Section AllocationFailure.
Context {float double : Type} {AR : CArith float double}.
#[local] Abbreviation state := (@state float).
#[local] Abbreviation sle_view := (@sle_view float).
Implicit Types (s : state) (V : sle_view).

(** C7. If any of the four allocations of [pcr] fails, or the allocator has
    nothing left to give, [pcr] returns -1 and leaves memory as it found
    it: the system's five vectors are unchanged and the scratch buffers
    that were obtained are released. *)
Theorem pcr_allocation_failure s sle V :
  read_sle s sle = Some V -> vv_n (view_b V) <> 0 ->
  ~ (exists j1 j2 j3 j4 rest,
       allocator s = Some j1 :: Some j2 :: Some j3 :: Some j4 :: rest) ->
  exists s',
    pcr sle s = Ok (-1) s' /\
    read_sle s' sle = Some V /\
    sles s' = sles s /\ diags s' = diags s /\ floats s' = floats s.
Proof.
  intros HV Hn Hfail.
  exists (set_allocator (drop 4 (allocator s)) s).
  split; [|repeat split; exact HV].
  unfold pcr. rewrite (read_sle_not_null _ _ _ HV). unfold bind.
  rewrite (sle_n_ok _ _ _ HV).
  replace (vv_n (view_b V) =? 0) with false by (symmetry; now apply Z.eqb_neq).
  unfold malloc_floats. clear HV.
  destruct s as [sl dg fl al]. cbn [allocator] in Hfail.
  destruct al as [|[j1|] [|[j2|] [|[j3|] [|[j4|] rest]]]];
    cbv beta iota delta [set_floats set_allocator floats sles diags allocator is_null orb].
  all: try (exfalso; apply Hfail; eauto 6; fail).
  all: unfold free_floats, ret;
    cbv beta iota delta [set_floats set_allocator floats sles diags allocator drop].
  all: name_fresh.
  all: run_frees.
  all: cbv beta iota delta [set_floats set_allocator floats sles diags allocator drop].
  all: lazymatch goal with
    | |- Ok _ (State _ _ ?m _) = Ok _ (State _ _ ?m' _) =>
        replace m with m'; [reflexivity|]
    end.
  all: apply map_eq; intros j;
     repeat first [rewrite lookup_insert | rewrite lookup_delete].
  all: repeat case_decide; subst; congruence.
Qed.

End AllocationFailure.

(** ** pcr.c: what a successful call leaves behind *)

Section PcrResults.
Context {float double : Type} {AR : CArith float double}.
#[local] Abbreviation state := (@state float).
#[local] Abbreviation sle_view := (@sle_view float).
#[local] Abbreviation coeffs := (@coeffs float).
Implicit Types (s : state) (V : sle_view) (k : coeffs).

Lemma read_sle_final s sle V k xs al :
  read_sle s sle = Some V -> NoDup (bufs_of V) ->
  read_sle (State (sles s) (diags s)
              (<[buf Fx V := xs]> (put4 (bufs4 V) k (floats s))) al) sle
  = Some (with_contents V k xs).
Proof.
  intros HV Hnd.
  change (State (sles s) (diags s)
            (<[buf Fx V := xs]> (put4 (bufs4 V) k (floats s))) al)
    with (set_allocator al
            (set_floats (insert (buf Fx V) xs)
               (set_floats (insert (buf Fa V) (co_a k))
                  (set_floats (insert (buf Fb V) (co_b k))
                     (set_floats (insert (buf Fc V) (co_c k))
                        (set_floats (insert (buf Fd V) (co_d k)) s)))))).
  change (read_sle (set_allocator al ?st) sle) with (read_sle st sle).
  unfold bufs_of in Hnd. nodup_facts Hnd.
  destruct V as [[pa na la va] [pb nb lb vb] [pc nc lc vc] [pd nd ld vd] [px nx lx vx]].
  unfold buf, with_contents, with_vals in *.
  cbn [view_of view_a view_b view_c view_d view_x vv_buf vv_vals vv_n vv_diag] in *.
  apply (read_sle_poke _ _ _ ld (co_d k)) in HV. settle_view HV.
  apply (read_sle_poke _ _ _ lc (co_c k)) in HV. settle_view HV.
  apply (read_sle_poke _ _ _ lb (co_b k)) in HV. settle_view HV.
  apply (read_sle_poke _ _ _ la (co_a k)) in HV. settle_view HV.
  apply (read_sle_poke _ _ _ lx xs) in HV. settle_view HV.
  exact HV.
Qed.

(** [pcr] succeeds: the result, as a caller reads it.  The structs and
    every buffer but the system's five are as they were; the five vectors
    still have the buffers they had; [a], [b], [c], [d] hold the
    coefficients after [total_levels_of n] levels and [x] their quotients. *)
Lemma pcr_solves s sle V n j1 j2 j3 j4 rest :
  read_sle s sle = Some V -> sized n V ->
  NoDup (diags_of V) -> NoDup (bufs_of V) ->
  1 <= n < 2 ^ 62 -> 0 <= total_levels_of n ->
  (forall j, 0 <= j < total_levels_of n -> n + 2 ^ j <= 2 ^ 31) ->
  allocator s = Some j1 :: Some j2 :: Some j3 :: Some j4 :: rest ->
  let kf := reduce_from (Z.to_nat (total_levels_of n)) 0 (coeffs_of V) n in
  exists s',
    pcr sle s = Ok 0 s' /\
    read_sle s' sle = Some (with_contents V kf (solution kf n)) /\
    sles s' = sles s /\ diags s' = diags s /\
    (forall l, l ∉ bufs_of V -> floats s' !! l = floats s !! l).
Proof.
  intros HV Hsz Hdd Hbd Hn HL Hfit Hal kf.
  eexists. split; [now apply (pcr_succeeds s sle V n j1 j2 j3 j4 rest)|].
  split; [now apply read_sle_final|]. split; [reflexivity|]. split; [reflexivity|].
  intros l Hl. cbn [floats]. unfold bufs_of in Hl.
  repeat (apply not_elem_of_cons in Hl as [? Hl]).
  rewrite lookup_insert_ne by congruence.
  apply put4_lookup_other. unfold quad_list, bufs4. cbn [qa qb qc qd].
  rewrite !not_elem_of_cons. repeat split; try congruence; apply not_elem_of_nil.
Qed.



(** *** One equation *)

Lemma pcr_single s sle V j1 j2 j3 j4 rest :
  total_levels_of 1 = 0 ->
  read_sle s sle = Some V -> sized 1 V ->
  NoDup (diags_of V) -> NoDup (bufs_of V) ->
  allocator s = Some j1 :: Some j2 :: Some j3 :: Some j4 :: rest ->
  exists s',
    pcr sle s = Ok 0 s' /\
    read_sle s' sle
    = Some (with_contents V (coeffs_of V)
              [fdiv (idx (vals Fd V) 0) (idx (vals Fb V) 0)]).
Proof.
  intros HL HV Hsz Hdd Hbd Hal.
  destruct (pcr_solves s sle V 1 j1 j2 j3 j4 rest HV Hsz Hdd Hbd
              ltac:(lia) ltac:(lia) ltac:(intros j Hj; lia) Hal)
    as (s' & Hrun & Hread & _).
  rewrite HL in Hread. exists s'. split; assumption.
Qed.

End PcrResults.

(** ** sle.c: the validators *)

Section ValidatorProofs.
Context {float double : Type} {AR : CArith float double}.
#[local] Abbreviation state := (@state float).
#[local] Abbreviation sle_view := (@sle_view float).
Implicit Types (s : state) (V : sle_view).

Lemma find_first_seqZ (f : Z -> bool) (count : nat) :
  forall i0 j, List.find f (seqZ i0 (Z.of_nat count)) = Some j ->
    i0 <= j < i0 + Z.of_nat count /\ f j = true /\
    forall k, i0 <= k < j -> f k = false.
Proof.
  induction count as [|c IH]; intros i0 j.
  - discriminate.
  - rewrite seqZ_S. cbn [List.find]. destruct (f i0) eqn:E0.
    + intros [= <-]. split; [lia|]. split; [assumption|]. intros k Hk. lia.
    + intros Hf. destruct (IH _ _ Hf) as (Hr & Hj & Hb).
      split; [lia|]. split; [assumption|].
      intros k Hk. destruct (decide (k = i0)) as [->|Hne]; [assumption|].
      apply Hb. lia.
Qed.

Lemma row_result_ok s rs is_ Vr Vi n i :
  read_sle s rs = Some Vr -> read_sle s is_ = Some Vi ->
  sized n Vi -> len (vals Fx Vr) = n -> n < 2 ^ 64 -> 0 <= i < n ->
  row_result rs is_ i s
    = Ok (residual (vals Fa Vi) (vals Fb Vi) (vals Fc Vi) (vals Fx Vr) n i) s.
Proof.
  intros Hr Hi (Hn & Ha & Hb & Hc & Hd & Hx) Hxr Hlt Hrow.
  unfold row_result, residual, bind, ret.
  rewrite (sle_elem_ok _ _ _ Fb i Hi) by lia.
  rewrite (sle_elem_ok _ _ _ Fx i Hr) by lia.
  destruct (0 <? i) eqn:E0.
  - apply Z.ltb_lt in E0. rewrite (to_size_small (i - 1)) by lia.
    rewrite (sle_elem_ok _ _ _ Fa i Hi) by lia.
    rewrite (sle_elem_ok _ _ _ Fx (i - 1) Hr) by lia.
    rewrite (sle_n_ok _ _ _ Hi), Hn. rewrite (to_size_small (n - 1)) by lia.
    destruct (i <? n - 1) eqn:E1; [|reflexivity].
    apply Z.ltb_lt in E1. rewrite (to_size_small (i + 1)) by lia.
    rewrite (sle_elem_ok _ _ _ Fc i Hi) by lia.
    rewrite (sle_elem_ok _ _ _ Fx (i + 1) Hr) by lia. reflexivity.
  - rewrite (sle_n_ok _ _ _ Hi), Hn. rewrite (to_size_small (n - 1)) by lia.
    destruct (i <? n - 1) eqn:E1; [|reflexivity].
    apply Z.ltb_lt in E1. rewrite (to_size_small (i + 1)) by lia.
    rewrite (sle_elem_ok _ _ _ Fc i Hi) by lia.
    rewrite (sle_elem_ok _ _ _ Fx (i + 1) Hr) by lia. reflexivity.
Qed.

Lemma maxrel_rows_ok s rs is_ Vr Vi n :
  read_sle s rs = Some Vr -> read_sle s is_ = Some Vi ->
  sized n Vi -> len (vals Fx Vr) = n -> n < 2 ^ 64 ->
  forall (count : nat) (i : Z) (m0 : float),
    0 <= i -> i + Z.of_nat count = n ->
    maxrel_rows count i rs is_ m0 s
      = Ok (maxrel_over (residual (vals Fa Vi) (vals Fb Vi) (vals Fc Vi) (vals Fx Vr) n)
              (vals Fd Vi) (seqZ i (Z.of_nat count)) m0) s.
Proof.
  intros Hr Hi Hsz Hxr Hlt. induction count as [|k IH]; intros i m0 Hi0 Hin.
  - reflexivity.
  - rewrite seqZ_S. cbn [maxrel_rows]. unfold bind.
    rewrite (row_result_ok _ _ _ _ _ _ i Hr Hi Hsz Hxr Hlt) by lia.
    unfold maxrel_over. cbn [List.find List.filter]. unfold is_nan at 1.
    set (r := residual _ _ _ _ _) in *.
    destruct (negb (feqb (r i) (r i))) eqn:En; [reflexivity|].
    destruct Hsz as (Hn & Ha & Hb & Hc & Hd & Hx).
    rewrite (sle_elem_ok _ _ _ Fd i Hi) by lia.
    rewrite IH by lia. unfold maxrel_over, nonzero at 2.
    destruct (negb (deqb (d_of_f (idx (vals Fd Vi) i)) d_0)) eqn:Ez; reflexivity.
Qed.

(** C5. Between two live systems of [n] equations
    [triSLE_validate_maxrel] returns, with memory unchanged, the maximum
    over the rows with [d0[i] <> 0] of [|r[i] - d0[i]| / |d0[i]|], [r] the
    residuals recomputed from the original coefficients and the solved
    [x]; when a residual is NaN it returns the first such residual, a NaN,
    whatever the rows after it hold. *)
Theorem triSLE_validate_maxrel_spec s rs is_ Vr Vi n :
  read_sle s rs = Some Vr -> read_sle s is_ = Some Vi ->
  sized n Vi -> len (vals Fx Vr) = n -> n < 2 ^ 64 ->
  let r := residual (vals Fa Vi) (vals Fb Vi) (vals Fc Vi) (vals Fx Vr) n in
  let result := spec_maxrel (vals Fa Vi) (vals Fb Vi) (vals Fc Vi) (vals Fd Vi)
                            (vals Fx Vr) n in
  triSLE_validate_maxrel rs is_ s = Ok result s /\
  (forall i, 0 <= i < n -> is_nan (r i) = true ->
     is_nan result = true /\
     exists j, 0 <= j <= i /\ result = r j /\
               forall k, 0 <= k < j -> is_nan (r k) = false).
Proof.
  intros Hr Hi Hsz Hxr Hlt r result. split.
  - unfold triSLE_validate_maxrel.
    rewrite (read_sle_not_null _ _ _ Hr), (read_sle_not_null _ _ _ Hi). cbn [orb].
    unfold bind. rewrite (sle_n_ok _ _ _ Hi).
    destruct Hsz as (Hn & Hrest). rewrite Hn.
    assert (Hn0 : 0 <= n) by (unfold len in Hxr; lia).
    rewrite (maxrel_rows_ok _ _ _ _ _ n Hr Hi ltac:(split; assumption) Hxr Hlt) by lia.
    rewrite Z2Nat.id by lia. reflexivity.
  - intros i Hin Hnan. subst result. unfold spec_maxrel, maxrel_over. fold r.
    destruct (List.find (fun i => is_nan (r i)) (seqZ 0 n)) as [j|] eqn:Ef.
    + assert (Hn0 : 0 <= n) by lia.
      rewrite <- (Z2Nat.id n Hn0) in Ef.
      apply find_first_seqZ in Ef as (Hj & Hfj & Hbefore).
      split; [assumption|]. exists j. split.
      * destruct (Z_le_gt_dec j i) as [Hle|Hgt]; [lia|].
        rewrite (Hbefore i) in Hnan by lia. discriminate.
      * split; [reflexivity|]. intros k Hk. apply Hbefore. lia.
    + apply find_none with (x := i) in Ef.
      * congruence.
      * apply list_elem_of_In, elem_of_seqZ. lia.
Qed.

Lemma mape_rows_ok s rs is_ Vr Vi n :
  abs_quotient_law ->
  read_sle s rs = Some Vr -> read_sle s is_ = Some Vi ->
  sized n Vi -> len (vals Fx Vr) = n -> n < 2 ^ 64 ->
  forall (count : nat) (i : Z) (acc : float),
    0 <= i -> i + Z.of_nat count = n ->
    mape_rows count i rs is_ acc s
      = Ok (mape_over (residual (vals Fa Vi) (vals Fb Vi) (vals Fc Vi) (vals Fx Vr) n)
              (vals Fd Vi) (seqZ i (Z.of_nat count)) acc) s.
Proof.
  intros Hlaw Hr Hi Hsz Hxr Hlt. induction count as [|k IH]; intros i acc Hi0 Hin.
  - reflexivity.
  - rewrite seqZ_S. cbn [mape_rows]. unfold bind.
    rewrite (row_result_ok _ _ _ _ _ _ i Hr Hi Hsz Hxr Hlt) by lia.
    set (r := residual _ _ _ _ _) in *.
    pose proof Hsz as (Hn & Ha & Hb & Hc & Hd & Hx).
    rewrite (sle_elem_ok _ _ _ Fd i Hi) by lia.
    rewrite IH by lia. unfold mape_over. cbn [fold_left]. f_equal. f_equal.
    unfold mape_add, nonzero, absolute_percentage_error, percentage_error.
    rewrite Hlaw.
    destruct (deqb (d_of_f (idx (vals Fd Vi) i)) d_0); reflexivity.
Qed.

(** C6. Between two live systems of [n] equations [triSLE_validate_mape]
    returns, with memory unchanged, the accumulator divided by [n], where
    each row with [d0[i] <> 0] adds [|r[i] - d0[i]| / |d0[i]| * 100] and
    each row with [d0[i] = 0] and [r[i] <> 0] adds the penalty 1.0. *)
Theorem triSLE_validate_mape_spec s rs is_ Vr Vi n :
  abs_quotient_law ->
  read_sle s rs = Some Vr -> read_sle s is_ = Some Vi ->
  sized n Vi -> len (vals Fx Vr) = n -> n < 2 ^ 64 ->
  triSLE_validate_mape rs is_ s
    = Ok (spec_mape (vals Fa Vi) (vals Fb Vi) (vals Fc Vi) (vals Fd Vi)
            (vals Fx Vr) n) s.
Proof.
  intros Hlaw Hr Hi Hsz Hxr Hlt.
  unfold triSLE_validate_mape.
  rewrite (read_sle_not_null _ _ _ Hr), (read_sle_not_null _ _ _ Hi). cbn [orb].
  unfold bind. rewrite (sle_n_ok _ _ _ Hi).
  pose proof Hsz as (Hn & Hrest). rewrite Hn.
  assert (Hn0 : 0 <= n) by (unfold len in Hxr; lia).
  rewrite (mape_rows_ok _ _ _ _ _ n Hlaw Hr Hi Hsz Hxr Hlt) by lia.
  rewrite (sle_n_ok _ _ _ Hi), Hn.
  rewrite Z2Nat.id by lia. reflexivity.
Qed.

(** With no equations the loops of the validators do not run. *)
Lemma validators_of_empty_system s rs is_ Vi :
  is_null rs = false -> read_sle s is_ = Some Vi -> vv_n (view_b Vi) = 0 ->
  triSLE_validate_mape rs is_ s = Ok (fdiv (f_of_d d_0) (f_of_size 0)) s /\
  triSLE_validate_maxrel rs is_ s = Ok (f_of_d d_0) s.
Proof.
  intros Hrs Hi Hn.
  unfold triSLE_validate_mape, triSLE_validate_maxrel.
  rewrite Hrs, (read_sle_not_null _ _ _ Hi). cbn [orb].
  unfold bind. rewrite (sle_n_ok _ _ _ Hi), Hn.
  change (Z.to_nat 0) with O. cbn [mape_rows maxrel_rows]. unfold ret.
  rewrite (sle_n_ok _ _ _ Hi), Hn. split; reflexivity.
Qed.

End ValidatorProofs.

(** ** The IEEE instance *)

Section IEEEFacts.
Import IEEE.

Lemma SFabs_binary_round_aux prec emax s m e l :
  SFabs (binary_round_aux prec emax s m e l) = binary_round_aux prec emax false m e l.
Proof.
  unfold binary_round_aux.
  destruct (shr_fexp prec emax m e l) as [mrs' e'].
  destruct (shr_fexp prec emax _ e' loc_Exact) as [mrs'' e''].
  destruct (shr_m mrs'') as [|p|p]; try reflexivity.
  destruct (e'' <=? emax - prec); reflexivity.
Qed.

Lemma SFabs_binary_round prec emax s m e :
  SFabs (binary_round prec emax s m e) = binary_round prec emax false m e.
Proof.
  unfold binary_round.
  destruct (shl_align m e _) as [mz ez]. apply SFabs_binary_round_aux.
Qed.

Lemma SFabs_round_to prec emax x :
  SFabs (round_to prec emax x) = round_to prec emax (SFabs x).
Proof.
  destruct x as [s|s| |s m e]; try reflexivity.
  cbn [round_to SFabs]. apply SFabs_binary_round.
Qed.

Lemma SFabs_SFdiv prec emax u v :
  SFabs (SFdiv prec emax u v) = SFdiv prec emax (SFabs u) (SFabs v).
Proof.
  destruct u as [su|su| |su mu eu], v as [sv|sv| |sv mv ev]; try reflexivity.
  cbn [SFdiv SFabs].
  destruct (SFdiv_core_binary prec emax (Z.pos mu) eu (Z.pos mv) ev) as [[mz ez] lz].
  apply SFabs_binary_round_aux.
Qed.

(** IEEE division commutes with the absolute value. *)
Lemma binary32_abs_quotient : @abs_quotient_law _ _ binary32.
Proof.
  intros u v. cbn [dabs d_of_f fdiv f_abs binary32].
  rewrite SFabs_round_to. f_equal. apply SFabs_SFdiv.
Qed.

(** [epsilon64] is the binary64 number nearest to 1e-30: it is normal
    (53 digits) and within half a unit in the last place of [10^-30]. *)
Lemma epsilon64_nearest :
  2 ^ 52 <= 5708990770823840 < 2 ^ 53 /\
  Z.abs (2 * 5708990770823840 * 10 ^ 30 - 2 ^ 153) <= 10 ^ 30.
Proof. split; [split|]; vm_compute; congruence. Qed.

#[local] Existing Instance binary32.
#[local] Abbreviation state := (@state spec_float).
#[local] Abbreviation sle_view := (@sle_view spec_float).

(** C10. In IEEE arithmetic, between live systems of no equations
    [triSLE_validate_mape] returns NaN (0.0f / 0.0f) and
    [triSLE_validate_maxrel] returns 0.0. *)
Theorem validators_of_empty_system_ieee (s : state) rs is_ (Vi : sle_view) :
  is_null rs = false -> read_sle s is_ = Some Vi -> vv_n (view_b Vi) = 0 ->
  triSLE_validate_mape rs is_ s = Ok S754_nan s /\
  triSLE_validate_maxrel rs is_ s = Ok (S754_zero false) s.
Proof.
  intros Hrs Hi Hn.
  destruct (validators_of_empty_system s rs is_ Vi Hrs Hi Hn) as [Hmape Hmax].
  rewrite Hmape, Hmax. split; reflexivity.
Qed.

End IEEEFacts.

(** ** The IEEE instance: number of levels, one equation, two equations *)

Section IEEEPcr.
Import IEEE Examples.
#[local] Existing Instance binary32.
#[local] Abbreviation state := (@state spec_float).
#[local] Abbreviation sle_view := (@sle_view spec_float).

Lemma digits2_log2 (p : positive) : Zpos (digits2_pos p) = Z.log2 (Zpos p) + 1.
Proof.
  induction p as [p IH|p IH|]; cbn [digits2_pos]; [| |reflexivity];
    rewrite Pos2Z.inj_succ, IH.
  - change (Zpos p~1) with (2 * Zpos p + 1). rewrite Z.log2_succ_double; lia.
  - change (Zpos p~0) with (2 * Zpos p). rewrite Z.log2_double; lia.
Qed.

Lemma digits2_shift (k p : positive) :
  digits2_pos (Pos.iter xO p k) = (digits2_pos p + k)%positive.
Proof.
  apply Pos.iter_ind
    with (P := fun k q => digits2_pos q = (digits2_pos p + k)%positive).
  - cbn [digits2_pos]. lia.
  - intros k' q Hq. cbn [digits2_pos]. lia.
Qed.

Lemma shift_value (k p : positive) :
  Zpos (Pos.iter xO p k) = Zpos p * 2 ^ Zpos k.
Proof.
  change (Pos.iter xO p k) with (shift_pos k p).
  rewrite shift_pos_correct, Z.pow_pos_fold. lia.
Qed.

(** A mantissa of 24 bits with an exponent in range is a binary32 number. *)
Lemma binary_round_aux_exact (m : positive) (e : Z) :
  Zpos (digits2_pos m) = 24 -> -149 <= e <= 104 ->
  binary_round_aux 24 128 false (Zpos m) e loc_Exact = S754_finite false m e.
Proof.
  intros Hd He.
  assert (Hf : fexp 24 128 (Zdigits2 (Zpos m) + e) - e = 0).
  { cbn [Zdigits2]. rewrite Hd. unfold fexp, emin. lia. }
  unfold binary_round_aux, shr_fexp. rewrite Hf.
  cbn [shr shr_record_of_loc loc_of_shr_record shr_m shr_r shr_s round_nearest_even].
  rewrite Hf. cbn [shr shr_record_of_loc shr_m].
  destruct (Z.leb_spec e (128 - 24)); [reflexivity|lia].
Qed.

(** [(float)n] is exact below 2^24. *)
Lemma f32_of_Z_exact (p : positive) :
  Zpos p < 2 ^ 24 ->
  exists m e, f32_of_Z (Zpos p) = S754_finite false m e /\
              -23 <= e <= 0 /\ Zpos m = Zpos p * 2 ^ (- e).
Proof.
  intros Hp.
  assert (Hd : 1 <= Zpos (digits2_pos p) <= 24).
  { rewrite digits2_log2. pose proof (Z.log2_nonneg (Zpos p)).
    pose proof (proj1 (Z.log2_lt_pow2 (Zpos p) 24 ltac:(lia)) Hp). lia. }
  unfold f32_of_Z, binary_normalize, binary_round, shl_align.
  replace (fexp 24 128 (Zpos (digits2_pos p) + 0) - 0)
    with (Zpos (digits2_pos p) - 24) by (unfold fexp, emin; lia).
  replace (fexp 24 128 (Zpos (digits2_pos p) + 0))
    with (Zpos (digits2_pos p) - 24) by (unfold fexp, emin; lia).
  destruct (Zpos (digits2_pos p) - 24) as [|k|k] eqn:Ek; [|lia|].
  - exists p, 0. split; [|split; [lia|cbn; lia]].
    apply binary_round_aux_exact; lia.
  - exists (Pos.iter xO p k), (Z.neg k). split; [|split; [lia|]].
    + apply binary_round_aux_exact; [|lia]. rewrite digits2_shift. lia.
    + rewrite shift_value. reflexivity.
Qed.

(** Up to 2^24 equations the number of levels is [ceil(log2(n))]. *)
Lemma binary32_total_levels (n : Z) :
  1 <= n <= 2 ^ 24 -> total_levels_of n = Z.log2_up n.
Proof.
  intros Hn. unfold total_levels_of. cbn [binary32 f_of_size size_ceil_log2].
  destruct (Z.eq_dec n (2 ^ 24)) as [->|Hne]; [reflexivity|].
  destruct n as [|p|p]; try lia.
  destruct (f32_of_Z_exact p ltac:(lia)) as (m & e & -> & He & Hm).
  cbn [ceil_log2]. rewrite Hm, Z.log2_up_mul_pow2 by lia. lia.
Qed.

Lemma binary32_levels_fit (n j : Z) :
  1 <= n <= 2 ^ 24 -> 0 <= j < total_levels_of n -> n + 2 ^ j <= 2 ^ 31.
Proof.
  intros Hn Hj. rewrite binary32_total_levels in Hj by assumption.
  assert (Z.log2_up n <= 24) by (apply Z.log2_up_le_pow2; lia).
  assert (2 ^ j <= 2 ^ 23) by (apply Z.pow_le_mono_r; lia).
  lia.
Qed.

(** In binary32, up to 2^24 equations: [pcr] runs [ceil(log2(n))] levels,
    whatever their parity, and returns with the caller's buffers holding the
    coefficients of the last level and [x] their quotients. *)
Lemma pcr_solves_binary32 (s : state) sle (V : sle_view) n j1 j2 j3 j4 rest :
  read_sle s sle = Some V -> sized n V ->
  NoDup (diags_of V) -> NoDup (bufs_of V) ->
  1 <= n <= 2 ^ 24 ->
  allocator s = Some j1 :: Some j2 :: Some j3 :: Some j4 :: rest ->
  let kf := reduce_from (Z.to_nat (Z.log2_up n)) 0 (coeffs_of V) n in
  exists s',
    pcr sle s = Ok 0 s' /\
    read_sle s' sle = Some (with_contents V kf (solution kf n)) /\
    sles s' = sles s /\ diags s' = diags s /\
    (forall l, l ∉ bufs_of V -> floats s' !! l = floats s !! l).
Proof.
  intros HV Hsz Hdd Hbd Hn Hal.
  rewrite <- (binary32_total_levels n Hn).
  apply (pcr_solves s sle V n j1 j2 j3 j4 rest); auto.
  - lia.
  - rewrite binary32_total_levels by assumption. apply Z.log2_up_nonneg.
  - intros j Hj. now apply binary32_levels_fit.
Qed.

(** C4. [total_levels] is computed from [(float)n]: 2^24 + 1 is not a
    binary32 number and is converted to 2^24, so that [pcr] runs 24 levels
    where [ceil(log2(n))] is 25.  Up to 2^24 equations the count is
    [ceil(log2(n))], see [binary32_total_levels]. *)
Theorem total_levels_rounds_down :
  f32_of_Z 16777217 = f32_of_Z 16777216 /\
  total_levels_of 16777217 = 24 /\ Z.log2_up 16777217 = 25.
Proof. vm_compute. repeat split; reflexivity. Qed.

(** C9. On a live system of one equation, when the allocations succeed:
    [pcr] runs no reduction level, returns 0, stores [d[0] / b[0]] in
    [x[0]] and leaves [a[0]], [b[0]], [c[0]], [d[0]] as they were. *)
Theorem pcr_single_equation (s : state) sle (V : sle_view) j1 j2 j3 j4 rest :
  read_sle s sle = Some V -> sized 1 V ->
  NoDup (diags_of V) -> NoDup (bufs_of V) ->
  allocator s = Some j1 :: Some j2 :: Some j3 :: Some j4 :: rest ->
  total_levels_of 1 = 0 /\
  exists s',
    pcr sle s = Ok 0 s' /\
    read_sle s' sle
    = Some (with_contents V (coeffs_of V)
              [SFdiv 24 128 (idx (vals Fd V) 0) (idx (vals Fb V) 0)]).
Proof.
  intros HV Hsz Hdd Hbd Hal. split; [reflexivity|].
  exact (pcr_single s sle V j1 j2 j3 j4 rest eq_refl HV Hsz Hdd Hbd Hal).
Qed.

(** The system [4 x0 + x1 = 6], [x0 + 4 x1 = 9] is solved in one level:
    [x = (1, 2)], both rows reduced to [3.75 x = 3.75] and [3.75 x = 7.5],
    and the scratch buffers are released. *)
Example pcr_two_equations :
  exists s',
    pcr (Ptr 1) (world four_ok) = Ok 0 s' /\
    floats s' !! 5%positive = Some [fl 1; fl 2] /\
    floats s' !! 2%positive
      = Some [SFdiv 24 128 (fl 15) (fl 4); SFdiv 24 128 (fl 15) (fl 4)] /\
    floats s' !! 4%positive
      = Some [SFdiv 24 128 (fl 15) (fl 4); SFdiv 24 128 (fl 15) (fl 2)] /\
    dom (floats s') = dom (floats (world four_ok)) /\
    diags s' = diags (world four_ok).
Proof.
  eexists. split; [vm_compute; reflexivity|].
  vm_compute. repeat split; reflexivity.
Qed.

(** The decoupled system [2 x0 = 6], [4 x1 = 12] in binary32: [x = (3, 3)],
    [b] and [d] keep their values, and the zeros of [a] and [c] come back
    as [-0.0], the product of [alpha = -0.0 / b] and [0.0]. *)
Example pcr_decoupled_binary32 :
  exists s',
    pcr (Ptr 1) decoupled32 = Ok 0 s' /\
    floats s' !! 5%positive = Some [fl 3; fl 3] /\
    floats s' !! 2%positive = Some [fl 2; fl 4] /\
    floats s' !! 4%positive = Some [fl 6; fl 12] /\
    floats s' !! 1%positive = Some [S754_zero true; S754_zero true] /\
    floats s' !! 3%positive = Some [S754_zero true; S754_zero true].
Proof.
  eexists. split; [vm_compute; reflexivity|].
  vm_compute. repeat split; reflexivity.
Qed.

End IEEEPcr.
(** ** Rounding: the value of a product and of a quotient

    [SFmul] and [SFdiv] round the exact result to nearest; a finite result
    is within half a unit in the last place of it. *)

Section Rounding.
Import IEEE.

(** The mantissa of a record is the integer part of what it locates. *)
Lemma located_floor mrs num den :
  located mrs num den -> shr_m mrs * den <= num < (shr_m mrs + 1) * den.
Proof.
  intros (Hd & Hm & H). destruct (shr_r mrs), (shr_s mrs); lia.
Qed.

(** One shift to the right halves the scale and keeps the located number. *)
Lemma shr_1_located mrs num den :
  located mrs num den -> located (shr_1 mrs) num (2 * den).
Proof.
  destruct mrs as [m r s]. unfold located. cbn [shr_m shr_r shr_s].
  intros (Hd & Hm & H).
  destruct m as [|[p|p|]|p]; [| | | |lia]; cbn [shr_1 shr_m shr_r shr_s];
    try (pose proof (Pos2Z.inj_xI p)); try (pose proof (Pos2Z.inj_xO p));
    destruct r, s; cbn [orb]; nia.
Qed.

Lemma iter_shr_1_located p : forall mrs num den,
  located mrs num den -> located (SpecFloat.iter_pos shr_1 p mrs) num (2 ^ Zpos p * den).
Proof.
  induction p as [p IH|p IH|]; intros mrs num den H; cbn [SpecFloat.iter_pos].
  - apply shr_1_located, IH, IH in H.
    replace (2 ^ Zpos p~1 * den) with (2 ^ Zpos p * (2 ^ Zpos p * (2 * den))); [exact H|].
    rewrite (Pos2Z.inj_xI p), Z.pow_add_r, Z.pow_mul_r by lia.
    change (2 ^ 2) with 4. rewrite Z.pow_1_r.
    replace (4 ^ Zpos p) with (2 ^ Zpos p * 2 ^ Zpos p); [ring|].
    rewrite <- Z.pow_mul_l. reflexivity.
  - apply IH, IH in H.
    replace (2 ^ Zpos p~0 * den) with (2 ^ Zpos p * (2 ^ Zpos p * den)); [exact H|].
    rewrite (Pos2Z.inj_xO p), Z.pow_mul_r by lia. change (2 ^ 2) with 4.
    replace (4 ^ Zpos p) with (2 ^ Zpos p * 2 ^ Zpos p); [ring|].
    rewrite <- Z.pow_mul_l. reflexivity.
  - apply shr_1_located in H. exact H.
Qed.

(** [shr] by [n] bits, none when [n <= 0]. *)
Lemma shr_located mrs e n num den :
  located mrs num den ->
  exists mrs', shr mrs e n = (mrs', e + Z.max n 0) /\
               located mrs' num (2 ^ Z.max n 0 * den).
Proof.
  intros H. destruct n as [|p|p]; cbn [shr].
  - exists mrs. rewrite Z.add_0_r. split; [reflexivity|].
    change (Z.max 0 0) with 0. now rewrite Z.pow_0_r, Z.mul_1_l.
  - exists (SpecFloat.iter_pos shr_1 p mrs). rewrite Z.max_l by lia. split; [reflexivity|].
    now apply iter_shr_1_located.
  - exists mrs. rewrite Z.max_r by lia. rewrite Z.add_0_r. split; [reflexivity|].
    now rewrite Z.pow_0_r, Z.mul_1_l.
Qed.

(** Rounding to nearest, ties to even, moves by at most half a unit. *)
Lemma round_located mrs num den :
  located mrs num den ->
  let m := round_nearest_even (shr_m mrs) (loc_of_shr_record mrs) in
  2 * Z.abs (m * den - num) <= den /\ shr_m mrs <= m <= shr_m mrs + 1.
Proof.
  destruct mrs as [m r s]. unfold located. cbn [shr_m shr_r shr_s].
  intros (Hd & Hm & H).
  destruct r, s; cbn [loc_of_shr_record round_nearest_even]; try lia.
  destruct (Z.even m); lia.
Qed.

Lemma record_of_loc_exact m : 0 <= m -> located (shr_record_of_loc m loc_Exact) m 1.
Proof. intros Hm. unfold located. cbn. lia. Qed.

(** The number of binary digits of a nonnegative integer. *)
Lemma Zdigits2_zero_or m :
  0 <= m -> (m = 0 /\ Zdigits2 m = 0) \/
            (0 < Zdigits2 m /\ 2 ^ (Zdigits2 m - 1) <= m < 2 ^ Zdigits2 m).
Proof.
  intros Hm. destruct m as [|p|p]; [left; split; reflexivity| |lia].
  right. cbn [Zdigits2]. rewrite digits2_log2.
  pose proof (Z.log2_nonneg (Zpos p)).
  pose proof (Z.log2_spec (Zpos p) ltac:(lia)) as Hs.
  replace (Z.log2 (Zpos p) + 1 - 1) with (Z.log2 (Zpos p)) by lia.
  replace (Z.log2 (Zpos p) + 1) with (Z.succ (Z.log2 (Zpos p))) by lia.
  split; [lia|exact Hs].
Qed.

Lemma Zdigits2_below m k : 0 <= m < 2 ^ k -> 0 <= k -> Zdigits2 m <= k.
Proof.
  intros Hm Hk. destruct (Zdigits2_zero_or m ltac:(lia)) as [(_ & ->)|(Hd & Hlo & _)];
    [assumption|].
  destruct (Z.le_gt_cases (Zdigits2 m) k) as [|Hgt]; [assumption|].
  assert (2 ^ k <= 2 ^ (Zdigits2 m - 1)) by (apply Z.pow_le_mono_r; lia). lia.
Qed.

Lemma Zdigits2_succ m :
  0 <= m -> Zdigits2 (m + 1) = Zdigits2 m \/
            (Zdigits2 (m + 1) = Zdigits2 m + 1 /\ m + 1 = 2 ^ Zdigits2 m).
Proof.
  intros Hm.
  assert (Hd : 0 <= Zdigits2 m).
  { destruct (Zdigits2_zero_or m Hm) as [(_ & ->)|(? & _)]; lia. }
  destruct (Zdigits2_zero_or m Hm) as [(-> & _)|(_ & Hlo & Hhi)];
    [right; split; reflexivity|].
  destruct (Zdigits2_zero_or (m + 1) ltac:(lia)) as [(? & _)|(_ & Hlo' & Hhi')]; [lia|].
  destruct (Z.lt_trichotomy (Zdigits2 (m + 1)) (Zdigits2 m)) as [Hlt|[Heq|Hgt]].
  - assert (2 ^ Zdigits2 (m + 1) <= 2 ^ (Zdigits2 m - 1))
      by (apply Z.pow_le_mono_r; lia). lia.
  - now left.
  - right.
    assert (2 ^ Zdigits2 m <= 2 ^ (Zdigits2 (m + 1) - 1))
      by (apply Z.pow_le_mono_r; lia).
    assert (Hm1 : m + 1 = 2 ^ Zdigits2 m) by lia. split; [|exact Hm1].
    destruct (Z.lt_trichotomy (Zdigits2 (m + 1)) (Zdigits2 m + 1)) as [|[|Hgt']];
      [lia|assumption|].
    assert (2 ^ (Zdigits2 m + 1) <= 2 ^ (Zdigits2 (m + 1) - 1))
      by (apply Z.pow_le_mono_r; lia).
    rewrite Z.pow_add_r in * by lia. lia.
Qed.

Lemma fexp_unfold prec emax e :
  fexp prec emax e = Z.max (e - prec) (3 - emax - prec).
Proof. reflexivity. Qed.

(** After rounding, at most one more shift, and then of an even mantissa. *)
Lemma second_shift prec emax m1 m2 e1 :
  0 < prec -> 0 <= m1 -> m1 <= m2 <= m1 + 1 ->
  fexp prec emax (Zdigits2 m1 + e1) <= e1 ->
  fexp prec emax (Zdigits2 m2 + e1) - e1 <= 0 \/
  (fexp prec emax (Zdigits2 m2 + e1) - e1 = 1 /\ exists h, m2 = 2 * h).
Proof.
  intros Hp Hm1 Hm2. rewrite !fexp_unfold. intros Hf.
  assert (m2 = m1 \/ m2 = m1 + 1) as [->| ->] by lia; [left; lia|].
  destruct (Zdigits2_succ m1 Hm1) as [->|(-> & Hpow)]; [left; lia|].
  destruct (Zdigits2_zero_or m1 Hm1) as [(-> & Hd0)|(Hd & _)].
  - left. rewrite Hd0 in *. lia.
  - destruct (Z.le_gt_cases (Z.max (Zdigits2 m1 + 1 + e1 - prec) (3 - emax - prec) - e1) 0);
      [now left|right].
    split; [lia|]. exists (2 ^ (Zdigits2 m1 - 1)). rewrite Hpow.
    replace (Zdigits2 m1) with (Z.succ (Zdigits2 m1 - 1)) at 1 by lia.
    rewrite Z.pow_succ_r by lia. reflexivity.
Qed.

(** After the first shift the mantissa fits the format at its exponent. *)
Lemma first_shift prec emax mx ex lx mrs num den :
  0 < prec ->
  located (shr_record_of_loc mx lx) num den ->
  located mrs num (2 ^ Z.max (fexp prec emax (Zdigits2 mx + ex) - ex) 0 * den) ->
  fexp prec emax
    (Zdigits2 (shr_m mrs) + (ex + Z.max (fexp prec emax (Zdigits2 mx + ex) - ex) 0))
  <= ex + Z.max (fexp prec emax (Zdigits2 mx + ex) - ex) 0.
Proof.
  intros Hp H0 H1.
  assert (Hmx : shr_m (shr_record_of_loc mx lx) = mx) by (now destruct lx as [|[]]).
  pose proof (located_floor _ _ _ H0) as F0. rewrite Hmx in F0.
  pose proof (located_floor _ _ _ H1) as F1.
  destruct H0 as (Hden & Hmx0 & _). rewrite Hmx in Hmx0.
  destruct H1 as (_ & Hm1 & _).
  set (n := fexp prec emax (Zdigits2 mx + ex) - ex) in *.
  destruct (Z.max_spec n 0) as [(Hn & Hmax)|(Hn & Hmax)]; rewrite Hmax in *.
  - (* no shift *)
    rewrite Z.pow_0_r, Z.mul_1_l in F1.
    assert (shr_m mrs = mx) as -> by nia.
    rewrite Z.add_0_r. unfold n in Hn. lia.
  - (* a shift by n > 0 *)
    assert (Hpos : 0 < 2 ^ n) by (apply Z.pow_pos_nonneg; lia).
    assert (Hle : shr_m mrs * 2 ^ n <= mx) by nia.
    unfold n. rewrite !fexp_unfold. fold (fexp prec emax (Zdigits2 mx + ex)).
    pose proof (fexp_unfold prec emax (Zdigits2 mx + ex)) as Hfe.
    destruct (Zdigits2_zero_or (shr_m mrs) Hm1) as [(_ & ->)|(Hd1 & Hlo1 & _)];
      [unfold n in *; lia|].
    destruct (Zdigits2_zero_or mx Hmx0) as [(-> & _)|(Hd & _ & Hhi)]; [nia|].
    assert (Hdd : Zdigits2 (shr_m mrs) + n <= Zdigits2 mx).
    { destruct (Z.le_gt_cases (Zdigits2 (shr_m mrs) + n) (Zdigits2 mx)) as [|Hgt];
        [assumption|].
      assert (2 ^ Zdigits2 mx <= 2 ^ (Zdigits2 (shr_m mrs) - 1 + n))
        by (apply Z.pow_le_mono_r; lia).
      rewrite Z.pow_add_r in * by lia. nia. }
    unfold n in *. lia.
Qed.

(** The value a finite result of [binary_round_aux] has: within half a
    unit in the last place of the located number [num / den * 2^ex]. *)
Lemma binary_round_aux_located prec emax s mx ex lx num den s' m' e' :
  0 < prec ->
  located (shr_record_of_loc mx lx) num den ->
  binary_round_aux prec emax s mx ex lx = S754_finite s' m' e' ->
  s' = s /\
  exists T, 0 <= T /\ e' = ex + T /\
            2 * Z.abs (Zpos m' * 2 ^ T * den - num) <= 2 ^ T * den /\
            T <= Z.max (fexp prec emax (Zdigits2 mx + ex) - ex) 0 + 1.
Proof.
  intros Hp H0. unfold binary_round_aux, shr_fexp.
  set (n := fexp prec emax (Zdigits2 mx + ex) - ex).
  destruct (shr_located _ ex n _ _ H0) as (mrs1 & E1 & L1). rewrite E1.
  pose proof (first_shift prec emax mx ex lx mrs1 num den Hp H0 L1) as Hf. fold n in Hf.
  pose proof (round_located _ _ _ L1) as (Hr & Hm2). cbv zeta in Hr, Hm2.
  set (m2 := round_nearest_even (shr_m mrs1) (loc_of_shr_record mrs1)) in *.
  set (e1 := ex + Z.max n 0) in *.
  assert (Hm1 : 0 <= shr_m mrs1) by apply L1.
  assert (L2 : located (shr_record_of_loc m2 loc_Exact) m2 1)
    by (apply record_of_loc_exact; lia).
  set (n2 := fexp prec emax (Zdigits2 m2 + e1) - e1).
  destruct (shr_located _ e1 n2 _ _ L2) as (mrs3 & E3 & L3). rewrite E3.
  pose proof (located_floor _ _ _ L3) as F3.
  assert (Hpn : 0 < 2 ^ Z.max n 0) by (apply Z.pow_pos_nonneg; lia).
  assert (Hden : 0 < den) by apply H0.
  destruct (shr_m mrs3) as [|m3|m3] eqn:Em3; [discriminate| |discriminate].
  destruct (e1 + Z.max n2 0 <=? emax - prec); [|discriminate].
  intros [= <- <- <-]. split; [reflexivity|].
  exists (Z.max n 0 + Z.max n2 0). split; [lia|]. split; [unfold e1; lia|].
  rewrite Z.pow_add_r by lia.
  destruct (second_shift prec emax (shr_m mrs1) m2 e1 Hp Hm1 Hm2 Hf) as [Hn2|(Hn2 & h & Hh)];
    fold n2 in Hn2.
  - replace (Z.max n2 0) with 0 in * by lia. rewrite Z.pow_0_r in *.
    assert (Zpos m3 = m2) as -> by lia.
    replace (m2 * (2 ^ Z.max n 0 * 1) * den) with (m2 * (2 ^ Z.max n 0 * den)) by ring.
    lia.
  - rewrite Hn2 in *. change (Z.max 1 0) with 1 in *. change (2 ^ 1) with 2 in *.
    assert (Zpos m3 = h) as -> by lia.
    replace (h * (2 ^ Z.max n 0 * 2) * den) with (m2 * (2 ^ Z.max n 0 * den))
      by (rewrite Hh; ring).
    split; [nia|lia].
Qed.








End Rounding.

(** ** Exact quotients, and the number of levels up to 2^30 equations *)

Section ExactQuotient.
Import IEEE.
#[local] Existing Instance binary32.





(** Up to 2^30 equations [pcr] runs at most 30 levels, so that every row
    index [i + stride] is an [int]. *)
Lemma binary32_levels_upto (n : Z) :
  1 <= n <= 2 ^ 30 -> 0 <= total_levels_of n <= 30.
Proof.
  intros Hn. destruct (Z.le_gt_cases n (2 ^ 24)) as [Hle|Hgt].
  { rewrite binary32_total_levels by lia.
    pose proof (Z.log2_up_nonneg n).
    assert (Z.log2_up n <= 24) by (apply Z.log2_up_le_pow2; lia). lia. }
  destruct n as [|p|p]; try lia.
  unfold total_levels_of. cbn [binary32 f_of_size size_ceil_log2].
  unfold f32_of_Z, binary_normalize, binary_round, shl_align.
  assert (Hd : 25 <= Zpos (digits2_pos p) <= 31).
  { destruct (Zdigits2_zero_or (Zpos p) ltac:(lia)) as [(? & _)|(_ & Hlo & Hhi)]; [lia|].
    cbn [Zdigits2] in Hlo, Hhi. split.
    - destruct (Z.le_gt_cases 25 (Zpos (digits2_pos p))) as [|Hlt]; [assumption|].
      assert (2 ^ Zpos (digits2_pos p) <= 2 ^ 24) by (apply Z.pow_le_mono_r; lia). lia.
    - destruct (Z.le_gt_cases (Zpos (digits2_pos p)) 31) as [|Hlt]; [assumption|].
      assert (2 ^ 31 <= 2 ^ (Zpos (digits2_pos p) - 1)) by (apply Z.pow_le_mono_r; lia).
      lia. }
  assert (Hf : fexp 24 128 (Zpos (digits2_pos p) + 0) = Zpos (digits2_pos p) - 24)
    by (rewrite fexp_unfold; lia).
  rewrite Hf.
  destruct (Zpos (digits2_pos p) - 24 - 0) as [|k|k] eqn:Ek; [lia| |lia].
  destruct (binary_round_aux 24 128 false (Zpos p) 0 loc_Exact)
    as [| | |s m e] eqn:E; cbn [ceil_log2]; try lia.
  apply (binary_round_aux_located 24 128 _ _ _ _ (Zpos p) 1) in E;
    [|lia|apply record_of_loc_exact; lia].
  destruct E as (-> & T & HT & -> & Hb & HTle).
  cbn [Zdigits2] in HTle. rewrite Hf in HTle.
  pose proof (Z.log2_up_nonneg (Zpos m)).
  split; [lia|].
  assert (HT8 : T <= 8) by lia.
  assert (Hm : Zpos m <= 2 ^ (30 - T)).
  { assert (Hsplit : 2 ^ 30 = 2 ^ (30 - T) * 2 ^ T)
      by (rewrite <- Z.pow_add_r by lia; f_equal; lia).
    assert (0 < 2 ^ T) by (apply Z.pow_pos_nonneg; lia).
    assert (0 < 2 ^ (30 - T)) by (apply Z.pow_pos_nonneg; lia).
    rewrite Z.mul_1_r in Hb. nia. }
  apply Z.log2_up_le_pow2 in Hm; lia.
Qed.

Lemma binary32_levels_fit_upto (n j : Z) :
  1 <= n <= 2 ^ 30 -> 0 <= j < total_levels_of n -> n + 2 ^ j <= 2 ^ 31.
Proof.
  intros Hn Hj. pose proof (binary32_levels_upto n Hn).
  assert (2 ^ j <= 2 ^ 29) by (apply Z.pow_le_mono_r; lia). lia.
Qed.

End ExactQuotient.

(** ** The decoupled case in binary32 *)

Section DecoupledBinary32.
Import IEEE.
#[local] Existing Instance binary32.
#[local] Abbreviation state := (@state spec_float).
#[local] Abbreviation sle_view := (@sle_view spec_float).
#[local] Abbreviation coeffs := (@coeffs spec_float).






















End DecoupledBinary32.

(** ** The theorems at the concrete systems *)

Section IEEEInstances.
Import IEEE Examples.
#[local] Existing Instance binary32.

Lemma update_step_rows_witness :
  let a := vals Fa view2 in let b := vals Fb view2 in
  let c := vals Fc view2 in let d := vals Fd view2 in
  let S := 2 ^ 0 in
  exists s' a' b' c' d',
    update_step (Ptr 1) (Ptr (qa step_scratch)) (Ptr (qb step_scratch))
                (Ptr (qc step_scratch)) (Ptr (qd step_scratch)) 0 step_state
      = Ok 0 s' /\
    read_sle s' (Ptr 1) = Some view2 /\
    floats s' !! qa step_scratch = Some a' /\
    floats s' !! qb step_scratch = Some b' /\
    floats s' !! qc step_scratch = Some c' /\
    floats s' !! qd step_scratch = Some d' /\
    forall i, 0 <= i < 2 ->
      let alpha := guarded_div (fneg (idx a i)) (main_at b 2 (i - S)) in
      let gamma := guarded_div (fneg (idx c i)) (main_at b 2 (i + S)) in
      idx a' i = fmul alpha (off_at a 2 (i - S)) /\
      idx c' i = fmul gamma (off_at c 2 (i + S)) /\
      idx b' i = fadd (fadd (idx b i) (fmul alpha (off_at c 2 (i - S))))
                      (fmul gamma (off_at a 2 (i + S))) /\
      idx d' i = fadd (fadd (idx d i) (fmul alpha (off_at d 2 (i - S))))
                      (fmul gamma (off_at d 2 (i + S))).
Proof.
  apply (update_step_rows step_state (Ptr 1) view2 2 0 step_scratch
           (Coeffs [fl 0; fl 0] [fl 0; fl 0] [fl 0; fl 0] [fl 0; fl 0])).
  - reflexivity.
  - repeat split.
  - reflexivity.
  - reflexivity.
  - reflexivity.
  - reflexivity.
  - repeat split.
  - apply (bool_decide_unpack _). vm_compute. exact I.
  - lia.
  - lia.
  - lia.
Defined.

Lemma triSLE_validate_maxrel_spec_witness :
  let r := residual (vals Fa view2) (vals Fb view2) (vals Fc view2)
                    (vals Fx view2) 2 in
  let result := spec_maxrel (vals Fa view2) (vals Fb view2) (vals Fc view2)
                            (vals Fd view2) (vals Fx view2) 2 in
  triSLE_validate_maxrel (Ptr 1) (Ptr 1) (world []) = Ok result (world []) /\
  (forall i, 0 <= i < 2 -> is_nan (r i) = true ->
     is_nan result = true /\
     exists j, 0 <= j <= i /\ result = r j /\
               forall k, 0 <= k < j -> is_nan (r k) = false).
Proof.
  apply (triSLE_validate_maxrel_spec (world []) (Ptr 1) (Ptr 1) view2 view2 2).
  - reflexivity.
  - reflexivity.
  - repeat split.
  - reflexivity.
  - lia.
Defined.

Lemma triSLE_validate_mape_spec_witness :
  triSLE_validate_mape (Ptr 1) (Ptr 1) (world [])
    = Ok (spec_mape (vals Fa view2) (vals Fb view2) (vals Fc view2)
            (vals Fd view2) (vals Fx view2) 2) (world []).
Proof.
  apply (triSLE_validate_mape_spec (world []) (Ptr 1) (Ptr 1) view2 view2 2).
  - exact binary32_abs_quotient.
  - reflexivity.
  - reflexivity.
  - repeat split.
  - reflexivity.
  - lia.
Defined.

Lemma pcr_allocation_failure_witness :
  exists s',
    pcr (Ptr 1) (world [Some junk0; None; Some junk0; Some junk0]) = Ok (-1) s' /\
    read_sle s' (Ptr 1) = Some view2 /\
    sles s' = sles (world [Some junk0; None; Some junk0; Some junk0]) /\
    diags s' = diags (world [Some junk0; None; Some junk0; Some junk0]) /\
    floats s' = floats (world [Some junk0; None; Some junk0; Some junk0]).
Proof.
  apply (pcr_allocation_failure
           (world [Some junk0; None; Some junk0; Some junk0]) (Ptr 1) view2).
  - reflexivity.
  - discriminate.
  - intros (j1 & j2 & j3 & j4 & rest & H). discriminate H.
Defined.

Lemma pcr_single_equation_witness :
  total_levels_of 1 = 0 /\
  exists s',
    pcr (Ptr 11) (world four_ok) = Ok 0 s' /\
    read_sle s' (Ptr 11)
    = Some (with_contents view1 (coeffs_of view1)
              [SFdiv 24 128 (idx (vals Fd view1) 0) (idx (vals Fb view1) 0)]).
Proof.
  apply (pcr_single_equation (world four_ok) (Ptr 11) view1
           junk0 junk0 junk0 junk0 []).
  - reflexivity.
  - repeat split.
  - apply (bool_decide_unpack _). vm_compute. exact I.
  - apply (bool_decide_unpack _). vm_compute. exact I.
  - reflexivity.
Defined.

Lemma validators_of_empty_system_ieee_witness :
  triSLE_validate_mape (Ptr 1) (Ptr 31) (world []) = Ok S754_nan (world []) /\
  triSLE_validate_maxrel (Ptr 1) (Ptr 31) (world [])
    = Ok (S754_zero false) (world []).
Proof.
  apply (validators_of_empty_system_ieee (world []) (Ptr 1) (Ptr 31) view0).
  - reflexivity.
  - reflexivity.
  - reflexivity.
Defined.


(** The run on the system above: [x[0]] is one unit in the last place above
    0.1f, [x[1]] and [x[2]] are 0.1f; [b] and [d] keep their values and the
    zeros of [a] and [c] come back with the signs of the products. *)
Example pcr_decoupled_tenth :
  exists s',
    pcr (Ptr 1) decoupled_tenth = Ok 0 s' /\
    floats s' !! 5%positive
      = Some [S754_finite false 13421774 (-27); tenth; tenth] /\
    floats s' !! 2%positive = Some [fl 13; fl 2; fl 3] /\
    floats s' !! 4%positive
      = Some [SFmul 24 128 tenth (fl 13); SFmul 24 128 tenth (fl 2);
              SFmul 24 128 tenth (fl 3)] /\
    (forall z, floats s' !! 1%positive = Some z -> forallb is_zero z = true) /\
    (forall z, floats s' !! 3%positive = Some z -> forallb is_zero z = true).
Proof.
  eexists. split; [vm_compute; reflexivity|].
  vm_compute. repeat split; try reflexivity; intros z [= <-]; reflexivity.
Qed.

End IEEEInstances.

(** ** diagonal.c, sle.c: creation and destruction *)

Ltac heap_simpl :=
  cbv beta iota delta [set_allocator set_floats set_diags set_sles
                       sles diags floats allocator dg_n dg_data].

Section LifecycleProofs.
Context {float double : Type} {AR : CArith float double}.
#[local] Abbreviation state := (@state float).
#[local] Abbreviation sle_view := (@sle_view float).
#[local] Abbreviation vec_view := (@vec_view float).
#[local] Abbreviation M := (@M float).
Implicit Types (s : state) (V : sle_view).

Lemma calloc_floats_ok s n j rest :
  allocator s = Some j :: rest -> 0 <= n <= INT_MAX ->
  calloc_floats (to_size n) sizeof_float s
  = Ok (Ptr (fresh_addr (floats s)))
       (set_allocator rest
          (set_floats (insert (fresh_addr (floats s)) (replicate (Z.to_nat n) f_0)) s)).
Proof.
  intros Hal Hn. unfold INT_MAX in Hn. unfold calloc_floats, sizeof_float.
  rewrite to_size_small by lia.
  destruct (Z.leb_spec (2 ^ 64) (n * 4)); [lia|]. now rewrite Hal.
Qed.

Lemma calloc_floats_negative s n :
  - 2 ^ 31 <= n < 0 -> calloc_floats (to_size n) sizeof_float s = Ok NULL s.
Proof.
  intros Hn. unfold calloc_floats, sizeof_float, to_size.
  replace (n mod 2 ^ 64) with (n + 2 ^ 64)
    by (apply Z.mod_unique with (-1); lia).
  destruct (Z.leb_spec (2 ^ 64) ((n + 2 ^ 64) * 4)); [reflexivity|lia].
Qed.

(** [diagonal_create] with both allocations granted. *)
Lemma diagonal_create_ok s n j1 j2 rest :
  allocator s = Some j1 :: Some j2 :: rest -> 0 <= n <= INT_MAX ->
  diagonal_create n s
  = Ok (0, Some (Ptr (fresh_addr (diags s))))
       (State (sles s)
          (<[fresh_addr (diags s) := Diagonal n (Ptr (fresh_addr (floats s)))]> (diags s))
          (<[fresh_addr (floats s) := replicate (Z.to_nat n) f_0]> (floats s))
          rest).
Proof.
  intros Hal Hn. destruct s as [sl dg fl al]. cbn [allocator] in Hal. subst al.
  unfold diagonal_create, bind, calloc_diag. cbn [allocator is_null].
  unfold set_diag_n. heap_simpl. rewrite lookup_insert_eq.
  rewrite (calloc_floats_ok _ n j2 rest) by first [reflexivity | assumption].
  unfold set_diag_data, diag_data. heap_simpl.
  rewrite lookup_insert_eq. heap_simpl. rewrite lookup_insert_eq.
  cbn [is_null]. unfold ret.
  rewrite !insert_insert_eq. unfold INT_MAX in Hn. rewrite to_size_small by lia.
  reflexivity.
Qed.

(** [diagonal_create] when the struct is granted and the buffer is not:
    the struct is released again. *)
Lemma diagonal_create_no_buffer s n j rest :
  allocator s = Some j :: rest ->
  - 2 ^ 31 <= n <= INT_MAX ->
  n < 0 \/ rest = [] \/ (exists rest', rest = None :: rest') ->
  exists al,
    diagonal_create n s = Ok (-1, None) (set_allocator al s) /\
    (al = rest \/ al = drop 1 rest).
Proof.
  intros Hal Hn Hno. destruct s as [sl dg fl al]. cbn [allocator] in Hal. subst al.
  pose proof (fresh_addr_fresh dg) as Hfresh.
  assert (Hdel : forall r, delete (fresh_addr dg) (<[fresh_addr dg := r]> dg) = dg).
  { intros r. rewrite delete_insert_eq. now apply delete_id. }
  unfold diagonal_create, bind, calloc_diag. cbn [allocator is_null].
  unfold set_diag_n. heap_simpl. rewrite lookup_insert_eq. heap_simpl.
  assert (Hc : exists al,
    calloc_floats (to_size n) sizeof_float
      (State sl (<[fresh_addr dg := Diagonal (to_size n) NULL]>
                   (<[fresh_addr dg := Diagonal 0 NULL]> dg)) fl rest)
    = Ok NULL (State sl (<[fresh_addr dg := Diagonal (to_size n) NULL]>
                   (<[fresh_addr dg := Diagonal 0 NULL]> dg)) fl al)
    /\ (al = rest \/ al = drop 1 rest)).
  { destruct (Z.ltb_spec n 0) as [Hneg|Hpos].
    - exists rest. split; [|now left]. apply calloc_floats_negative. lia.
    - destruct Hno as [?|[->|[rest' ->]]]; [lia| |].
      + exists []. split; [|now left]. unfold calloc_floats.
        now destruct (2 ^ 64 <=? to_size n * sizeof_float).
      + exists rest'. split; [|now right]. unfold calloc_floats, sizeof_float.
        unfold INT_MAX in Hn. rewrite to_size_small by lia.
        destruct (Z.leb_spec (2 ^ 64) (n * 4)); [lia|reflexivity]. }
  destruct Hc as (al & -> & Hal). exists al. split; [|exact Hal].
  unfold set_diag_data, diag_data, diagonal_create_error, bind, diag_data.
  heap_simpl. rewrite lookup_insert_eq. heap_simpl. rewrite lookup_insert_eq.
  cbn [is_null]. rewrite lookup_insert_eq. heap_simpl. cbn [is_null].
  unfold ret, free_diag. heap_simpl. rewrite lookup_insert_eq. heap_simpl.
  rewrite !insert_insert_eq, Hdel. reflexivity.
Qed.

(** [diagonal_create] when the struct is not granted: the error path reads
    [d->data] through the null [d]. *)
Lemma diagonal_create_no_struct s n :
  allocator s = [] \/ (exists rest, allocator s = None :: rest) ->
  diagonal_create n s = Fault.
Proof.
  intros [Hal|[rest Hal]]; unfold diagonal_create, bind, calloc_diag; now rewrite Hal.
Qed.

End LifecycleProofs.

Section DestroyProofs.
Context {float double : Type} {AR : CArith float double}.
#[local] Abbreviation state := (@state float).
#[local] Abbreviation sle_view := (@sle_view float).
#[local] Abbreviation vec_view := (@vec_view float).
#[local] Abbreviation M := (@M float).
Implicit Types (s : state) (V : sle_view).

(** [diagonal_destroy] touches neither the system structs nor the
    allocator. *)
Lemma diagonal_destroy_sles s p z s' :
  diagonal_destroy p s = Ok z s' -> sles s' = sles s /\ allocator s' = allocator s.
Proof.
  destruct s as [sl dg fl al].
  unfold diagonal_destroy, bind, diag_data, free_floats, set_diag_data, free_diag, ret.
  destruct p as [|l]; [discriminate|]. heap_simpl.
  destruct (dg !! l) as [[n [|b]]|] eqn:Ed; [| |discriminate]; cbn [is_null]; heap_simpl.
  - rewrite Ed. intros [= <- <-]. now split.
  - destruct (fl !! b); [|discriminate]. heap_simpl. rewrite Ed. heap_simpl.
    rewrite lookup_insert_eq. intros [= <- <-]. now split.
Qed.

Lemma read_vec_without s p (v w : vec_view) :
  read_vec s p = Some v -> vv_diag v <> vv_diag w -> vv_buf v <> vv_buf w ->
  read_vec (without_vec w s) p = Some v.
Proof.
  intros (-> & Hd & Hb)%read_vec_Some Hnd Hnb.
  unfold read_vec, without_vec. cbn [set_diags set_floats diags floats].
  rewrite lookup_delete_ne by congruence. rewrite Hd.
  rewrite lookup_delete_ne by congruence. rewrite Hb. now destruct v.
Qed.

Lemma diagonal_destroy_without s p (v : vec_view) :
  read_vec s p = Some v -> diagonal_destroy p s = Ok 0 (without_vec v s).
Proof. apply diagonal_destroy_live. Qed.

(** [triSLE_destroy] on a live system whose vectors share nothing. *)
Lemma triSLE_destroy_live s l V :
  read_sle s (Ptr l) = Some V -> NoDup (diags_of V) -> NoDup (bufs_of V) ->
  triSLE_destroy (Ptr l) s = Ok 0 (without_sle l V s).
Proof.
  intros HV Hdd Hbd.
  apply read_sle_Some in HV as (l' & r & [= <-] & Hl & Hf).
  pose proof (Hf Fa) as Ha. pose proof (Hf Fb) as Hb. pose proof (Hf Fc) as Hc.
  pose proof (Hf Fd) as Hd. pose proof (Hf Fx) as Hx. clear Hf.
  cbn [get_field view_of] in *.
  unfold diags_of in Hdd. unfold bufs_of, buf in Hbd. cbn [view_of] in Hbd.
  nodup_facts Hdd. nodup_facts Hbd.
  unfold triSLE_destroy, bind. cbn [is_null].
  unfold sle_field at 1. rewrite Hl. cbn [get_field].
  rewrite (diagonal_destroy_without _ _ _ Ha).
  unfold sle_field at 1. change (sles (without_vec _ ?st)) with (sles st).
  rewrite Hl. cbn [get_field].
  rewrite (diagonal_destroy_without _ _ (view_b V))
    by (apply read_vec_without; auto).
  unfold sle_field at 1. change (sles (without_vec _ ?st)) with (sles st).
  change (sles (without_vec _ ?st)) with (sles st).
  rewrite Hl. cbn [get_field].
  rewrite (diagonal_destroy_without _ _ (view_c V))
    by (repeat apply read_vec_without; auto).
  unfold sle_field at 1. repeat change (sles (without_vec _ ?st)) with (sles st).
  rewrite Hl. cbn [get_field].
  rewrite (diagonal_destroy_without _ _ (view_d V))
    by (repeat apply read_vec_without; auto).
  unfold sle_field at 1. repeat change (sles (without_vec _ ?st)) with (sles st).
  rewrite Hl. cbn [get_field].
  rewrite (diagonal_destroy_without _ _ (view_x V))
    by (repeat apply read_vec_without; auto).
  unfold free_sle. repeat change (sles (without_vec _ ?st)) with (sles st).
  rewrite Hl. reflexivity.
Qed.

(** What is left after [without_sle], key by key. *)
Lemma without_sle_diags l V s k :
  diags (without_sle l V s) !! k
  = if bool_decide (k ∈ diags_of V) then None else diags s !! k.
Proof.
  unfold without_sle, without_vec, diags_of. cbn [set_sles set_diags set_floats diags].
  rewrite !lookup_delete. case_bool_decide as Hk.
  - rewrite !elem_of_cons in Hk. repeat case_decide; try reflexivity.
    exfalso. destruct Hk as [|[|[|[|[|Hk]]]]]; try congruence.
    now apply elem_of_nil in Hk.
  - rewrite !not_elem_of_cons in Hk. destruct Hk as (? & ? & ? & ? & ? & _).
    repeat case_decide; congruence.
Qed.

Lemma without_sle_floats l V s k :
  floats (without_sle l V s) !! k
  = if bool_decide (k ∈ bufs_of V) then None else floats s !! k.
Proof.
  unfold without_sle, without_vec, bufs_of, buf.
  cbn [set_sles set_diags set_floats floats view_of].
  rewrite !lookup_delete. case_bool_decide as Hk.
  - rewrite !elem_of_cons in Hk. repeat case_decide; try reflexivity.
    exfalso. destruct Hk as [|[|[|[|[|Hk]]]]]; try congruence.
    now apply elem_of_nil in Hk.
  - rewrite !not_elem_of_cons in Hk. destruct Hk as (? & ? & ? & ? & ? & _).
    repeat case_decide; congruence.
Qed.

(** A system with a null vector cannot be destroyed: the vectors before it
    are released, then [diagonal_destroy] reads through the null pointer. *)
Lemma triSLE_destroy_null_field s l r f :
  sles s !! l = Some r -> get_field f r = NULL ->
  triSLE_destroy (Ptr l) s = Fault.
Proof.
  intros Hl Hf. unfold triSLE_destroy. cbn [is_null].
  assert (Hstep : forall g (k : M Z) st, sles st = sles s ->
     (get_field g r = NULL \/ forall st', sles st' = sles s -> k st' = Fault) ->
     (a <- sle_field g (Ptr l) ;; diagonal_destroy a ;;; k) st = Fault).
  { intros g k st Hst Hcase. unfold bind, sle_field. rewrite Hst, Hl.
    destruct Hcase as [Hg|Hk].
    - rewrite Hg. reflexivity.
    - destruct (diagonal_destroy (get_field g r) st) as [z st'|] eqn:E; [|reflexivity].
      apply Hk. apply diagonal_destroy_sles in E as [-> _]. exact Hst. }
  destruct f;
    repeat (apply Hstep;
            [first [reflexivity|assumption]
            |first [left; exact Hf | right; intros ? ?]]).
Qed.

(** A destroyed system is dangling: destroying it again is undefined. *)
Lemma triSLE_destroy_dangling s l : sles s !! l = None -> triSLE_destroy (Ptr l) s = Fault.
Proof.
  intros Hl. unfold triSLE_destroy, bind, sle_field. cbn [is_null]. now rewrite Hl.
Qed.

End DestroyProofs.

Section CreateProofs.
Context {float double : Type} {AR : CArith float double}.
#[local] Abbreviation state := (@state float).
#[local] Abbreviation sle_view := (@sle_view float).
#[local] Abbreviation vec_view := (@vec_view float).
#[local] Abbreviation M := (@M float).
Implicit Types (s : state) (V : sle_view).

Lemma create_field_ok sl dg fl l r f n j1 j2 rest :
  sl !! l = Some r -> 0 <= n <= INT_MAX ->
  create_field f (Ptr l) n (State sl dg fl (Some j1 :: Some j2 :: rest))
  = Ok 0 (State (<[l := put_field f r (Ptr (fresh_addr dg))]> sl)
                (<[fresh_addr dg := Diagonal n (Ptr (fresh_addr fl))]> dg)
                (<[fresh_addr fl := replicate (Z.to_nat n) f_0]> fl)
                rest).
Proof.
  intros Hl Hn. unfold create_field, bind.
  rewrite (diagonal_create_ok (State sl dg fl (Some j1 :: Some j2 :: rest)) n j1 j2 rest eq_refl Hn).
  cbv beta iota delta [snd fst sles diags floats allocator].
  unfold set_sle_field. cbv beta iota delta [sles]. rewrite Hl. reflexivity.
Qed.

Lemma create_field_no_buffer s l f n j rest :
  allocator s = Some j :: rest ->
  - 2 ^ 31 <= n <= INT_MAX ->
  n < 0 \/ rest = [] \/ (exists rest', rest = None :: rest') ->
  exists al, create_field f (Ptr l) n s = Ok (-1) (set_allocator al s).
Proof.
  intros Hal Hn Hno.
  destruct (diagonal_create_no_buffer s n j rest Hal Hn Hno) as (al & E & _).
  exists al. unfold create_field, bind. rewrite E. reflexivity.
Qed.

Lemma create_field_no_struct s l f n :
  allocator s = [] \/ (exists rest, allocator s = None :: rest) ->
  create_field f (Ptr l) n s = Fault.
Proof.
  intros Hal. unfold create_field, bind. now rewrite diagonal_create_no_struct.
Qed.

(** [triSLE_create] with its eleven allocations granted. *)
Lemma triSLE_create_ok s n j0 j1 j2 j3 j4 j5 j6 j7 j8 j9 j10 rest :
  allocator s = Some j0 :: Some j1 :: Some j2 :: Some j3 :: Some j4 :: Some j5
                :: Some j6 :: Some j7 :: Some j8 :: Some j9 :: Some j10 :: rest ->
  0 <= n <= INT_MAX ->
  exists l V,
    triSLE_create n s = Ok (0, Some (Ptr l)) (set_allocator rest (place_sle l V s)) /\
    unused l V s /\ NoDup (diags_of V) /\ NoDup (bufs_of V) /\ zeroed n V.
Proof.
  intros Hal Hn. destruct s as [sl dg fl al].
  cbv beta iota delta [allocator] in Hal. subst al.
  unfold triSLE_create, calloc_sle, bind. heap_simpl.
  cbv beta iota delta [is_null].
  assert (Hz : negb (0 =? 0) = false) by reflexivity.
  pose proof (fresh_addr_fresh sl) as Hl. set (l := fresh_addr sl) in *. clearbody l.
  rewrite (create_field_ok _ _ _ l _ Fa n j1 j2 _ (lookup_insert_eq _ _ _) Hn).
  rewrite Hz, insert_insert_eq. cbv beta iota delta [put_field sle_a sle_b sle_c sle_d sle_x].
  name_fresh.
  rewrite (create_field_ok _ _ _ l _ Fb n j3 j4 _ (lookup_insert_eq _ _ _) Hn).
  rewrite Hz, insert_insert_eq. cbv beta iota delta [put_field sle_a sle_b sle_c sle_d sle_x].
  name_fresh.
  rewrite (create_field_ok _ _ _ l _ Fc n j5 j6 _ (lookup_insert_eq _ _ _) Hn).
  rewrite Hz, insert_insert_eq. cbv beta iota delta [put_field sle_a sle_b sle_c sle_d sle_x].
  name_fresh.
  rewrite (create_field_ok _ _ _ l _ Fd n j7 j8 _ (lookup_insert_eq _ _ _) Hn).
  rewrite Hz, insert_insert_eq. cbv beta iota delta [put_field sle_a sle_b sle_c sle_d sle_x].
  name_fresh.
  rewrite (create_field_ok _ _ _ l _ Fx n j9 j10 _ (lookup_insert_eq _ _ _) Hn).
  rewrite Hz, insert_insert_eq. cbv beta iota delta [put_field sle_a sle_b sle_c sle_d sle_x].
  name_fresh.
  exists l, (SleView (VecView t n t0 (zeros n)) (VecView t1 n t2 (zeros n))
                     (VecView t3 n t4 (zeros n)) (VecView t5 n t6 (zeros n))
                     (VecView t7 n t8 (zeros n))).
  split; [reflexivity|]. split; [|split; [|split]].
  - unfold unused, diags_of, bufs_of, buf.
    cbn [sles diags floats view_of view_a view_b view_c view_d view_x vv_diag vv_buf].
    split; [assumption|]. split; intros k Hk;
      repeat (apply elem_of_cons in Hk as [->|Hk]); try assumption;
      now apply elem_of_nil in Hk.
  - unfold diags_of. cbn [view_a view_b view_c view_d view_x vv_diag].
    repeat (apply NoDup_cons; split;
            [rewrite ?not_elem_of_cons; repeat split;
             first [congruence | apply not_elem_of_nil]|]).
    apply NoDup_nil_2.
  - unfold bufs_of, buf. cbn [view_of view_a view_b view_c view_d view_x vv_buf].
    repeat (apply NoDup_cons; split;
            [rewrite ?not_elem_of_cons; repeat split;
             first [congruence | apply not_elem_of_nil]|]).
    apply NoDup_nil_2.
  - intros []; split; reflexivity.
Qed.

End CreateProofs.

Section PlaceProofs.
Context {float double : Type} {AR : CArith float double}.
#[local] Abbreviation state := (@state float).
#[local] Abbreviation sle_view := (@sle_view float).
#[local] Abbreviation vec_view := (@vec_view float).
#[local] Abbreviation M := (@M float).
Implicit Types (s : state) (V W : sle_view).

Lemma read_vec_place_same s (v : vec_view) :
  read_vec (place_vec v s) (Ptr (vv_diag v)) = Some v.
Proof.
  unfold read_vec, place_vec. cbn [set_floats set_diags diags floats].
  rewrite !lookup_insert_eq. now destruct v.
Qed.

Lemma read_vec_place_other s p (v w : vec_view) :
  read_vec s p = Some w -> vv_diag w <> vv_diag v -> vv_buf w <> vv_buf v ->
  read_vec (place_vec v s) p = Some w.
Proof.
  intros (-> & Hd & Hb)%read_vec_Some Hnd Hnb.
  unfold read_vec, place_vec. cbn [set_floats set_diags diags floats].
  rewrite lookup_insert_ne by congruence. rewrite Hd.
  rewrite lookup_insert_ne by congruence. rewrite Hb. now destruct w.
Qed.

Lemma read_vec_set_sles s g p : read_vec (set_sles g s) p = read_vec s p.
Proof. reflexivity. Qed.

(** A system put into memory reads back. *)
Lemma read_sle_place s l V :
  NoDup (diags_of V) -> NoDup (bufs_of V) ->
  read_sle (place_sle l V s) (Ptr l) = Some V.
Proof.
  intros Hdd Hbd. unfold diags_of in Hdd. unfold bufs_of, buf in Hbd.
  cbn [view_of] in Hbd. nodup_facts Hdd. nodup_facts Hbd.
  unfold read_sle, place_sle.
  change (sles (set_sles ?g ?st)) with (g (sles st)). cbv beta.
  rewrite lookup_insert_eq, !read_vec_set_sles.
  unfold handles. cbn [sle_a sle_b sle_c sle_d sle_x].
  rewrite (read_vec_place_other _ _ _ (view_a V))
    by (try congruence;
        repeat first [apply read_vec_place_same
                     |apply read_vec_place_other; [|congruence|congruence]]).
  rewrite (read_vec_place_other _ _ _ (view_b V))
    by (try congruence;
        repeat first [apply read_vec_place_same
                     |apply read_vec_place_other; [|congruence|congruence]]).
  rewrite (read_vec_place_other _ _ _ (view_c V))
    by (try congruence;
        repeat first [apply read_vec_place_same
                     |apply read_vec_place_other; [|congruence|congruence]]).
  rewrite (read_vec_place_other _ _ _ (view_d V))
    by (try congruence;
        repeat first [apply read_vec_place_same
                     |apply read_vec_place_other; [|congruence|congruence]]).
  rewrite read_vec_place_same. now destruct V.
Qed.

Lemma read_vec_place_sle_other s p l V (w : vec_view) :
  read_vec s p = Some w -> unused l V s ->
  read_vec (place_sle l V s) p = Some w.
Proof.
  intros Hw (_ & Hd & Hb). pose proof Hw as (_ & Hwd & Hwb)%read_vec_Some.
  assert (Hnd : forall f, vv_diag w <> vv_diag (view_of f V)).
  { intros f E. rewrite E, Hd in Hwd; [discriminate|].
    unfold diags_of. destruct f; cbn [view_of]; rewrite !elem_of_cons; tauto. }
  assert (Hnb : forall f, vv_buf w <> vv_buf (view_of f V)).
  { intros f E. rewrite E, Hb in Hwb; [discriminate|].
    unfold bufs_of, buf. destruct f; cbn [view_of]; rewrite !elem_of_cons; tauto. }
  unfold place_sle. rewrite read_vec_set_sles.
  apply read_vec_place_other; [|apply (Hnd Fx)|apply (Hnb Fx)].
  apply read_vec_place_other; [|apply (Hnd Fd)|apply (Hnb Fd)].
  apply read_vec_place_other; [|apply (Hnd Fc)|apply (Hnb Fc)].
  apply read_vec_place_other; [|apply (Hnd Fb)|apply (Hnb Fb)].
  apply read_vec_place_other; [|apply (Hnd Fa)|apply (Hnb Fa)].
  exact Hw.
Qed.

(** Putting a system into unused memory leaves every other system as it
    was. *)
Lemma read_sle_place_other s p l V W :
  read_sle s p = Some W -> unused l V s ->
  read_sle (place_sle l V s) p = Some W.
Proof.
  intros HW Hun. pose proof Hun as (Hl & _).
  apply read_sle_Some in HW as (l' & r & -> & Hl' & Hf).
  assert (l' <> l) by congruence.
  unfold read_sle.
  replace (sles (place_sle l V s) !! l') with (Some r).
  2:{ unfold place_sle. change (sles (set_sles ?g ?st)) with (g (sles st)). cbv beta.
      rewrite lookup_insert_ne by congruence. symmetry. exact Hl'. }
  pose proof (read_vec_place_sle_other _ _ _ _ _ (Hf Fa) Hun) as Ha.
  pose proof (read_vec_place_sle_other _ _ _ _ _ (Hf Fb) Hun) as Hb.
  pose proof (read_vec_place_sle_other _ _ _ _ _ (Hf Fc) Hun) as Hc.
  pose proof (read_vec_place_sle_other _ _ _ _ _ (Hf Fd) Hun) as Hd.
  pose proof (read_vec_place_sle_other _ _ _ _ _ (Hf Fx) Hun) as Hx.
  cbn [get_field view_of] in Ha, Hb, Hc, Hd, Hx.
  rewrite Ha, Hb, Hc, Hd, Hx. now destruct W.
Qed.

Lemma place_sle_diags l V s k :
  k ∉ diags_of V -> diags (place_sle l V s) !! k = diags s !! k.
Proof.
  intros Hk. unfold diags_of in Hk.
  repeat (apply not_elem_of_cons in Hk as [? Hk]).
  unfold place_sle, place_vec. cbn [set_sles set_diags set_floats diags].
  now rewrite !lookup_insert_ne by congruence.
Qed.

Lemma place_sle_floats l V s k :
  k ∉ bufs_of V -> floats (place_sle l V s) !! k = floats s !! k.
Proof.
  intros Hk. unfold bufs_of, buf in Hk. cbn [view_of] in Hk.
  repeat (apply not_elem_of_cons in Hk as [? Hk]).
  unfold place_sle, place_vec. cbn [set_sles set_diags set_floats floats].
  now rewrite !lookup_insert_ne by congruence.
Qed.

(** Taking out a system that was put into unused memory gives the memory
    back. *)
Lemma without_place l V s :
  unused l V s ->
  sles (without_sle l V (place_sle l V s)) = sles s /\
  diags (without_sle l V (place_sle l V s)) = diags s /\
  floats (without_sle l V (place_sle l V s)) = floats s /\
  allocator (without_sle l V (place_sle l V s)) = allocator s.
Proof.
  intros (Hl & Hd & Hb). split; [|split; [|split; [|reflexivity]]].
  - unfold without_sle, place_sle, without_vec, place_vec.
    cbn [set_sles set_diags set_floats sles].
    rewrite delete_insert_eq. now apply delete_id.
  - apply map_eq. intros k. rewrite without_sle_diags. case_bool_decide as Hk.
    + symmetry. now apply Hd.
    + now apply place_sle_diags.
  - apply map_eq. intros k. rewrite without_sle_floats. case_bool_decide as Hk.
    + symmetry. now apply Hb.
    + now apply place_sle_floats.
Qed.

End PlaceProofs.

Ltac create_failed l :=
  cbv beta iota delta [negb Z.eqb ret]; heap_simpl;
  lazymatch goal with
  | |- context [triSLE_destroy (Ptr l) (State (<[l := ?r]> ?sl) ?dg ?fl ?al)] =>
      first
        [ rewrite (triSLE_destroy_null_field
                     (State (<[l := r]> sl) dg fl al) l r Fa
                     (lookup_insert_eq _ _ _) eq_refl)
        | rewrite (triSLE_destroy_null_field
                     (State (<[l := r]> sl) dg fl al) l r Fb
                     (lookup_insert_eq _ _ _) eq_refl)
        | rewrite (triSLE_destroy_null_field
                     (State (<[l := r]> sl) dg fl al) l r Fc
                     (lookup_insert_eq _ _ _) eq_refl)
        | rewrite (triSLE_destroy_null_field
                     (State (<[l := r]> sl) dg fl al) l r Fd
                     (lookup_insert_eq _ _ _) eq_refl)
        | rewrite (triSLE_destroy_null_field
                     (State (<[l := r]> sl) dg fl al) l r Fx
                     (lookup_insert_eq _ _ _) eq_refl) ];
      first [reflexivity | assumption]
  end.

Ltac create_run l Hn Hn' :=
  repeat lazymatch goal with
    | |- context [create_field ?f (Ptr l) ?n
                    (State ?sl ?dg ?fl (Some ?j1 :: Some ?j2 :: ?rest))] =>
        rewrite (create_field_ok sl dg fl l _ f n j1 j2 rest
                   (lookup_insert_eq _ _ _) Hn);
        cbv beta iota delta [negb Z.eqb put_field sle_a sle_b sle_c sle_d sle_x];
        rewrite insert_insert_eq
    | |- context [create_field ?f (Ptr l) ?n
                    (State ?sl ?dg ?fl (Some ?j1 :: ?rest))] =>
        let al := fresh "al" in
        let E := fresh "E" in
        destruct (create_field_no_buffer (State sl dg fl (Some j1 :: rest))
                    l f n j1 rest eq_refl Hn'
                    ltac:(right; first [left; reflexivity
                                       |right; eexists; reflexivity]))
          as (al & E);
        rewrite E; create_failed l
    | |- context [create_field ?f (Ptr l) ?n (State ?sl ?dg ?fl ?al)] =>
        rewrite (create_field_no_struct (State sl dg fl al) l f n)
          by first [left; reflexivity | right; eexists; reflexivity];
        first [reflexivity | assumption]
    end.

Section CreateFailure.
Context {float double : Type} {AR : CArith float double}.
#[local] Abbreviation state := (@state float).
#[local] Abbreviation sle_view := (@sle_view float).
#[local] Abbreviation vec_view := (@vec_view float).
#[local] Abbreviation M := (@M float).
Implicit Types (s : state) (V : sle_view).

Lemma triSLE_create_negative s n j0 rest :
  allocator s = Some j0 :: rest -> - 2 ^ 31 <= n < 0 ->
  triSLE_create n s = Fault.
Proof.
  intros Hal Hn. destruct s as [sl dg fl al].
  cbv beta iota delta [allocator] in Hal. subst al.
  assert (Hn' : - 2 ^ 31 <= n <= INT_MAX) by (unfold INT_MAX; lia).
  unfold triSLE_create, calloc_sle, bind. heap_simpl.
  cbv beta iota delta [is_null].
  set (l := fresh_addr sl). clearbody l.
  destruct rest as [|[j1|] rest].
  - rewrite (create_field_no_struct _ l Fa n) by (left; reflexivity). reflexivity.
  - destruct (create_field_no_buffer
                (State (<[l := TriSLE NULL NULL NULL NULL NULL]> sl) dg fl
                       (Some j1 :: rest)) l Fa n j1 rest eq_refl Hn'
                ltac:(left; lia)) as (al & E).
    rewrite E. create_failed l.
  - rewrite (create_field_no_struct _ l Fa n) by (right; eexists; reflexivity).
    reflexivity.
Qed.

Lemma triSLE_create_starved s n j0 rest :
  allocator s = Some j0 :: rest -> 0 <= n <= INT_MAX ->
  ~ (exists j1 j2 j3 j4 j5 j6 j7 j8 j9 j10 rest',
       rest = Some j1 :: Some j2 :: Some j3 :: Some j4 :: Some j5 :: Some j6
              :: Some j7 :: Some j8 :: Some j9 :: Some j10 :: rest') ->
  triSLE_create n s = Fault.
Proof.
  intros Hal Hn Hno. destruct s as [sl dg fl al].
  cbv beta iota delta [allocator] in Hal. subst al.
  assert (Hn' : - 2 ^ 31 <= n <= INT_MAX) by lia.
  unfold triSLE_create, calloc_sle, bind. heap_simpl.
  cbv beta iota delta [is_null].
  set (l := fresh_addr sl). clearbody l.
  destruct rest as [|[j1|] rest]; [create_run l Hn Hn'| |create_run l Hn Hn'].
  destruct rest as [|[j2|] rest]; [create_run l Hn Hn'| |create_run l Hn Hn'].
  destruct rest as [|[j3|] rest]; [create_run l Hn Hn'| |create_run l Hn Hn'].
  destruct rest as [|[j4|] rest]; [create_run l Hn Hn'| |create_run l Hn Hn'].
  destruct rest as [|[j5|] rest]; [create_run l Hn Hn'| |create_run l Hn Hn'].
  destruct rest as [|[j6|] rest]; [create_run l Hn Hn'| |create_run l Hn Hn'].
  destruct rest as [|[j7|] rest]; [create_run l Hn Hn'| |create_run l Hn Hn'].
  destruct rest as [|[j8|] rest]; [create_run l Hn Hn'| |create_run l Hn Hn'].
  destruct rest as [|[j9|] rest]; [create_run l Hn Hn'| |create_run l Hn Hn'].
  destruct rest as [|[j10|] rest]; [create_run l Hn Hn'| |create_run l Hn Hn'].
  exfalso. apply Hno. now exists j1, j2, j3, j4, j5, j6, j7, j8, j9, j10, rest.
Qed.

(** Once the system struct is granted, [triSLE_create] either is undefined
    or succeeds. *)
Lemma triSLE_create_outcome s n j0 rest (P : outcome (Z * option ptr) -> Prop) :
  allocator s = Some j0 :: rest -> 0 <= n <= INT_MAX ->
  P Fault -> (forall l s1, P (Ok (0, Some (Ptr l)) s1)) ->
  P (triSLE_create n s).
Proof.
  intros Hal Hn HF HOk. destruct s as [sl dg fl al].
  cbv beta iota delta [allocator] in Hal. subst al.
  assert (Hn' : - 2 ^ 31 <= n <= INT_MAX) by lia.
  unfold triSLE_create, calloc_sle, bind. heap_simpl.
  cbv beta iota delta [is_null].
  set (l := fresh_addr sl). clearbody l.
  destruct rest as [|[j1|] rest]; [create_run l Hn Hn'| |create_run l Hn Hn'].
  destruct rest as [|[j2|] rest]; [create_run l Hn Hn'| |create_run l Hn Hn'].
  destruct rest as [|[j3|] rest]; [create_run l Hn Hn'| |create_run l Hn Hn'].
  destruct rest as [|[j4|] rest]; [create_run l Hn Hn'| |create_run l Hn Hn'].
  destruct rest as [|[j5|] rest]; [create_run l Hn Hn'| |create_run l Hn Hn'].
  destruct rest as [|[j6|] rest]; [create_run l Hn Hn'| |create_run l Hn Hn'].
  destruct rest as [|[j7|] rest]; [create_run l Hn Hn'| |create_run l Hn Hn'].
  destruct rest as [|[j8|] rest]; [create_run l Hn Hn'| |create_run l Hn Hn'].
  destruct rest as [|[j9|] rest]; [create_run l Hn Hn'| |create_run l Hn Hn'].
  destruct rest as [|[j10|] rest]; [create_run l Hn Hn'| |create_run l Hn Hn'].
  create_run l Hn Hn'. apply HOk.
Qed.

End CreateFailure.

(** *** What a caller of the creation and destruction functions sees *)

Section LifecycleTheorems.
Context {float double : Type} {AR : CArith float double}.
#[local] Abbreviation state := (@state float).
#[local] Abbreviation sle_view := (@sle_view float).
#[local] Abbreviation vec_view := (@vec_view float).
#[local] Abbreviation M := (@M float).
Implicit Types (s : state) (V : sle_view).

Lemma read_sle_set_allocator s al p : read_sle (set_allocator al s) p = read_sle s p.
Proof. now destruct s. Qed.

(** [diagonal_create] with both allocations granted returns 0 and stores a
    handle to a new vector: struct and buffer at addresses that were not in
    use, length field [n], [n] values [0.0f]; every vector that was
    readable before still reads the same. *)
Theorem diagonal_create_zero_vector s n j1 j2 rest :
  allocator s = Some j1 :: Some j2 :: rest -> 0 <= n <= INT_MAX ->
  exists d b s',
    diagonal_create n s = Ok (0, Some (Ptr d)) s' /\
    diags s !! d = None /\ floats s !! b = None /\
    read_vec s' (Ptr d) = Some (VecView d n b (zeros n)) /\
    (forall p (w : vec_view), read_vec s p = Some w -> read_vec s' p = Some w) /\
    sles s' = sles s /\ allocator s' = rest.
Proof.
  intros Hal Hn.
  exists (fresh_addr (diags s)), (fresh_addr (floats s)). eexists.
  split; [exact (diagonal_create_ok s n j1 j2 rest Hal Hn)|].
  pose proof (fresh_addr_fresh (diags s)) as Hd.
  pose proof (fresh_addr_fresh (floats s)) as Hb.
  split; [assumption|]. split; [assumption|]. split; [|split; [|split; reflexivity]].
  - unfold read_vec. cbn [diags floats]. now rewrite !lookup_insert_eq.
  - intros p w (-> & Hwd & Hwb)%read_vec_Some.
    unfold read_vec. cbn [diags floats].
    rewrite lookup_insert_ne by congruence. rewrite Hwd.
    rewrite lookup_insert_ne by congruence. rewrite Hwb. now destruct w.
Qed.

(** [diagonal_create] whose struct is granted and whose buffer is not
    (the allocator refuses, or [n] is negative and the byte count
    overflows) returns -1, stores nothing, and has released the struct:
    memory is as before. *)
Theorem diagonal_create_buffer_failure s n j rest :
  allocator s = Some j :: rest ->
  - 2 ^ 31 <= n <= INT_MAX ->
  n < 0 \/ rest = [] \/ (exists rest', rest = None :: rest') ->
  exists s',
    diagonal_create n s = Ok (-1, None) s' /\
    sles s' = sles s /\ diags s' = diags s /\ floats s' = floats s.
Proof.
  intros Hal Hn Hno.
  destruct (diagonal_create_no_buffer s n j rest Hal Hn Hno) as (al & E & _).
  exists (set_allocator al s). now split.
Qed.

(** [diagonal_create] whose struct is refused is undefined: the error path
    runs [FREE_IF_NOT_NULL(d->data)] with [d] null. *)
Theorem diagonal_create_struct_failure_undefined s n :
  allocator s = [] \/ (exists rest, allocator s = None :: rest) ->
  diagonal_create n s = Fault.
Proof. apply diagonal_create_no_struct. Qed.

(** Creating a vector and destroying it gives the memory back. *)
Theorem diagonal_create_destroy s n j1 j2 rest :
  allocator s = Some j1 :: Some j2 :: rest -> 0 <= n <= INT_MAX ->
  exists d s1 s2,
    diagonal_create n s = Ok (0, Some d) s1 /\
    diagonal_destroy d s1 = Ok 0 s2 /\
    sles s2 = sles s /\ diags s2 = diags s /\ floats s2 = floats s.
Proof.
  intros Hal Hn. eexists. eexists. eexists.
  split; [exact (diagonal_create_ok s n j1 j2 rest Hal Hn)|].
  split.
  - apply (diagonal_destroy_live _ _
             (VecView (fresh_addr (diags s)) n (fresh_addr (floats s)) (zeros n))).
    unfold read_vec. cbn [diags floats]. now rewrite !lookup_insert_eq.
  - cbn [set_diags set_floats sles diags floats vv_diag vv_buf].
    rewrite !delete_insert_eq.
    rewrite !delete_id by apply fresh_addr_fresh. now split.
Qed.

(** [triSLE_create] with its eleven allocations granted returns 0 and
    stores a handle to a new system of [n] equations: five vectors of [n]
    zeros that share nothing, at addresses that were not in use; the
    systems that were readable before still read the same. *)
Theorem triSLE_create_zero_system s n j0 j1 j2 j3 j4 j5 j6 j7 j8 j9 j10 rest :
  allocator s = Some j0 :: Some j1 :: Some j2 :: Some j3 :: Some j4 :: Some j5
                :: Some j6 :: Some j7 :: Some j8 :: Some j9 :: Some j10 :: rest ->
  0 <= n <= INT_MAX ->
  exists l V s',
    triSLE_create n s = Ok (0, Some (Ptr l)) s' /\
    read_sle s' (Ptr l) = Some V /\ sized n V /\ zeroed n V /\
    NoDup (diags_of V) /\ NoDup (bufs_of V) /\ unused l V s /\
    (forall p W, read_sle s p = Some W -> read_sle s' p = Some W) /\
    allocator s' = rest.
Proof.
  intros Hal Hn.
  destruct (triSLE_create_ok s n _ _ _ _ _ _ _ _ _ _ _ rest Hal Hn)
    as (l & V & E & Hun & Hdd & Hbd & Hz).
  exists l, V, (set_allocator rest (place_sle l V s)). split; [exact E|].
  split; [rewrite read_sle_set_allocator; apply (read_sle_place s l V Hdd Hbd)|].
  split; [|split; [assumption|]].
  { unfold sized. split; [apply (Hz Fb)|].
    assert (Hlen : forall f, len (vals f V) = n).
    { intros f. destruct (Hz f) as [_ ->]. unfold len, zeros.
      rewrite length_replicate. lia. }
    repeat split; apply Hlen. }
  split; [assumption|]. split; [assumption|]. split; [assumption|].
  split; [|reflexivity].
  intros p W HW. rewrite read_sle_set_allocator.
  exact (read_sle_place_other s p l V W HW Hun).
Qed.

(** [triSLE_create] never reports the failure of a vector: once the
    system struct is granted, a negative [n] or a refused allocation among
    the ten that follow ends in [diagonal_destroy] (or the error path of
    [diagonal_create]) reading through a null pointer. *)
Theorem triSLE_create_vector_failure_undefined s n j0 rest :
  allocator s = Some j0 :: rest -> - 2 ^ 31 <= n <= INT_MAX ->
  n < 0 \/
  ~ (exists j1 j2 j3 j4 j5 j6 j7 j8 j9 j10 rest',
       rest = Some j1 :: Some j2 :: Some j3 :: Some j4 :: Some j5 :: Some j6
              :: Some j7 :: Some j8 :: Some j9 :: Some j10 :: rest') ->
  triSLE_create n s = Fault.
Proof.
  intros Hal Hn [Hneg|Hno].
  - apply (triSLE_create_negative s n j0 rest Hal). lia.
  - destruct (Z.ltb_spec n 0).
    + apply (triSLE_create_negative s n j0 rest Hal). lia.
    + apply (triSLE_create_starved s n j0 rest Hal); [lia|assumption].
Qed.

(** When [triSLE_create] does return -1, it is the system struct that was
    refused: nothing was stored and memory is as before. *)
Theorem triSLE_create_error_is_clean s n out s' :
  - 2 ^ 31 <= n <= INT_MAX ->
  triSLE_create n s = Ok (-1, out) s' ->
  out = None /\ sles s' = sles s /\ diags s' = diags s /\ floats s' = floats s /\
  (allocator s = [] \/ exists rest, allocator s = None :: rest).
Proof.
  intros Hn E. destruct (allocator s) as [|[j0|] rest] eqn:Hal.
  - unfold triSLE_create, bind, calloc_sle in E. rewrite Hal in E.
    cbn [is_null] in E. injection E as <- <-. repeat split. now left.
  - exfalso.
    destruct (Z.ltb_spec n 0) as [Hneg|Hpos].
    { rewrite (triSLE_create_negative s n j0 rest Hal) in E by lia. discriminate. }
    revert E.
    apply (triSLE_create_outcome s n j0 rest
             (fun o => o = Ok (-1, out) s' -> False) Hal ltac:(lia));
      [discriminate|intros; discriminate].
  - unfold triSLE_create, bind, calloc_sle in E. rewrite Hal in E.
    cbn [is_null] in E. injection E as <- <-. repeat split. right. now exists rest.
Qed.

(** [triSLE_destroy] on a live system whose vectors share nothing returns 0
    and releases the system struct, the five vector structs and the five
    buffers, and nothing else. *)
Theorem triSLE_destroy_releases s l V :
  read_sle s (Ptr l) = Some V -> NoDup (diags_of V) -> NoDup (bufs_of V) ->
  exists s',
    triSLE_destroy (Ptr l) s = Ok 0 s' /\
    sles s' = delete l (sles s) /\
    (forall k, diags s' !! k
               = if bool_decide (k ∈ diags_of V) then None else diags s !! k) /\
    (forall k, floats s' !! k
               = if bool_decide (k ∈ bufs_of V) then None else floats s !! k) /\
    allocator s' = allocator s.
Proof.
  intros HV Hdd Hbd. exists (without_sle l V s).
  split; [now apply triSLE_destroy_live|]. split; [reflexivity|].
  split; [apply without_sle_diags|]. split; [apply without_sle_floats|reflexivity].
Qed.

(** The handle of a destroyed system is dangling: it no longer reads as a
    system, and destroying it a second time is undefined. *)
Theorem triSLE_destroy_twice_undefined s l V :
  read_sle s (Ptr l) = Some V -> NoDup (diags_of V) -> NoDup (bufs_of V) ->
  exists s',
    triSLE_destroy (Ptr l) s = Ok 0 s' /\
    read_sle s' (Ptr l) = None /\
    triSLE_destroy (Ptr l) s' = Fault.
Proof.
  intros HV Hdd Hbd. exists (without_sle l V s).
  split; [now apply triSLE_destroy_live|].
  assert (Hl : sles (without_sle l V s) !! l = None) by apply lookup_delete_eq.
  split; [|now apply triSLE_destroy_dangling].
  unfold read_sle. now rewrite Hl.
Qed.

(** A system with a null vector handle, as [triSLE_create] leaves it when a
    vector cannot be created, cannot be destroyed: [triSLE_destroy] is
    undefined on it. *)
Theorem triSLE_destroy_partial_undefined s l r f :
  sles s !! l = Some r -> get_field f r = NULL ->
  triSLE_destroy (Ptr l) s = Fault.
Proof. apply triSLE_destroy_null_field. Qed.

(** Creating a system and destroying it gives the memory back: no struct
    and no buffer is leaked. *)
Theorem triSLE_create_destroy s n j0 j1 j2 j3 j4 j5 j6 j7 j8 j9 j10 rest :
  allocator s = Some j0 :: Some j1 :: Some j2 :: Some j3 :: Some j4 :: Some j5
                :: Some j6 :: Some j7 :: Some j8 :: Some j9 :: Some j10 :: rest ->
  0 <= n <= INT_MAX ->
  exists p s1 s2,
    triSLE_create n s = Ok (0, Some p) s1 /\
    triSLE_destroy p s1 = Ok 0 s2 /\
    sles s2 = sles s /\ diags s2 = diags s /\ floats s2 = floats s /\
    allocator s2 = rest.
Proof.
  intros Hal Hn.
  destruct (triSLE_create_ok s n _ _ _ _ _ _ _ _ _ _ _ rest Hal Hn)
    as (l & V & E & Hun & Hdd & Hbd & Hz).
  exists (Ptr l), (set_allocator rest (place_sle l V s)),
    (without_sle l V (set_allocator rest (place_sle l V s))).
  split; [exact E|]. split.
  - apply (triSLE_destroy_live _ l V); [|assumption|assumption].
    rewrite read_sle_set_allocator. exact (read_sle_place s l V Hdd Hbd).
  - destruct (without_place l V s Hun) as (Hs & Hd & Hf & _).
    split; [exact Hs|]. split; [exact Hd|]. split; [exact Hf|reflexivity].
Qed.

End LifecycleTheorems.

(** ** sle.c: copies and frames *)

Section CopyFrames.
Context {float double : Type} {AR : CArith float double}.
#[local] Abbreviation state := (@state float).
#[local] Abbreviation sle_view := (@sle_view float).
#[local] Abbreviation vec_view := (@vec_view float).
#[local] Abbreviation M := (@M float).
Implicit Types (s : state) (V W : sle_view).

(** A system reads the same in two memories that agree on its structs and
    its buffers. *)
Lemma read_vec_frame s s' p (w : vec_view) :
  read_vec s p = Some w ->
  diags s' !! vv_diag w = diags s !! vv_diag w ->
  floats s' !! vv_buf w = floats s !! vv_buf w ->
  read_vec s' p = Some w.
Proof.
  intros (-> & Hd & Hb)%read_vec_Some Ed Eb. unfold read_vec.
  rewrite Ed, Hd, Eb, Hb. now destruct w.
Qed.

Lemma read_sle_agree s s' l W :
  read_sle s (Ptr l) = Some W ->
  sles s' !! l = sles s !! l ->
  (forall k, k ∈ diags_of W -> diags s' !! k = diags s !! k) ->
  (forall k, k ∈ bufs_of W -> floats s' !! k = floats s !! k) ->
  read_sle s' (Ptr l) = Some W.
Proof.
  intros HW Es Ed Ef.
  apply read_sle_Some in HW as (l' & r & [= <-] & Hl & Hf).
  assert (Hv : forall f, read_vec s' (get_field f r) = Some (view_of f W)).
  { intros f. apply (read_vec_frame s); [apply Hf| |].
    - apply Ed. unfold diags_of. destruct f; cbn [view_of];
        rewrite !elem_of_cons; tauto.
    - apply Ef. unfold bufs_of, buf. destruct f; cbn [view_of];
        rewrite !elem_of_cons; tauto. }
  unfold read_sle. rewrite Es, Hl.
  pose proof (Hv Fa) as Ha. pose proof (Hv Fb) as Hb. pose proof (Hv Fc) as Hc.
  pose proof (Hv Fd) as Hd. pose proof (Hv Fx) as Hx.
  cbn [get_field view_of] in Ha, Hb, Hc, Hd, Hx.
  rewrite Ha, Hb, Hc, Hd, Hx. now destruct W.
Qed.

Lemma read_sle_frame s s' p W :
  read_sle s p = Some W ->
  sles s' = sles s -> diags s' = diags s ->
  (forall l, l ∈ bufs_of W -> floats s' !! l = floats s !! l) ->
  read_sle s' p = Some W.
Proof.
  intros HW Es Ed Ef. pose proof HW as (l & r & -> & _)%read_sle_Some.
  apply (read_sle_agree s); [assumption|now rewrite Es| |assumption].
  intros k _. now rewrite Ed.
Qed.

(** A live system has its structs and buffers in memory. *)
Lemma read_sle_live s l W :
  read_sle s (Ptr l) = Some W ->
  is_Some (sles s !! l) /\
  (forall k, k ∈ diags_of W -> is_Some (diags s !! k)) /\
  (forall k, k ∈ bufs_of W -> is_Some (floats s !! k)).
Proof.
  intros HW. pose proof HW as (l' & r & [= <-] & Hl & Hf)%read_sle_Some.
  split; [now exists r|]. split; intros k Hk.
  - unfold diags_of in Hk.
    repeat (apply elem_of_cons in Hk as [->|Hk]); [..|now apply elem_of_nil in Hk].
    + pose proof (read_sle_diag _ _ _ Fa HW) as H. cbn [view_of] in H.
      rewrite H. eauto.
    + pose proof (read_sle_diag _ _ _ Fb HW) as H. cbn [view_of] in H.
      rewrite H. eauto.
    + pose proof (read_sle_diag _ _ _ Fc HW) as H. cbn [view_of] in H.
      rewrite H. eauto.
    + pose proof (read_sle_diag _ _ _ Fd HW) as H. cbn [view_of] in H.
      rewrite H. eauto.
    + pose proof (read_sle_diag _ _ _ Fx HW) as H. cbn [view_of] in H.
      rewrite H. eauto.
  - unfold bufs_of in Hk.
    repeat (apply elem_of_cons in Hk as [->|Hk]); [..|now apply elem_of_nil in Hk].
    + rewrite (read_sle_buf _ _ _ Fa HW). eauto.
    + rewrite (read_sle_buf _ _ _ Fb HW). eauto.
    + rewrite (read_sle_buf _ _ _ Fc HW). eauto.
    + rewrite (read_sle_buf _ _ _ Fd HW). eauto.
    + rewrite (read_sle_buf _ _ _ Fx HW). eauto.
Qed.

(** [triSLE_copy] between two live systems of the same length that share
    no buffer. *)
Lemma triSLE_copy_same_size s dest src Vd Vs n :
  read_sle s dest = Some Vd -> read_sle s src = Some Vs ->
  sized n Vd -> sized n Vs -> n < 2 ^ 62 ->
  NoDup (bufs_of Vd ++ bufs_of Vs) ->
  exists s',
    triSLE_copy dest src s = Ok 0 s' /\
    read_sle s' src = Some Vs /\
    read_sle s' dest = Some (with_contents Vd (coeffs_of Vs) (vals Fx Vd)) /\
    sles s' = sles s /\ diags s' = diags s /\ allocator s' = allocator s /\
    (forall l, l ∉ bufs_of Vd -> floats s' !! l = floats s !! l).
Proof.
  intros Hd Hs (_ & Hda & Hdb & Hdc & Hdd & Hdx) (Hn & Hsa & Hsb & Hsc & Hsd & Hsx)
    Hm Hnd.
  assert (Hn0 : 0 <= n) by (unfold len in Hsa; lia).
  unfold triSLE_copy.
  rewrite (read_sle_not_null _ _ _ Hd), (read_sle_not_null _ _ _ Hs). cbn [orb].
  assert (Hfull : forall v w : list float, len v = n -> len w = n ->
            take (Z.to_nat n) v ++ drop (Z.to_nat n) w = v).
  { intros v w Hv Hw. unfold len in Hv, Hw.
    rewrite take_ge, drop_ge by lia. apply app_nil_r. }
  pose proof Hd as Hd0.
  destruct Vd as [[pa na la va] [pb nb lb vb] [pc nc lc vc] [pd nd ld vd] [px nx lx vx]].
  destruct Vs as [[qa ma ka wa] [qb mb kb wb] [qc mc kc wc] [qd md kd wd] [qx mx kx wx]].
  unfold bufs_of, buf, vals, with_contents, with_vals, coeffs_of in *.
  cbn [view_of view_a view_b view_c view_d view_x vv_buf vv_vals vv_n vv_diag
       co_a co_b co_c co_d app] in *.
  nodup_facts Hnd.
  erewrite (bind_ok _ _ _ _ _ (copy_field_ok _ _ _ _ _ Fa n Hd Hs _ _ _ _ _)).
  apply (read_sle_poke _ _ _ la (take (Z.to_nat n) wa ++ drop (Z.to_nat n) va)) in Hd, Hs.
  settle_view Hd. settle_view Hs.
  erewrite (bind_ok _ _ _ _ _ (copy_field_ok _ _ _ _ _ Fb n Hd Hs _ _ _ _ _)).
  apply (read_sle_poke _ _ _ lb (take (Z.to_nat n) wb ++ drop (Z.to_nat n) vb)) in Hd, Hs.
  settle_view Hd. settle_view Hs.
  erewrite (bind_ok _ _ _ _ _ (copy_field_ok _ _ _ _ _ Fc n Hd Hs _ _ _ _ _)).
  apply (read_sle_poke _ _ _ lc (take (Z.to_nat n) wc ++ drop (Z.to_nat n) vc)) in Hd, Hs.
  settle_view Hd. settle_view Hs.
  erewrite (bind_ok _ _ _ _ _ (copy_field_ok _ _ _ _ _ Fd n Hd Hs _ _ _ _ _)).
  apply (read_sle_poke _ _ _ ld (take (Z.to_nat n) wd ++ drop (Z.to_nat n) vd)) in Hd, Hs.
  settle_view Hd. settle_view Hs.
  eexists. split; [reflexivity|].
  unfold buf, vals in Hd, Hs |- *.
  cbn [view_of view_a view_b view_c view_d view_x vv_buf vv_vals vv_n vv_diag]
    in Hd, Hs |- *.
  rewrite (Hfull wa va Hsa Hda), (Hfull wb vb Hsb Hdb), (Hfull wc vc Hsc Hdc),
    (Hfull wd vd Hsd Hdd) in Hd, Hs |- *.
  split; [exact Hs|]. split; [exact Hd|].
  split; [reflexivity|]. split; [reflexivity|]. split; [reflexivity|].
  intros l Hl. repeat (apply not_elem_of_cons in Hl as [? Hl]).
  cbn [set_floats floats]. unfold buf.
  cbn [view_of view_a view_b view_c view_d view_x vv_buf].
  now rewrite !lookup_insert_ne by congruence.
  Unshelve.
  all: unfold buf, vals; cbn [view_of view_a view_b view_c view_d view_x vv_buf vv_vals vv_n];
    try assumption; try congruence;
    clear - Hn0 Hm Hda Hdb Hdc Hdd Hsa Hsb Hsc Hsd; lia.
Qed.

(** [triSLE_copy] from a system that is longer than the destination is
    undefined: the first [memcpy] writes past the end of the destination's
    [a] buffer. *)
Theorem triSLE_copy_longer_source_undefined s dest src Vd Vs m n :
  read_sle s dest = Some Vd -> read_sle s src = Some Vs ->
  sized m Vd -> sized n Vs -> m < n < 2 ^ 62 ->
  triSLE_copy dest src s = Fault.
Proof.
  intros Hd Hs (_ & Hda & _) (Hn & Hsa & _) Hmn.
  unfold triSLE_copy.
  rewrite (read_sle_not_null _ _ _ Hd), (read_sle_not_null _ _ _ Hs). cbn [orb].
  unfold bind at 1. unfold copy_field.
  rewrite (bind_ok _ _ _ _ _ (sle_data_ok _ _ _ Fa Hd)).
  rewrite (bind_ok _ _ _ _ _ (sle_data_ok _ _ _ Fa Hs)).
  rewrite (bind_ok _ _ _ _ _ (sle_n_ok _ _ _ Hs)). rewrite Hn.
  unfold memcpy_floats.
  rewrite (read_sle_buf _ _ _ Fa Hd), (read_sle_buf _ _ _ Fa Hs).
  assert (Hm0 : 0 <= m) by (unfold len in Hda; lia).
  rewrite to_size_small by (unfold sizeof_float; lia).
  unfold sizeof_float. rewrite Z.div_mul by lia.
  replace (Z.to_nat n <=? length (vals Fa Vd))%nat with false.
  - now rewrite andb_false_r.
  - symmetry. apply Nat.leb_gt. unfold len in Hda. lia.
Qed.

End CopyFrames.

(** ** sle.c: what the validators read *)

Section ValidatorReads.
Context {float double : Type} {AR : CArith float double}.
#[local] Abbreviation state := (@state float).
#[local] Abbreviation sle_view := (@sle_view float).
Implicit Types (s : state) (V W : sle_view).

Lemma validate_maxrel_run s rs is_ Vr Vi n :
  read_sle s rs = Some Vr -> read_sle s is_ = Some Vi ->
  sized n Vi -> len (vals Fx Vr) = n -> n < 2 ^ 64 ->
  triSLE_validate_maxrel rs is_ s
  = Ok (spec_maxrel (vals Fa Vi) (vals Fb Vi) (vals Fc Vi) (vals Fd Vi)
          (vals Fx Vr) n) s.
Proof.
  intros Hr Hi Hsz Hxr Hlt. unfold triSLE_validate_maxrel.
  rewrite (read_sle_not_null _ _ _ Hr), (read_sle_not_null _ _ _ Hi). cbn [orb].
  unfold bind. rewrite (sle_n_ok _ _ _ Hi).
  destruct Hsz as (Hn & Hrest). rewrite Hn.
  assert (Hn0 : 0 <= n) by (unfold len in Hxr; lia).
  rewrite (maxrel_rows_ok _ _ _ _ _ n Hr Hi ltac:(split; assumption) Hxr Hlt) by lia.
  rewrite Z2Nat.id by lia. reflexivity.
Qed.

Lemma validate_mape_run s rs is_ Vr Vi n :
  abs_quotient_law ->
  read_sle s rs = Some Vr -> read_sle s is_ = Some Vi ->
  sized n Vi -> len (vals Fx Vr) = n -> n < 2 ^ 64 ->
  triSLE_validate_mape rs is_ s
  = Ok (spec_mape (vals Fa Vi) (vals Fb Vi) (vals Fc Vi) (vals Fd Vi)
          (vals Fx Vr) n) s.
Proof.
  intros Hlaw Hr Hi Hsz Hxr Hlt. unfold triSLE_validate_mape.
  rewrite (read_sle_not_null _ _ _ Hr), (read_sle_not_null _ _ _ Hi). cbn [orb].
  unfold bind. rewrite (sle_n_ok _ _ _ Hi).
  pose proof Hsz as (Hn & Hrest). rewrite Hn.
  assert (Hn0 : 0 <= n) by (unfold len in Hxr; lia).
  rewrite (mape_rows_ok _ _ _ _ _ n Hlaw Hr Hi Hsz Hxr Hlt) by lia.
  rewrite (sle_n_ok _ _ _ Hi), Hn.
  rewrite Z2Nat.id by lia. reflexivity.
Qed.

Lemma find_ext_in {A} (f g : A -> bool) (l : list A) :
  (forall a, In a l -> f a = g a) -> List.find f l = List.find g l.
Proof.
  induction l as [|a l IH]; intros H; [reflexivity|]. cbn [List.find].
  rewrite (H a) by now left. destruct (g a); [reflexivity|].
  apply IH. intros b Hb. apply H. now right.
Qed.

(** The residual of row [i] reads [b[i]], [x[i-1]], [x[i]], [x[i+1]],
    [a[i]] when [i > 0] and [c[i]] when [i < n - 1]. *)
Lemma residual_ext (a b c x a' b' c' x' : list float) n i :
  0 <= i < n ->
  idx b' i = idx b i ->
  (0 < i -> idx a' i = idx a i) -> (i < n - 1 -> idx c' i = idx c i) ->
  (forall j, 0 <= j < n -> idx x' j = idx x j) ->
  residual a' b' c' x' n i = residual a b c x n i.
Proof.
  intros Hi Hb Ha Hc Hx. unfold residual.
  rewrite Hb, (Hx i Hi).
  destruct (Z.ltb_spec 0 i) as [H0|H0].
  - rewrite (Ha H0), (Hx (i - 1)) by lia.
    destruct (Z.ltb_spec i (n - 1)) as [H1|H1]; [|reflexivity].
    now rewrite (Hc H1), (Hx (i + 1)) by lia.
  - destruct (Z.ltb_spec i (n - 1)) as [H1|H1]; [|reflexivity].
    now rewrite (Hc H1), (Hx (i + 1)) by lia.
Qed.

Lemma maxrel_over_ext (r r' : Z -> float) (d d' : list float) rows m0 :
  (forall i, In i rows -> r' i = r i) ->
  (forall i, In i rows -> idx d' i = idx d i) ->
  maxrel_over r' d' rows m0 = maxrel_over r d rows m0.
Proof.
  intros Hr Hd. unfold maxrel_over.
  rewrite (find_ext_in (fun i => is_nan (r' i)) (fun i => is_nan (r i)))
    by (intros i Hi; now rewrite Hr).
  destruct (List.find (fun i => is_nan (r i)) rows) as [j|] eqn:E.
  - apply Hr. now apply find_some in E.
  - rewrite (filter_ext_in (fun i => nonzero (idx d' i)) (fun i => nonzero (idx d i)))
      by (intros i Hi; now rewrite Hd).
    f_equal. apply map_ext_in. intros i Hi. apply filter_In in Hi as [Hi _].
    now rewrite Hr, Hd.
Qed.

Lemma mape_over_ext (r r' : Z -> float) (d d' : list float) rows :
  (forall i, In i rows -> r' i = r i) ->
  (forall i, In i rows -> idx d' i = idx d i) ->
  forall acc, mape_over r' d' rows acc = mape_over r d rows acc.
Proof.
  unfold mape_over. induction rows as [|i rows IH]; intros Hr Hd acc; [reflexivity|].
  cbn [fold_left]. rewrite (Hr i), (Hd i) by now left.
  apply IH; intros j Hj; [apply Hr|apply Hd]; now right.
Qed.

Lemma In_seqZ (i n : Z) : In i (seqZ 0 n) -> 0 <= i < n.
Proof. intros Hi. apply list_elem_of_In, elem_of_seqZ in Hi. lia. Qed.

Lemma spec_maxrel_ext n Vr Vi Vr' Vi' :
  same_inputs n Vr Vi Vr' Vi' ->
  spec_maxrel (vals Fa Vi') (vals Fb Vi') (vals Fc Vi') (vals Fd Vi') (vals Fx Vr') n
  = spec_maxrel (vals Fa Vi) (vals Fb Vi) (vals Fc Vi) (vals Fd Vi) (vals Fx Vr) n.
Proof.
  intros Hsame. unfold spec_maxrel. apply maxrel_over_ext.
  - intros i Hi%In_seqZ. destruct (Hsame i Hi) as (_ & Hb & _ & Ha & Hc).
    apply residual_ext; try assumption. intros j Hj. apply (Hsame j Hj).
  - intros i Hi%In_seqZ. apply (Hsame i Hi).
Qed.

Lemma spec_mape_ext n Vr Vi Vr' Vi' :
  same_inputs n Vr Vi Vr' Vi' ->
  spec_mape (vals Fa Vi') (vals Fb Vi') (vals Fc Vi') (vals Fd Vi') (vals Fx Vr') n
  = spec_mape (vals Fa Vi) (vals Fb Vi) (vals Fc Vi) (vals Fd Vi) (vals Fx Vr) n.
Proof.
  intros Hsame. unfold spec_mape. f_equal. apply mape_over_ext.
  - intros i Hi%In_seqZ. destruct (Hsame i Hi) as (_ & Hb & _ & Ha & Hc).
    apply residual_ext; try assumption. intros j Hj. apply (Hsame j Hj).
  - intros i Hi%In_seqZ. apply (Hsame i Hi).
Qed.

(** [triSLE_validate_maxrel] reads the result system's [x] and the initial
    system's [b], [d], [a[1..n-1]] and [c[0..n-2]], and nothing else:
    [a[0]], [c[n-1]], the initial system's [x], the result system's
    coefficients and the rest of memory do not influence its value, and it
    writes nothing. *)
Theorem triSLE_validate_maxrel_reads s rs is_ Vr Vi s' rs' is' Vr' Vi' n :
  read_sle s rs = Some Vr -> read_sle s is_ = Some Vi ->
  read_sle s' rs' = Some Vr' -> read_sle s' is' = Some Vi' ->
  sized n Vi -> len (vals Fx Vr) = n ->
  sized n Vi' -> len (vals Fx Vr') = n -> n < 2 ^ 64 ->
  same_inputs n Vr Vi Vr' Vi' ->
  exists e,
    triSLE_validate_maxrel rs is_ s = Ok e s /\
    triSLE_validate_maxrel rs' is' s' = Ok e s'.
Proof.
  intros Hr Hi Hr' Hi' Hsz Hx Hsz' Hx' Hn Hsame. eexists. split.
  - apply (validate_maxrel_run s rs is_ Vr Vi n); assumption.
  - rewrite (validate_maxrel_run s' rs' is' Vr' Vi' n) by assumption.
    f_equal. now apply spec_maxrel_ext.
Qed.

(** The same for [triSLE_validate_mape]. *)
Theorem triSLE_validate_mape_reads s rs is_ Vr Vi s' rs' is' Vr' Vi' n :
  abs_quotient_law ->
  read_sle s rs = Some Vr -> read_sle s is_ = Some Vi ->
  read_sle s' rs' = Some Vr' -> read_sle s' is' = Some Vi' ->
  sized n Vi -> len (vals Fx Vr) = n ->
  sized n Vi' -> len (vals Fx Vr') = n -> n < 2 ^ 64 ->
  same_inputs n Vr Vi Vr' Vi' ->
  exists e,
    triSLE_validate_mape rs is_ s = Ok e s /\
    triSLE_validate_mape rs' is' s' = Ok e s'.
Proof.
  intros Hlaw Hr Hi Hr' Hi' Hsz Hx Hsz' Hx' Hn Hsame. eexists. split.
  - apply (validate_mape_run s rs is_ Vr Vi n); assumption.
  - rewrite (validate_mape_run s' rs' is' Vr' Vi' n) by assumption.
    f_equal. now apply spec_mape_ext.
Qed.

Lemma sle_elem_out_of_bounds s p V f i :
  read_sle s p = Some V -> len (vals f V) <= i ->
  sle_elem f p i s = Fault.
Proof.
  intros HV Hi. unfold sle_elem.
  rewrite (bind_ok _ _ _ _ _ (sle_data_ok _ _ _ f HV)).
  unfold load_float. rewrite (read_sle_buf _ _ _ f HV).
  unfold len in Hi. rewrite (proj2 (lookup_ge_None _ _)); [reflexivity|lia].
Qed.

(** A row whose [x[i-1]], [x[i]], [x[i+1]] exist has a residual. *)
Lemma row_result_defined s rs is_ Vr Vi n i :
  read_sle s rs = Some Vr -> read_sle s is_ = Some Vi ->
  sized n Vi -> n < 2 ^ 63 -> 0 <= i -> i + 1 < len (vals Fx Vr) -> i < n ->
  exists v, row_result rs is_ i s = Ok v s.
Proof.
  intros Hr Hi (Hn & Ha & Hb & Hc & Hd & Hx) Hlt Hi0 Hix Hin.
  unfold row_result, bind, ret.
  rewrite (sle_elem_ok _ _ _ Fb i Hi) by lia.
  rewrite (sle_elem_ok _ _ _ Fx i Hr) by lia.
  destruct (0 <? i) eqn:E0.
  - apply Z.ltb_lt in E0. rewrite (to_size_small (i - 1)) by lia.
    rewrite (sle_elem_ok _ _ _ Fa i Hi) by lia.
    rewrite (sle_elem_ok _ _ _ Fx (i - 1) Hr) by lia.
    rewrite (sle_n_ok _ _ _ Hi), Hn. rewrite (to_size_small (n - 1)) by lia.
    destruct (i <? n - 1) eqn:E1; [|eauto].
    apply Z.ltb_lt in E1. rewrite (to_size_small (i + 1)) by lia.
    rewrite (sle_elem_ok _ _ _ Fc i Hi) by lia.
    rewrite (sle_elem_ok _ _ _ Fx (i + 1) Hr) by lia. eauto.
  - rewrite (sle_n_ok _ _ _ Hi), Hn. rewrite (to_size_small (n - 1)) by lia.
    destruct (i <? n - 1) eqn:E1; [|eauto].
    apply Z.ltb_lt in E1. rewrite (to_size_small (i + 1)) by lia.
    rewrite (sle_elem_ok _ _ _ Fc i Hi) by lia.
    rewrite (sle_elem_ok _ _ _ Fx (i + 1) Hr) by lia. eauto.
Qed.

(** The row at which a short [x] is left: the last index of [x], or row 0
    when [x] is empty. *)
Lemma row_result_out_of_bounds s rs is_ Vr Vi n i :
  read_sle s rs = Some Vr -> read_sle s is_ = Some Vi ->
  sized n Vi -> n < 2 ^ 63 -> len (vals Fx Vr) < n ->
  i = Z.max (len (vals Fx Vr) - 1) 0 ->
  row_result rs is_ i s = Fault.
Proof.
  intros Hr Hi (Hn & Ha & Hb & Hc & Hd & Hx) Hlt Hshort ->.
  assert (Hm0 : 0 <= len (vals Fx Vr)) by (unfold len; lia).
  unfold row_result, bind, ret.
  destruct (decide (len (vals Fx Vr) = 0)) as [Hm|Hm].
  - replace (Z.max (len (vals Fx Vr) - 1) 0) with 0 by lia.
    rewrite (sle_elem_ok _ _ _ Fb _ Hi) by lia.
    now rewrite (sle_elem_out_of_bounds _ _ _ Fx 0 Hr) by lia.
  - rewrite Z.max_l by lia.
    rewrite (sle_elem_ok _ _ _ Fb _ Hi) by lia.
    rewrite (sle_elem_ok _ _ _ Fx _ Hr) by lia.
    assert (Hrest : forall r0 : float,
      match sle_n is_ s with
      | Ok a s' =>
          (if len (vals Fx Vr) - 1 <? to_size (a - 1)
           then fun s0 =>
             match sle_elem Fc is_ (len (vals Fx Vr) - 1) s0 with
             | Ok a0 s'0 =>
                 match sle_elem Fx rs (to_size (len (vals Fx Vr) - 1 + 1)) s'0 with
                 | Ok a1 s'1 => Ok (fadd r0 (fmul a0 a1)) s'1
                 | Fault => Fault
                 end
             | Fault => Fault
             end
           else fun s0 => Ok r0 s0) s'
      | Fault => Fault
      end = Fault).
    { intros r0. rewrite (sle_n_ok _ _ _ Hi), Hn.
      rewrite (to_size_small (n - 1)) by lia.
      destruct (Z.ltb_spec (len (vals Fx Vr) - 1) (n - 1)); [|lia].
      rewrite (sle_elem_ok _ _ _ Fc _ Hi) by lia.
      rewrite to_size_small by lia.
      now rewrite (sle_elem_out_of_bounds _ _ _ Fx _ Hr) by lia. }
    destruct (0 <? len (vals Fx Vr) - 1) eqn:E0.
    + apply Z.ltb_lt in E0. rewrite (to_size_small (_ - 1)) by lia.
      rewrite (sle_elem_ok _ _ _ Fa _ Hi) by lia.
      rewrite (sle_elem_ok _ _ _ Fx _ Hr) by lia. apply Hrest.
    + apply Hrest.
Qed.

(** [triSLE_validate_mape] takes the number of rows from the initial
    system alone: on a result system whose [x] has fewer values it reads
    past the end of [x], which is undefined. *)
Theorem triSLE_validate_mape_short_result_undefined s rs is_ Vr Vi n :
  read_sle s rs = Some Vr -> read_sle s is_ = Some Vi ->
  sized n Vi -> n < 2 ^ 63 -> len (vals Fx Vr) < n ->
  triSLE_validate_mape rs is_ s = Fault.
Proof.
  intros Hr Hi Hsz Hlt Hshort.
  assert (Hm0 : 0 <= len (vals Fx Vr)) by (unfold len; lia).
  set (f := Z.max (len (vals Fx Vr) - 1) 0).
  assert (Hloop : forall (count : nat) i acc,
            0 <= i <= f -> i + Z.of_nat count = n ->
            mape_rows count i rs is_ acc s = Fault).
  { induction count as [|c IH]; intros i acc Hif Hin; [unfold f in Hif; lia|].
    cbn [mape_rows]. unfold bind at 1.
    destruct (decide (i = f)) as [->|Hne].
    - now rewrite (row_result_out_of_bounds s rs is_ Vr Vi n f Hr Hi Hsz Hlt Hshort).
    - destruct (row_result_defined s rs is_ Vr Vi n i Hr Hi Hsz Hlt)
        as (v & ->); [unfold f in *; lia..|].
      unfold bind. pose proof Hsz as (Hn & Ha & Hb & Hc & Hd & Hx).
      rewrite (sle_elem_ok _ _ _ Fd i Hi) by (unfold f in *; lia).
      apply IH; unfold f in *; lia. }
  unfold triSLE_validate_mape.
  rewrite (read_sle_not_null _ _ _ Hr), (read_sle_not_null _ _ _ Hi). cbn [orb].
  unfold bind. rewrite (sle_n_ok _ _ _ Hi). destruct Hsz as (Hn & Hrest).
  rewrite Hn. rewrite Hloop; [reflexivity|unfold f; lia|lia].
Qed.

End ValidatorReads.

(** ** pcr.c and main.c: a whole run *)

Section WholeRun.
Context {float double : Type} {AR : CArith float double}.
#[local] Abbreviation state := (@state float).
#[local] Abbreviation sle_view := (@sle_view float).
#[local] Abbreviation coeffs := (@coeffs float).
Implicit Types (s : state) (V W : sle_view) (w : coeffs).

Lemma bufs_of_with_contents V w (x : list float) :
  bufs_of (with_contents V w x) = bufs_of V.
Proof. reflexivity. Qed.

Lemma diags_of_with_contents V w (x : list float) :
  diags_of (with_contents V w x) = diags_of V.
Proof. reflexivity. Qed.

(** [pcr_succeeds], as a caller reads memory afterwards. *)
Lemma pcr_run s sle V n j1 j2 j3 j4 rest :
  read_sle s sle = Some V -> sized n V ->
  NoDup (diags_of V) -> NoDup (bufs_of V) ->
  1 <= n < 2 ^ 62 -> 0 <= total_levels_of n ->
  (forall j, 0 <= j < total_levels_of n -> n + 2 ^ j <= 2 ^ 31) ->
  allocator s = Some j1 :: Some j2 :: Some j3 :: Some j4 :: rest ->
  let kf := reduce_from (Z.to_nat (total_levels_of n)) 0 (coeffs_of V) n in
  exists s',
    pcr sle s = Ok 0 s' /\
    read_sle s' sle = Some (with_contents V kf (solution kf n)) /\
    sles s' = sles s /\ diags s' = diags s /\
    (forall l, l ∉ bufs_of V -> floats s' !! l = floats s !! l) /\
    allocator s' = rest.
Proof.
  intros HV Hsz Hdd Hbd Hn HL Hfit Hal kf.
  eexists. split; [now apply (pcr_succeeds s sle V n j1 j2 j3 j4 rest)|].
  split; [now apply read_sle_final|]. split; [reflexivity|]. split; [reflexivity|].
  split; [|reflexivity].
  intros l Hl. cbn [floats]. unfold bufs_of in Hl.
  repeat (apply not_elem_of_cons in Hl as [? Hl]).
  rewrite lookup_insert_ne by congruence.
  apply put4_lookup_other. unfold quad_list, bufs4. cbn [qa qb qc qd].
  rewrite !not_elem_of_cons. repeat split; try congruence; apply not_elem_of_nil.
Qed.

Lemma sized_zeroed n V : 0 <= n -> zeroed n V -> sized n V.
Proof.
  intros Hn Hz. unfold sized. split; [apply (Hz Fb)|].
  assert (Hlen : forall f, len (vals f V) = n).
  { intros f. destruct (Hz f) as [_ ->]. unfold len, zeros.
    rewrite length_replicate. lia. }
  repeat split; apply Hlen.
Qed.

Lemma sized_with_contents n V w (x : list float) :
  sized n V -> lens n w -> len x = n -> sized n (with_contents V w x).
Proof.
  intros (Hn & _) (Ha & Hb & Hc & Hd) Hx. unfold sized, with_contents, vals.
  cbn [view_of view_a view_b view_c view_d view_x with_vals vv_vals vv_n].
  repeat split; assumption.
Qed.

Lemma lens_coeffs_of n V : sized n V -> lens n (coeffs_of V).
Proof. intros (_ & Ha & Hb & Hc & Hd & _). repeat split; assumption. Qed.

Lemma len_solution w n : 0 <= n -> len (solution w n) = n.
Proof. intros Hn. unfold len, solution. rewrite length_map, length_seqZ. lia. Qed.

Lemma lens_reduce_from (count : nat) : forall level w n,
  0 <= n -> lens n w -> lens n (reduce_from count level w n).
Proof.
  induction count as [|c IH]; intros level w n Hn Hk; [assumption|].
  cbn [reduce_from]. apply IH; [assumption|]. now apply lens_reduce.
Qed.

Lemma without_sle_sles l V s : sles (without_sle l V s) = delete l (sles s).
Proof. reflexivity. Qed.

Lemma without_sle_allocator l V s : allocator (without_sle l V s) = allocator s.
Proof. reflexivity. Qed.

Lemma live_not_unused s l lc V Vc :
  read_sle s (Ptr l) = Some V -> unused lc Vc s ->
  l <> lc /\
  (forall k, k ∈ diags_of Vc -> k ∉ diags_of V) /\
  (forall k, k ∈ bufs_of Vc -> k ∉ bufs_of V).
Proof.
  intros HV (Hl & Hd & Hb).
  destruct (read_sle_live s l V HV) as (Hsl & Hsd & Hsb).
  split; [|split].
  - intros ->. rewrite Hl in Hsl. now destruct Hsl.
  - intros k Hk Hk'. specialize (Hsd k Hk'). rewrite (Hd k Hk) in Hsd.
    now destruct Hsd.
  - intros k Hk Hk'. specialize (Hsb k Hk'). rewrite (Hb k Hk) in Hsb.
    now destruct Hsb.
Qed.

(** The second half of [main] on a live system, with its fifteen
    allocations granted: the values it prints and the memory it leaves. *)
Lemma main_run s l V n j0 j1 j2 j3 j4 j5 j6 j7 j8 j9 j10 j11 j12 j13 j14 rest :
  read_sle s (Ptr l) = Some V -> sized n V ->
  NoDup (diags_of V) -> NoDup (bufs_of V) ->
  1 <= n <= INT_MAX -> 0 <= total_levels_of n ->
  (forall j, 0 <= j < total_levels_of n -> n + 2 ^ j <= 2 ^ 31) ->
  abs_quotient_law ->
  allocator s = Some j0 :: Some j1 :: Some j2 :: Some j3 :: Some j4 :: Some j5
                :: Some j6 :: Some j7 :: Some j8 :: Some j9 :: Some j10
                :: Some j11 :: Some j12 :: Some j13 :: Some j14 :: rest ->
  let kf := reduce_from (Z.to_nat (total_levels_of n)) 0 (coeffs_of V) n in
  let x := solution kf n in
  exists s',
    main_solve_and_validate (Ptr l) n s
    = Ok (0, Some (spec_maxrel (vals Fa V) (vals Fb V) (vals Fc V) (vals Fd V) x n,
                   spec_mape (vals Fa V) (vals Fb V) (vals Fc V) (vals Fd V) x n))
         s' /\
    sles s' = delete l (sles s) /\
    (forall k, diags s' !! k
               = if bool_decide (k ∈ diags_of V) then None else diags s !! k) /\
    (forall k, floats s' !! k
               = if bool_decide (k ∈ bufs_of V) then None else floats s !! k) /\
    allocator s' = rest.
Proof.
  intros HV Hsz Hdd Hbd Hn HL Hfit Hlaw Hal kf x.
  assert (Hn62 : n < 2 ^ 62) by (unfold INT_MAX in Hn; lia).
  (* system_copy is created *)
  destruct (triSLE_create_ok s n _ _ _ _ _ _ _ _ _ _ _ _ Hal ltac:(lia))
    as (lc & Vc & E1 & Hun & Hdc & Hbc & Hz).
  set (s1 := set_allocator _ (place_sle lc Vc s)) in E1.
  destruct (live_not_unused s l lc V Vc HV Hun) as (Hne & Hdisd & Hdisb).
  assert (H1c : read_sle s1 (Ptr lc) = Some Vc).
  { unfold s1. rewrite read_sle_set_allocator. now apply read_sle_place. }
  assert (H1v : read_sle s1 (Ptr l) = Some V).
  { unfold s1. rewrite read_sle_set_allocator. now apply read_sle_place_other. }
  assert (Hszc : sized n Vc) by (apply sized_zeroed; [lia|assumption]).
  (* the coefficients are copied *)
  assert (Hnd : NoDup (bufs_of Vc ++ bufs_of V)).
  { apply NoDup_app. split; [assumption|]. split; assumption. }
  destruct (triSLE_copy_same_size s1 (Ptr lc) (Ptr l) Vc V n H1c H1v Hszc Hsz Hn62 Hnd)
    as (s2 & E2 & H2v & H2c & Hs2 & Hd2 & Ha2 & Hf2).
  (* the system is solved *)
  destruct (pcr_run s2 (Ptr l) V n j11 j12 j13 j14 rest H2v Hsz Hdd Hbd
              ltac:(lia) HL Hfit ltac:(rewrite Ha2; reflexivity))
    as (s3 & E3 & H3v & Hs3 & Hd3 & Hf3 & Ha3).
  fold kf in H3v. fold x in H3v.
  set (Vc' := with_contents Vc (coeffs_of V) (vals Fx Vc)) in *.
  set (V' := with_contents V kf x) in *.
  assert (H3c : read_sle s3 (Ptr lc) = Some Vc').
  { apply (read_sle_frame s2); [assumption..|].
    intros k Hk. apply Hf3. now apply Hdisb. }
  assert (Hlenx : len x = n) by (apply len_solution; lia).
  assert (Hszc' : sized n Vc').
  { apply sized_with_contents; [assumption|now apply lens_coeffs_of|apply Hszc]. }
  (* the system is destroyed, then the copy *)
  assert (E4 : triSLE_destroy (Ptr l) s3 = Ok 0 (without_sle l V' s3))
    by now apply triSLE_destroy_live.
  set (s4 := without_sle l V' s3) in *.
  assert (H4c : read_sle s4 (Ptr lc) = Some Vc').
  { apply (read_sle_agree s3); [assumption| | |].
    - unfold s4. rewrite without_sle_sles.
      now rewrite lookup_delete_ne by congruence.
    - intros k Hk. unfold s4. rewrite without_sle_diags.
      rewrite bool_decide_false; [reflexivity|]. now apply Hdisd.
    - intros k Hk. unfold s4. rewrite without_sle_floats.
      rewrite bool_decide_false; [reflexivity|]. now apply Hdisb. }
  assert (E5 : triSLE_destroy (Ptr lc) s4 = Ok 0 (without_sle lc Vc' s4))
    by now apply triSLE_destroy_live.
  exists (without_sle lc Vc' s4).
  split; [|split; [|split; [|split]]].
  - unfold main_solve_and_validate, bind. rewrite E1. cbn [fst snd Z.eqb negb].
    rewrite E2. cbn [Z.eqb negb]. rewrite E3. cbn [Z.eqb negb].
    rewrite (validate_maxrel_run s3 (Ptr l) (Ptr lc) V' Vc' n H3v H3c Hszc' Hlenx)
      by lia.
    rewrite (validate_mape_run s3 (Ptr l) (Ptr lc) V' Vc' n Hlaw H3v H3c Hszc' Hlenx)
      by lia.
    rewrite E4, E5. reflexivity.
  - rewrite without_sle_sles. unfold s4. rewrite without_sle_sles, Hs3, Hs2.
    change (sles s1) with (<[lc := handles Vc]> (sles s)).
    destruct Hun as (Hlc & _).
    rewrite delete_insert_ne by congruence. rewrite delete_insert_eq.
    apply delete_id. now rewrite lookup_delete_ne by congruence.
  - intros k. rewrite without_sle_diags. unfold s4. rewrite without_sle_diags.
    rewrite Hd3, Hd2. change (diags s1) with (diags (place_sle lc Vc s)).
    change (diags_of Vc') with (diags_of Vc). change (diags_of V') with (diags_of V).
    destruct Hun as (_ & Hund & _).
    destruct (decide (k ∈ diags_of Vc)) as [Hkc|Hkc].
    + rewrite (bool_decide_true _ Hkc).
      rewrite (bool_decide_false _ (Hdisd k Hkc)). symmetry. now apply Hund.
    + rewrite (bool_decide_false _ Hkc).
      destruct (bool_decide (k ∈ diags_of V)); [reflexivity|].
      now apply place_sle_diags.
  - intros k. rewrite without_sle_floats. unfold s4. rewrite without_sle_floats.
    change (bufs_of Vc') with (bufs_of Vc). change (bufs_of V') with (bufs_of V).
    destruct Hun as (_ & _ & Hunb).
    destruct (decide (k ∈ bufs_of Vc)) as [Hkc|Hkc].
    + rewrite (bool_decide_true _ Hkc).
      rewrite (bool_decide_false _ (Hdisb k Hkc)). symmetry. now apply Hunb.
    + rewrite (bool_decide_false _ Hkc).
      case_bool_decide as Hkv; [reflexivity|].
      rewrite Hf3 by assumption. rewrite Hf2 by assumption.
      change (floats s1) with (floats (place_sle lc Vc s)).
      now apply place_sle_floats.
  - rewrite without_sle_allocator. unfold s4. rewrite without_sle_allocator.
    exact Ha3.
Qed.

(** [pcr] on a live system of [n >= 1] equations with its four allocations
    granted returns 0; the vectors keep their structs and buffers; [a],
    [b], [c], [d] hold the coefficients after the levels and [x] the
    quotients [d[i] / b[i]]; the scratch buffers are released: the same
    buffers are allocated after the call as before, and those that are not
    the system's hold what they held. *)
Theorem pcr_result s sle V n j1 j2 j3 j4 rest :
  read_sle s sle = Some V -> sized n V ->
  NoDup (diags_of V) -> NoDup (bufs_of V) ->
  1 <= n < 2 ^ 62 -> 0 <= total_levels_of n ->
  (forall j, 0 <= j < total_levels_of n -> n + 2 ^ j <= 2 ^ 31) ->
  allocator s = Some j1 :: Some j2 :: Some j3 :: Some j4 :: rest ->
  let kf := reduce_from (Z.to_nat (total_levels_of n)) 0 (coeffs_of V) n in
  exists s',
    pcr sle s = Ok 0 s' /\
    read_sle s' sle = Some (with_contents V kf (solution kf n)) /\
    sles s' = sles s /\ diags s' = diags s /\
    (forall q, is_Some (floats s' !! q) <-> is_Some (floats s !! q)) /\
    (forall q, q ∉ bufs_of V -> floats s' !! q = floats s !! q) /\
    allocator s' = rest.
Proof.
  intros HV Hsz Hdd Hbd Hn HL Hfit Hal kf.
  destruct (pcr_run s sle V n j1 j2 j3 j4 rest HV Hsz Hdd Hbd Hn HL Hfit Hal)
    as (s' & E & HV' & Hs & Hd & Hf & Ha).
  fold kf in HV'. exists s'.
  split; [exact E|]. split; [exact HV'|]. split; [exact Hs|]. split; [exact Hd|].
  split; [|split; [exact Hf|exact Ha]].
  intros q. destruct (decide (q ∈ bufs_of V)) as [Hq|Hq].
  - pose proof HV as (l & r & -> & _)%read_sle_Some.
    destruct (read_sle_live s l V HV) as (_ & _ & Hlive).
    destruct (read_sle_live s' l _ HV') as (_ & _ & Hlive').
    split; intros _; [now apply Hlive|now apply Hlive'].
  - now rewrite Hf.
Qed.

End WholeRun.

(** ** Edge cases *)

Section EdgeCases.
Context {float double : Type} {AR : CArith float double}.
#[local] Abbreviation state := (@state float).
#[local] Abbreviation sle_view := (@sle_view float).
Implicit Types (s : state) (V : sle_view).

(** [pcr] on a live system of no equations returns 0 at once: no buffer is
    requested from the allocator and memory is untouched. *)
Theorem pcr_no_equations s sle V :
  read_sle s sle = Some V -> vv_n (view_b V) = 0 -> pcr sle s = Ok 0 s.
Proof.
  intros HV Hn. unfold pcr. rewrite (read_sle_not_null _ _ _ HV).
  unfold bind. now rewrite (sle_n_ok _ _ _ HV), Hn.
Qed.

End EdgeCases.

Section IEEEEdgeCases.
Import IEEE.
#[local] Existing Instance binary32.

(** In binary32 both validators return NaN, reading and writing nothing,
    as soon as one of the two handles is null. *)
Theorem validators_null_nan (s : @state spec_float) rs is_ :
  is_null rs || is_null is_ = true ->
  triSLE_validate_maxrel rs is_ s = Ok S754_nan s /\
  triSLE_validate_mape rs is_ s = Ok S754_nan s.
Proof.
  intros Hnull. unfold triSLE_validate_maxrel, triSLE_validate_mape.
  rewrite Hnull. split; reflexivity.
Qed.

(** In binary32 [(float)n] is exact up to 2^24, and the number of levels
    [pcr] computes, [(size_t)ceil(log2((float)n))], is [ceil(log2(n))]. *)
Theorem total_levels_is_ceil_log2 (n : Z) :
  1 <= n <= 2 ^ 24 -> total_levels_of n = Z.log2_up n.
Proof. apply binary32_total_levels. Qed.

(** The second half of [main] in binary32, on a live system of
    [1 <= n <= 2^24] equations with its fifteen allocations granted,
    whatever the coefficients hold: the copy is created, filled, used to
    validate the solution and released with the system; [main] returns 0
    after printing the two errors of the computed [x] against the original
    coefficients, and memory is as it was before the system was created. *)
Theorem main_binary32_run (s : @state spec_float) l (V : @sle_view spec_float) n
    j0 j1 j2 j3 j4 j5 j6 j7 j8 j9 j10 j11 j12 j13 j14 rest :
  read_sle s (Ptr l) = Some V -> sized n V ->
  NoDup (diags_of V) -> NoDup (bufs_of V) ->
  1 <= n <= 2 ^ 24 ->
  allocator s = Some j0 :: Some j1 :: Some j2 :: Some j3 :: Some j4 :: Some j5
                :: Some j6 :: Some j7 :: Some j8 :: Some j9 :: Some j10
                :: Some j11 :: Some j12 :: Some j13 :: Some j14 :: rest ->
  let kf := reduce_from (Z.to_nat (Z.log2_up n)) 0 (coeffs_of V) n in
  let x := solution kf n in
  exists s',
    main_solve_and_validate (Ptr l) n s
    = Ok (0, Some (spec_maxrel (vals Fa V) (vals Fb V) (vals Fc V) (vals Fd V) x n,
                   spec_mape (vals Fa V) (vals Fb V) (vals Fc V) (vals Fd V) x n))
         s' /\
    sles s' = delete l (sles s) /\
    (forall q, diags s' !! q
               = if bool_decide (q ∈ diags_of V) then None else diags s !! q) /\
    (forall q, floats s' !! q
               = if bool_decide (q ∈ bufs_of V) then None else floats s !! q) /\
    allocator s' = rest.
Proof.
  intros HV Hsz Hdd Hbd Hn Hal.
  rewrite <- (binary32_total_levels n Hn).
  apply (main_run s l V n j0 j1 j2 j3 j4 j5 j6 j7 j8 j9 j10 j11 j12 j13 j14 rest);
    try assumption.
  - unfold INT_MAX. lia.
  - rewrite binary32_total_levels by assumption. apply Z.log2_up_nonneg.
  - intros j Hj. now apply binary32_levels_fit.
  - exact binary32_abs_quotient.
Qed.

(** In binary32, up to 2^30 equations and whatever the coefficients hold:
    [pcr] runs at most 30 levels, so that every row index [i + stride] is
    an [int], and returns 0 with the caller's buffers holding the
    coefficients of the last level and [x] their quotients.  Above 2^24
    the number of levels need not be [ceil(log2(n))] any more. *)
Theorem pcr_defined_up_to_2_30 (s : @state spec_float) sle (V : @sle_view spec_float) n
    j1 j2 j3 j4 rest :
  read_sle s sle = Some V -> sized n V ->
  NoDup (diags_of V) -> NoDup (bufs_of V) ->
  1 <= n <= 2 ^ 30 ->
  allocator s = Some j1 :: Some j2 :: Some j3 :: Some j4 :: rest ->
  0 <= total_levels_of n <= 30 /\
  (forall j, 0 <= j < total_levels_of n -> n + 2 ^ j <= 2 ^ 31) /\
  let kf := reduce_from (Z.to_nat (total_levels_of n)) 0 (coeffs_of V) n in
  exists s',
    pcr sle s = Ok 0 s' /\
    read_sle s' sle = Some (with_contents V kf (solution kf n)) /\
    sles s' = sles s /\ diags s' = diags s /\
    (forall l, l ∉ bufs_of V -> floats s' !! l = floats s !! l).
Proof.
  intros HV Hsz Hdd Hbd Hn Hal.
  split; [now apply binary32_levels_upto|].
  split; [intros j Hj; now apply binary32_levels_fit_upto|].
  apply (pcr_solves s sle V n j1 j2 j3 j4 rest); auto.
  - lia.
  - now apply binary32_levels_upto.
  - intros j Hj. now apply binary32_levels_fit_upto.
Qed.

End IEEEEdgeCases.

(** ** The theorems at concrete systems *)

Section IEEECases.
Import IEEE Examples Cases.
#[local] Existing Instance binary32.

Lemma diagonal_create_zero_vector_witness :
  exists d b s',
    diagonal_create 2 (world [Some junk0; Some junk0]) = Ok (0, Some (Ptr d)) s' /\
    diags (world [Some junk0; Some junk0]) !! d = None /\
    floats (world [Some junk0; Some junk0]) !! b = None /\
    read_vec s' (Ptr d) = Some (VecView d 2 b (zeros 2)) /\
    (forall p (w : vec_view),
       read_vec (world [Some junk0; Some junk0]) p = Some w ->
       read_vec s' p = Some w) /\
    sles s' = sles (world [Some junk0; Some junk0]) /\ allocator s' = [].
Proof.
  apply (diagonal_create_zero_vector (world [Some junk0; Some junk0]) 2
           junk0 junk0 []).
  - reflexivity.
  - unfold INT_MAX. lia.
Defined.

Lemma diagonal_create_buffer_failure_witness :
  exists s',
    diagonal_create 2 (world [Some junk0; None]) = Ok (-1, None) s' /\
    sles s' = sles (world [Some junk0; None]) /\
    diags s' = diags (world [Some junk0; None]) /\
    floats s' = floats (world [Some junk0; None]).
Proof.
  apply (diagonal_create_buffer_failure (world [Some junk0; None]) 2 junk0 [None]).
  - reflexivity.
  - unfold INT_MAX. lia.
  - right. right. exists []. reflexivity.
Defined.

Lemma diagonal_create_struct_failure_undefined_witness :
  diagonal_create 2 (world []) = Fault.
Proof.
  apply (diagonal_create_struct_failure_undefined (world []) 2).
  left. reflexivity.
Defined.

Lemma diagonal_create_destroy_witness :
  exists d s1 s2,
    diagonal_create 2 (world [Some junk0; Some junk0]) = Ok (0, Some d) s1 /\
    diagonal_destroy d s1 = Ok 0 s2 /\
    sles s2 = sles (world [Some junk0; Some junk0]) /\
    diags s2 = diags (world [Some junk0; Some junk0]) /\
    floats s2 = floats (world [Some junk0; Some junk0]).
Proof.
  apply (diagonal_create_destroy (world [Some junk0; Some junk0]) 2 junk0 junk0 []).
  - reflexivity.
  - unfold INT_MAX. lia.
Defined.

Lemma triSLE_create_zero_system_witness :
  exists l V s',
    triSLE_create 2 (world eleven_ok) = Ok (0, Some (Ptr l)) s' /\
    read_sle s' (Ptr l) = Some V /\ sized 2 V /\ zeroed 2 V /\
    NoDup (diags_of V) /\ NoDup (bufs_of V) /\ unused l V (world eleven_ok) /\
    (forall p W, read_sle (world eleven_ok) p = Some W -> read_sle s' p = Some W) /\
    allocator s' = [].
Proof.
  apply (triSLE_create_zero_system (world eleven_ok) 2
           junk0 junk0 junk0 junk0 junk0 junk0 junk0 junk0 junk0 junk0 junk0 []).
  - reflexivity.
  - unfold INT_MAX. lia.
Defined.

Lemma triSLE_create_vector_failure_undefined_witness :
  triSLE_create 2 (world [Some junk0; Some junk0; None]) = Fault.
Proof.
  apply (triSLE_create_vector_failure_undefined
           (world [Some junk0; Some junk0; None]) 2 junk0 [Some junk0; None]).
  - reflexivity.
  - unfold INT_MAX. lia.
  - right. intros (j1 & j2 & j3 & j4 & j5 & j6 & j7 & j8 & j9 & j10 & rest' & H).
    discriminate H.
Defined.

Lemma triSLE_create_error_is_clean_witness :
  @None ptr = None /\ sles (world []) = sles (world []) /\
  diags (world []) = diags (world []) /\ floats (world []) = floats (world []) /\
  (allocator (world []) = [] \/ exists rest, allocator (world []) = None :: rest).
Proof.
  apply (triSLE_create_error_is_clean (world []) 2 None (world [])).
  - unfold INT_MAX. lia.
  - reflexivity.
Defined.

Lemma triSLE_destroy_releases_witness :
  exists s',
    triSLE_destroy (Ptr 1) (world []) = Ok 0 s' /\
    sles s' = delete 1%positive (sles (world [])) /\
    (forall k, diags s' !! k
               = if bool_decide (k ∈ diags_of view2) then None
                 else diags (world []) !! k) /\
    (forall k, floats s' !! k
               = if bool_decide (k ∈ bufs_of view2) then None
                 else floats (world []) !! k) /\
    allocator s' = allocator (world []).
Proof.
  apply (triSLE_destroy_releases (world []) 1 view2).
  - reflexivity.
  - apply (bool_decide_unpack _). vm_compute. exact I.
  - apply (bool_decide_unpack _). vm_compute. exact I.
Defined.

Lemma triSLE_destroy_twice_undefined_witness :
  exists s',
    triSLE_destroy (Ptr 1) (world []) = Ok 0 s' /\
    read_sle s' (Ptr 1) = None /\
    triSLE_destroy (Ptr 1) s' = Fault.
Proof.
  apply (triSLE_destroy_twice_undefined (world []) 1 view2).
  - reflexivity.
  - apply (bool_decide_unpack _). vm_compute. exact I.
  - apply (bool_decide_unpack _). vm_compute. exact I.
Defined.

Lemma triSLE_destroy_partial_undefined_witness :
  triSLE_destroy (Ptr 7) partial_state = Fault.
Proof.
  apply (triSLE_destroy_partial_undefined partial_state 7
           (TriSLE NULL NULL NULL NULL NULL) Fa).
  - reflexivity.
  - reflexivity.
Defined.

Lemma triSLE_create_destroy_witness :
  exists p s1 s2,
    triSLE_create 2 (world eleven_ok) = Ok (0, Some p) s1 /\
    triSLE_destroy p s1 = Ok 0 s2 /\
    sles s2 = sles (world eleven_ok) /\ diags s2 = diags (world eleven_ok) /\
    floats s2 = floats (world eleven_ok) /\ allocator s2 = [].
Proof.
  apply (triSLE_create_destroy (world eleven_ok) 2
           junk0 junk0 junk0 junk0 junk0 junk0 junk0 junk0 junk0 junk0 junk0 []).
  - reflexivity.
  - unfold INT_MAX. lia.
Defined.

Lemma triSLE_copy_longer_source_undefined_witness :
  triSLE_copy (Ptr 11) (Ptr 1) (world []) = Fault.
Proof.
  apply (triSLE_copy_longer_source_undefined (world []) (Ptr 11) (Ptr 1)
           view1 view2 1 2).
  - reflexivity.
  - reflexivity.
  - repeat split.
  - repeat split.
  - lia.
Defined.

Lemma variant2_same_inputs : same_inputs 2 view2 view2 variant_view2 variant_view2.
Proof.
  intros i Hi. assert (i = 0 \/ i = 1) as [-> | ->] by lia;
    repeat split; try reflexivity; intros; lia.
Qed.

Lemma triSLE_validate_maxrel_reads_witness :
  exists e,
    triSLE_validate_maxrel (Ptr 1) (Ptr 1) (world []) = Ok e (world []) /\
    triSLE_validate_maxrel (Ptr 1) (Ptr 1) variant2 = Ok e variant2.
Proof.
  apply (triSLE_validate_maxrel_reads (world []) (Ptr 1) (Ptr 1) view2 view2
           variant2 (Ptr 1) (Ptr 1) variant_view2 variant_view2 2).
  - reflexivity.
  - reflexivity.
  - reflexivity.
  - reflexivity.
  - repeat split.
  - reflexivity.
  - repeat split.
  - reflexivity.
  - lia.
  - exact variant2_same_inputs.
Defined.

Lemma triSLE_validate_mape_reads_witness :
  exists e,
    triSLE_validate_mape (Ptr 1) (Ptr 1) (world []) = Ok e (world []) /\
    triSLE_validate_mape (Ptr 1) (Ptr 1) variant2 = Ok e variant2.
Proof.
  apply (triSLE_validate_mape_reads (world []) (Ptr 1) (Ptr 1) view2 view2
           variant2 (Ptr 1) (Ptr 1) variant_view2 variant_view2 2).
  - exact binary32_abs_quotient.
  - reflexivity.
  - reflexivity.
  - reflexivity.
  - reflexivity.
  - repeat split.
  - reflexivity.
  - repeat split.
  - reflexivity.
  - lia.
  - exact variant2_same_inputs.
Defined.

Lemma triSLE_validate_mape_short_result_undefined_witness :
  triSLE_validate_mape (Ptr 11) (Ptr 1) (world []) = Fault.
Proof.
  apply (triSLE_validate_mape_short_result_undefined (world []) (Ptr 11) (Ptr 1)
           view1 view2 2).
  - reflexivity.
  - reflexivity.
  - repeat split.
  - lia.
  - vm_compute. reflexivity.
Defined.

Lemma pcr_result_witness :
  let kf := reduce_from (Z.to_nat (total_levels_of 2)) 0 (coeffs_of view2) 2 in
  exists s',
    pcr (Ptr 1) (world four_ok) = Ok 0 s' /\
    read_sle s' (Ptr 1) = Some (with_contents view2 kf (solution kf 2)) /\
    sles s' = sles (world four_ok) /\ diags s' = diags (world four_ok) /\
    (forall q, is_Some (floats s' !! q) <-> is_Some (floats (world four_ok) !! q)) /\
    (forall q, q ∉ bufs_of view2 -> floats s' !! q = floats (world four_ok) !! q) /\
    allocator s' = [].
Proof.
  apply (pcr_result (world four_ok) (Ptr 1) view2 2 junk0 junk0 junk0 junk0 []).
  - reflexivity.
  - repeat split.
  - apply (bool_decide_unpack _). vm_compute. exact I.
  - apply (bool_decide_unpack _). vm_compute. exact I.
  - lia.
  - vm_compute. discriminate.
  - intros j Hj. change (total_levels_of 2) with 1 in Hj.
    assert (j = 0) as -> by lia. lia.
  - reflexivity.
Defined.

Lemma pcr_solves_binary32_witness :
  let kf := reduce_from (Z.to_nat (Z.log2_up 2)) 0 (coeffs_of view2) 2 in
  exists s',
    pcr (Ptr 1) (world four_ok) = Ok 0 s' /\
    read_sle s' (Ptr 1) = Some (with_contents view2 kf (solution kf 2)) /\
    sles s' = sles (world four_ok) /\ diags s' = diags (world four_ok) /\
    (forall l, l ∉ bufs_of view2 -> floats s' !! l = floats (world four_ok) !! l).
Proof.
  apply (pcr_solves_binary32 (world four_ok) (Ptr 1) view2 2
           junk0 junk0 junk0 junk0 []).
  - reflexivity.
  - repeat split.
  - apply (bool_decide_unpack _). vm_compute. exact I.
  - apply (bool_decide_unpack _). vm_compute. exact I.
  - lia.
  - reflexivity.
Defined.

Lemma pcr_defined_up_to_2_30_witness :
  0 <= total_levels_of 2 <= 30 /\
  (forall j, 0 <= j < total_levels_of 2 -> 2 + 2 ^ j <= 2 ^ 31) /\
  let kf := reduce_from (Z.to_nat (total_levels_of 2)) 0 (coeffs_of view2) 2 in
  exists s',
    pcr (Ptr 1) (world four_ok) = Ok 0 s' /\
    read_sle s' (Ptr 1) = Some (with_contents view2 kf (solution kf 2)) /\
    sles s' = sles (world four_ok) /\ diags s' = diags (world four_ok) /\
    (forall l, l ∉ bufs_of view2 -> floats s' !! l = floats (world four_ok) !! l).
Proof.
  apply (pcr_defined_up_to_2_30 (world four_ok) (Ptr 1) view2 2
           junk0 junk0 junk0 junk0 []).
  - reflexivity.
  - repeat split.
  - apply (bool_decide_unpack _). vm_compute. exact I.
  - apply (bool_decide_unpack _). vm_compute. exact I.
  - lia.
  - reflexivity.
Defined.

Lemma total_levels_is_ceil_log2_witness : total_levels_of 1000 = Z.log2_up 1000.
Proof. apply (total_levels_is_ceil_log2 1000). lia. Defined.

Lemma main_binary32_run_witness :
  let kf := reduce_from (Z.to_nat (Z.log2_up 2)) 0 (coeffs_of view2) 2 in
  let x := solution kf 2 in
  exists s',
    main_solve_and_validate (Ptr 1) 2 (world fifteen_ok)
    = Ok (0, Some (spec_maxrel (vals Fa view2) (vals Fb view2) (vals Fc view2)
                     (vals Fd view2) x 2,
                   spec_mape (vals Fa view2) (vals Fb view2) (vals Fc view2)
                     (vals Fd view2) x 2))
         s' /\
    sles s' = delete 1%positive (sles (world fifteen_ok)) /\
    (forall q, diags s' !! q
               = if bool_decide (q ∈ diags_of view2) then None
                 else diags (world fifteen_ok) !! q) /\
    (forall q, floats s' !! q
               = if bool_decide (q ∈ bufs_of view2) then None
                 else floats (world fifteen_ok) !! q) /\
    allocator s' = [].
Proof.
  apply (main_binary32_run (world fifteen_ok) 1 view2 2
           junk0 junk0 junk0 junk0 junk0 junk0 junk0 junk0 junk0 junk0 junk0
           junk0 junk0 junk0 junk0 []).
  - reflexivity.
  - repeat split.
  - apply (bool_decide_unpack _). vm_compute. exact I.
  - apply (bool_decide_unpack _). vm_compute. exact I.
  - lia.
  - reflexivity.
Defined.

Lemma pcr_no_equations_witness : pcr (Ptr 31) (world []) = Ok 0 (world []).
Proof.
  apply (pcr_no_equations (world []) (Ptr 31) view0).
  - reflexivity.
  - reflexivity.
Defined.

Lemma validators_null_nan_witness :
  triSLE_validate_maxrel NULL (Ptr 1) (world []) = Ok S754_nan (world []) /\
  triSLE_validate_mape NULL (Ptr 1) (world []) = Ok S754_nan (world []).
Proof.
  apply (validators_null_nan (world []) NULL (Ptr 1)). reflexivity.
Defined.

(** The whole second half of [main], run on [4 x0 + x1 = 6],
    [x0 + 4 x1 = 9]: status 0, both errors 0.0, and the three systems of
    [world] minus the solved one are what is left. *)
Example main_two_equations :
  exists s',
    main_solve_and_validate (Ptr 1) 2 (world fifteen_ok)
    = Ok (0, Some (S754_zero false, S754_zero false)) s' /\
    read_sle s' (Ptr 1) = None /\
    read_sle s' (Ptr 11) = Some view1 /\
    dom (floats s') = dom (floats (system1 (system0 (empty_state [])))) /\
    dom (diags s') = dom (diags (system1 (system0 (empty_state [])))).
Proof.
  eexists. split; [vm_compute; reflexivity|].
  vm_compute. repeat split; reflexivity.
Qed.

End IEEECases.
